(** * AnnotateVite: inter-annotator agreement and adjudication routing

A shallow embedding of the two pieces of [src/components] that carry
algorithmic content:

- [KappaCalculator.tsx]: [calculateKappa] (pair extraction),
  [calculateKappaForCategory] (confusion matrix, observed and expected
  agreement, Cohen's kappa), [interpretKappa] and [getAnnotationCounts];
- [AdjudicatorInterface.tsx]: [hasDisagreement], the effect that
  navigates to the first item awaiting adjudication, the three fetches,
  [loadCommentsBatch], [handleSubmit] and the navigation handlers.

JavaScript values are modelled as follows.  Labels are strings, as in the
signature [string[]] of [calculateKappaForCategory].  Counters that the
code only ever increments from [0] are natural numbers.  The quantities
obtained by division are elements of an abstract number type (class
[Number]) with two instances: exact rationals [Q] and IEEE-754 binary64
([PrimFloat.float], the JavaScript [number]).  Exceptions are explicit
([outcome]).  Plain objects used as dictionaries are association lists
that remember creation order, with [Object.values] enumerating them in
the order ECMAScript prescribes.  Arrays that may have holes are lists of
options.  The answers of the database service are inputs of the functions
that await them ([Supabase.Client]); each handler is modelled as one
uninterrupted run. *)

From Stdlib Require Import ZArith QArith Qfield Lqa Lia String List.
From Stdlib Require Import Floats Uint63.
From stdpp Require Import base tactics option list sorting strings.

Open Scope Z_scope.

(** ** JavaScript runtime fragments *)

Module Js.

(** A completed call either returns normally or throws. *)
Inductive exn : Set := TypeError.

Inductive outcome (A : Type) : Type :=
| Ok (a : A)
| Throw (e : exn).
Arguments Ok {A} a.
Arguments Throw {A} e.

Definition bind {A B} (x : outcome A) (f : A -> outcome B) : outcome B :=
  match x with
  | Ok a => f a
  | Throw e => Throw e
  end.

(** Left-to-right iteration of a body that may throw: the shape of
    [for (...) { ... }] and of [forEach]. *)
Fixpoint foldM {S A} (body : S -> A -> outcome S) (l : list A) (s : S)
  : outcome S :=
  match l with
  | [] => Ok s
  | x :: l' => bind (body s x) (foldM body l')
  end.

Fixpoint mapM {A B} (f : A -> outcome B) (l : list A) : outcome (list B) :=
  match l with
  | [] => Ok []
  | x :: l' =>
      bind (f x) (fun y => bind (mapM f l') (fun ys => Ok (y :: ys)))
  end.

(** [arr[i]] for a number [i]: [undefined] ([None]) outside the array. *)
Definition item {A} (l : list A) (i : Z) : option A :=
  if i <? 0 then None else l !! Z.to_nat i.

(** [Array.prototype.indexOf] on an array of strings: position of the
    first element strictly equal to the argument, [-1] when there is
    none.  The argument is [None] when the caller passes [undefined]. *)
Fixpoint indexOf_from (l : list string) (x : string) (i : Z) : Z :=
  match l with
  | [] => -1
  | y :: l' => if String.eqb y x then i else indexOf_from l' x (i + 1)
  end.

Definition indexOf (l : list string) (x : option string) : Z :=
  match x with
  | Some s => indexOf_from l s 0
  | None => -1
  end.

(** [Array.prototype.findIndex]; holes are visited as [undefined]. *)
Fixpoint findIndex_from {A} (p : option A -> bool) (l : list (option A))
  (i : Z) : Z :=
  match l with
  | [] => -1
  | x :: l' => if p x then i else findIndex_from p l' (i + 1)
  end.

Definition findIndex {A} (p : option A -> bool) (l : list (option A)) : Z :=
  findIndex_from p l 0.

(** A plain object keyed by integers ([Record<number, V>]): the own
    properties in creation order, keys pairwise distinct. *)
Definition object (V : Type) : Type := list (Z * V).

Fixpoint get {V} (o : object V) (k : Z) : option V :=
  match o with
  | [] => None
  | (k', v) :: o' => if k' =? k then Some v else get o' k
  end.

(** [o[k] = v]: overwrite in place, or create the property last. *)
Fixpoint set {V} (o : object V) (k : Z) (v : V) : object V :=
  match o with
  | [] => [(k, v)]
  | (k', v') :: o' =>
      if k' =? k then (k, v) :: o' else (k', v') :: set o' k v
  end.

(** Keys that are array indices (canonical integers below [2^32 - 1])
    are enumerated first, in ascending order; then the others, in
    creation order. *)
Definition is_array_index (k : Z) : bool :=
  (0 <=? k) && (k <? 2 ^ 32 - 1).

Definition key_le {V} (x y : Z * V) : Prop := x.1 <= y.1.

Global Instance key_le_dec {V} (x y : Z * V) : Decision (key_le x y) :=
  Z_le_dec x.1 y.1.

Definition entries {V} (o : object V) : list (Z * V) :=
  merge_sort key_le (List.filter (fun e => is_array_index e.1) o)
  ++ List.filter (fun e => negb (is_array_index e.1)) o.

Definition keys {V} (o : object V) : list Z := (entries o).*1.
Definition values {V} (o : object V) : list V := (entries o).*2.

(** [arr[i]] on an array that may have holes: a hole reads as
    [undefined], like a position outside the array. *)
Definition element {A} (l : list (option A)) (i : Z) : option A :=
  mjoin (item l i).

(** [arr[i] = x] for an integer [i >= 0]: within the array the element is
    replaced; at or beyond its end the array grows up to [i], the positions
    skipped being holes.  A negative [i] names an ordinary property rather
    than an element, which this model of arrays does not hold: the elements
    and the length stay as they are. *)
Definition assign {A} (l : list (option A)) (i : Z) (x : A)
  : list (option A) :=
  if i <? 0 then l
  else
    let j := Z.to_nat i in
    if (j <? length l)%nat then <[j := Some x]> l
    else l ++ replicate (j - length l) None ++ [Some x].

(** [{ ...o }]: a new object with the own properties of [o], created in
    the order in which [o] enumerates them. *)
Definition spread {V} (o : object V) : object V := entries o.

End Js.

Import Js.

(** Sequencing is written [x ← c; k]. *)
Global Instance outcome_bind : MBind outcome := fun _ _ f x => Js.bind x f.
Global Instance outcome_ret : MRet outcome := fun _ a => Ok a.

(** ** Numbers *)

(** The arithmetic the agreement statistics need.  [of_nat] injects a
    counter; [eqb] is [===] on numbers. *)
Class Number (num : Type) : Type := {
  of_nat : nat -> num;
  add : num -> num -> num;
  sub : num -> num -> num;
  mul : num -> num -> num;
  div : num -> num -> num;
  eqb : num -> num -> bool
}.

(** What [interpretKappa] needs besides: [<] on numbers and the numeric
    literals [0], [0.20], [0.40], [0.60] and [0.80]. *)
Class Thresholds (num : Type) : Type := {
  less : num -> num -> bool;
  lit_0 : num;
  lit_0_20 : num;
  lit_0_40 : num;
  lit_0_60 : num;
  lit_0_80 : num
}.

(** ** Data model: the row types of [lib/supabase.ts] *)

Inductive Role : Set := annotator1 | annotator2.

Global Instance Role_eq_dec : EqDecision Role.
Proof. solve_decision. Defined.

Module Annotation.
Record t : Set := {
  id : Z;
  comment_id : Z;
  annotator_role : Role;
  sentiment : string;
  discourse_polarization : string;
  created_at : string
}.
End Annotation.

Module Comment.
Record t : Set := {
  id : Z;
  unique_comment_id : string;
  context_title : string;
  text : string;
  likes : Z;
  post_url : option string;
  created_at : string
}.
End Comment.

Module FinalAnnotation.
Record t : Set := {
  id : Z;
  comment_id : Z;
  final_sentiment : string;
  final_discourse_polarization : string;
  created_at : string
}.
End FinalAnnotation.

(** ** KappaCalculator.tsx *)

Module KappaCalculator.

Definition sentimentLabels : list string :=
  ["positive"; "negative"; "neutral"]%string.
Definition discourseLabels : list string :=
  ["partisan"; "objective"; "non_polarized"]%string.

(** What [calculateKappaForCategory] returns. *)
Record KappaOut (num : Type) : Type := {
  observedAgreement : num;
  expectedAgreement : num;
  kappa : num;
  matrix : list (list nat)
}.
Arguments observedAgreement {num} _.
Arguments expectedAgreement {num} _.
Arguments kappa {num} _.
Arguments matrix {num} _.

(** One dimension of [interface KappaResult]: the scores spread into the
    object, next to the label order used. *)
Record Scored (num : Type) : Type := {
  scores : KappaOut num;
  labels : list string
}.
Arguments scores {num} _.
Arguments labels {num} _.

Record KappaResult (num : Type) : Type := {
  sentiment : Scored num;
  discoursePolarization : Scored num
}.
Arguments sentiment {num} _.
Arguments discoursePolarization {num} _.

(** The component state ([useState]) together with the messages shown
    through [alert], oldest first. *)
Record State (num : Type) : Type := {
  annotations : list Annotation.t;
  kappaResults : option (KappaResult num);
  loading : bool;
  alerts : list string
}.
Arguments annotations {num} _.
Arguments kappaResults {num} _.
Arguments loading {num} _.
Arguments alerts {num} _.

Definition setLoading {num} (b : bool) (st : State num) : State num :=
  {| annotations := annotations st; kappaResults := kappaResults st;
     loading := b; alerts := alerts st |}.

Definition setKappaResults {num} (r : KappaResult num) (st : State num)
  : State num :=
  {| annotations := annotations st; kappaResults := Some r;
     loading := loading st; alerts := alerts st |}.

Definition alert {num} (msg : string) (st : State num) : State num :=
  {| annotations := annotations st; kappaResults := kappaResults st;
     loading := loading st; alerts := alerts st ++ [msg] |}.

(** [{ annotator1?: Annotation; annotator2?: Annotation }], read and
    written through the role name. *)
Definition Pair : Set := Role -> option Annotation.t.

Definition emptyPair : Pair := fun _ => None.

Definition setRole (pair : Pair) (role : Role) (a : Annotation.t) : Pair :=
  fun r => if decide (r = role) then Some a else pair r.

(** The [forEach] that groups the annotations by comment. *)
Definition group (commentAnnotations : object Pair) (annotation : Annotation.t)
  : object Pair :=
  let comment_id := Annotation.comment_id annotation in
  let commentAnnotations :=
    match get commentAnnotations comment_id with
    | Some _ => commentAnnotations
    | None => set commentAnnotations comment_id emptyPair
    end in
  let pair := default emptyPair (get commentAnnotations comment_id) in
  set commentAnnotations comment_id
      (setRole pair (Annotation.annotator_role annotation) annotation).

Definition commentAnnotations (annotations : list Annotation.t)
  : object Pair :=
  foldl group [] annotations.

Definition completePairs (annotations : list Annotation.t) : list Pair :=
  List.filter
    (fun pair => bool_decide (is_Some (pair annotator1))
                 && bool_decide (is_Some (pair annotator2)))
    (values (commentAnnotations annotations)).

(** [completePairs.map(pair => pair.role!.field)]: the non-null
    assertion is erased at run time, so a missing annotation would make
    the property access throw. *)
Definition column (role : Role) (field : Annotation.t -> string)
  (pairs : list Pair) : outcome (list string) :=
  mapM (fun pair : Pair =>
          match pair role with
          | Some a => Ok (field a)
          | None => Throw TypeError
          end) pairs.

(** [matrix[idx1][idx2]++].  Reading a property of [matrix[idx1]] throws
    when that row is [undefined].  When the row exists and [idx2] is
    [-1], the statement stores [NaN] under the non-index key ["-1"] of
    the row; no element of the row changes and neither [reduce] nor
    [row[idx]] ever reads that key, so the rows keep only their elements.
    Both indices come from [indexOf] on the label list, hence lie in
    [[-1, k)]. *)
Definition increment (matrix : list (list nat)) (idx1 idx2 : Z)
  : outcome (list (list nat)) :=
  match item matrix idx1 with
  | None => Throw TypeError
  | Some row =>
      match item row idx2 with
      | Some count =>
          Ok (<[Z.to_nat idx1 := <[Z.to_nat idx2 := S count]> row]> matrix)
      | None => Ok matrix
      end
  end.

(** Body of the [for] loop at index [i]. *)
Definition tally (annotator1 annotator2 labels : list string)
  (st : list (list nat) * nat) (i : nat)
  : outcome (list (list nat) * nat) :=
  let '(matrix, observedAgreements) := st in
  let idx1 := indexOf labels (annotator1 !! i) in
  let idx2 := indexOf labels (annotator2 !! i) in
  matrix' ← increment matrix idx1 idx2;
  Ok (matrix', if idx1 =? idx2 then S observedAgreements
               else observedAgreements).

(** [row.reduce((sum, count) => sum + count, 0)] and
    [matrix.reduce((sum, row) => sum + row[idx], 0)] on counters. *)
Definition rowSum (row : list nat) : nat := foldl Nat.add 0%nat row.

Definition columnSum (matrix : list (list nat)) (idx : nat) : nat :=
  foldl (fun sum row => (sum + row !!! idx)%nat) 0%nat matrix.

Section WithNumber.
Context {num : Type} `{Number num}.

#[local] Instance num_inhabited : Inhabited num := populate (of_nat 0).

(** [calculateKappaForCategory].  The matrix keeps its [k] rows of [k]
    entries throughout the loop (lemma [tabulate_square] below), so the reads
    [matrix[idx]], [row[idx]] and [marginal2[idx]] are all within range and
    the default of the total lookup [!!!] is never returned. *)
Definition calculateKappaForCategory
  (annotator1 annotator2 labels : list string) : outcome (KappaOut num) :=
  let n := length annotator1 in
  let k := length labels in
  let matrix0 := replicate k (replicate k 0%nat) in
  '(matrix, observedAgreements) ←
    foldM (tally annotator1 annotator2 labels) (seq 0 n) (matrix0, 0%nat);
  let observedAgreement : num :=
    div (of_nat observedAgreements) (of_nat n) in
  let marginal1 : list num :=
    map (fun idx => div (of_nat (rowSum (matrix !!! idx))) (of_nat n))
        (seq 0 k) in
  let marginal2 : list num :=
    map (fun idx => div (of_nat (columnSum matrix idx)) (of_nat n))
        (seq 0 k) in
  let expectedAgreement : num :=
    foldl (fun (sum : num) '(idx, p1) =>
             add sum (mul p1 (marginal2 !!! idx)))
          (of_nat 0) (zip (seq 0 k) marginal1) in
  let kappa : num :=
    if eqb expectedAgreement (of_nat 1) then of_nat 1
    else div (sub observedAgreement expectedAgreement)
             (sub (of_nat 1) expectedAgreement) in
  Ok {| observedAgreement := observedAgreement;
        expectedAgreement := expectedAgreement;
        kappa := kappa;
        matrix := matrix |}.

Definition noPairsMessage : string :=
  "No complete annotation pairs found for both annotators.".

(** The click handler.  The second component tells whether the call
    returned or was cut short by an exception; the first is the state
    it leaves behind. *)
Definition calculateKappa (st : State num) : State num * outcome () :=
  let st := setLoading true st in
  let completePairs := completePairs (annotations st) in
  if (length completePairs =? 0)%nat then
    (setLoading false (alert noPairsMessage st), Ok ())
  else
    let computed :=
      s1 ← column annotator1 Annotation.sentiment completePairs;
      s2 ← column annotator2 Annotation.sentiment completePairs;
      sentimentKappa ← calculateKappaForCategory s1 s2 sentimentLabels;
      d1 ← column annotator1 Annotation.discourse_polarization
             completePairs;
      d2 ← column annotator2 Annotation.discourse_polarization
             completePairs;
      discourseKappa ← calculateKappaForCategory d1 d2 discourseLabels;
      Ok (sentimentKappa, discourseKappa) in
    match computed with
    | Ok (sentimentKappa, discourseKappa) =>
        (setLoading false
           (setKappaResults
              {| sentiment :=
                   {| scores := sentimentKappa;
                      labels := sentimentLabels |};
                 discoursePolarization :=
                   {| scores := discourseKappa;
                      labels := discourseLabels |} |} st),
         Ok ())
    | Throw e => (st, Throw e)
    end.

End WithNumber.

(** [interpretKappa]: the first band whose upper bound exceeds [kappa]. *)
Definition interpretKappa {num : Type} `{Thresholds num} (kappa : num)
  : string :=
  if less kappa lit_0 then "Poor (worse than chance)"
  else if less kappa lit_0_20 then "Slight"
  else if less kappa lit_0_40 then "Fair"
  else if less kappa lit_0_60 then "Moderate"
  else if less kappa lit_0_80 then "Substantial"
  else "Almost Perfect".

(** A [Set] of role names: its elements in insertion order, without
    repeats; [add] of a present element changes nothing. *)
Definition RoleSet : Set := list Role.

Definition addRole (annotators : RoleSet) (role : Role) : RoleSet :=
  if bool_decide (role ∈ annotators) then annotators
  else annotators ++ [role].

(** The reducer of [getAnnotationCounts]. *)
Definition countRole (acc : object RoleSet) (annotation : Annotation.t)
  : object RoleSet :=
  let comment_id := Annotation.comment_id annotation in
  let acc :=
    match get acc comment_id with
    | Some _ => acc
    | None => set acc comment_id []
    end in
  set acc comment_id
      (addRole (default [] (get acc comment_id))
               (Annotation.annotator_role annotation)).

Module Counts.
Record t : Set := { totalComments : nat; completePairs : nat }.
End Counts.

Definition getAnnotationCounts (annotations : list Annotation.t) : Counts.t :=
  let commentCounts := foldl countRole [] annotations in
  {| Counts.totalComments := length (keys commentCounts);
     Counts.completePairs :=
       length (List.filter
                 (fun annotators : RoleSet => (length annotators =? 2)%nat)
                 (values commentCounts)) |}.

(** [disabled={loading || completePairs === 0}] on the button that runs
    [calculateKappa]. *)
Definition buttonDisabled {num : Type} (st : State num) : bool :=
  loading st
  || (Counts.completePairs (getAnnotationCounts (annotations st)) =? 0)%nat.

End KappaCalculator.

(** ** The Supabase client, as far as the components use it *)

Module Supabase.

(** What an awaited query resolves to, [{ data, error }]; [None] is
    [null]. *)
Record Response (A : Type) : Type := {
  data : option A;
  error : option string
}.
Arguments data {A} _.
Arguments error {A} _.

(** The answers of the service to the queries of [AdjudicatorInterface].
    A query that writes may also reject, which [await] turns into a
    throw. *)
Record Client : Type := {
  (** [from('comments').select('*', { count: 'exact', head: true })],
      its [count] *)
  count_comments : option Z;
  (** [from('comments').select('*').order('id').range(from, to)] *)
  range_comments : Z -> Z -> Response (list Comment.t);
  (** [from('annotations').select('*').order('comment_id, annotator_role')] *)
  select_annotations : Response (list Annotation.t);
  (** [from('final_annotations').select('*')] *)
  select_final_annotations : Response (list FinalAnnotation.t);
  (** [from('final_annotations').update({...}).eq('id', id)] *)
  update_final_annotation : Z -> string -> string -> outcome (Response ());
  (** [from('final_annotations').insert([{...}]).select().single()] *)
  insert_final_annotation :
    Z -> string -> string -> outcome (Response FinalAnnotation.t)
}.

End Supabase.

(** ** AdjudicatorInterface.tsx *)

Module AdjudicatorInterface.

Record State : Type := {
  comments : list (option Comment.t);
  totalComments : Z;
  annotations : object (list Annotation.t);
  finalAnnotations : object FinalAnnotation.t;
  currentCommentIndex : Z
}.

Definition setCurrentCommentIndex (i : Z) (st : State) : State :=
  {| comments := comments st; totalComments := totalComments st;
     annotations := annotations st;
     finalAnnotations := finalAnnotations st;
     currentCommentIndex := i |}.

Definition hasDisagreement (annotations : list Annotation.t) : bool :=
  if (length annotations <? 2)%nat then false
  else
    let sentiment1 := Annotation.sentiment <$> annotations !! 0%nat in
    let sentiment2 := Annotation.sentiment <$> annotations !! 1%nat in
    let discourse1 :=
      Annotation.discourse_polarization <$> annotations !! 0%nat in
    let discourse2 :=
      Annotation.discourse_polarization <$> annotations !! 1%nat in
    negb (bool_decide (sentiment1 = sentiment2))
    || negb (bool_decide (discourse1 = discourse2)).

(** The two [findIndex] callbacks of the navigation effect. *)
Definition isOpenDisagreement (st : State) (comment : option Comment.t)
  : bool :=
  match comment with
  | None => false
  | Some comment =>
      let commentAnnotations :=
        default [] (get (annotations st) (Comment.id comment)) in
      let hasFinalAnnotation :=
        get (finalAnnotations st) (Comment.id comment) in
      let hasDisagreementResult := hasDisagreement commentAnnotations in
      (length commentAnnotations =? 2)%nat
      && negb (bool_decide (is_Some hasFinalAnnotation))
      && hasDisagreementResult
  end.

Definition isUnfinished (st : State) (comment : option Comment.t) : bool :=
  match comment with
  | None => false
  | Some comment =>
      let commentAnnotations :=
        default [] (get (annotations st) (Comment.id comment)) in
      (length commentAnnotations =? 2)%nat
      && negb (bool_decide
                 (is_Some (get (finalAnnotations st) (Comment.id comment))))
  end.

(** The index the effect passes to [setCurrentCommentIndex], if it calls
    it at all. *)
Definition target (st : State) : option Z :=
  if (0 <? totalComments st) && (0 <? length (keys (annotations st)))%nat
  then
    let firstDisagreementIndex :=
      findIndex (isOpenDisagreement st) (comments st) in
    if negb (firstDisagreementIndex =? -1) then Some firstDisagreementIndex
    else
      let firstUnfinishedIndex :=
        findIndex (isUnfinished st) (comments st) in
      if negb (firstUnfinishedIndex =? -1) then Some firstUnfinishedIndex
      else None
  else None.

(** The effect "navigate to first unadjudicated comment with
    disagreement". *)
Definition navigate (st : State) : State :=
  match target st with
  | Some i => setCurrentCommentIndex i st
  | None => st
  end.

(** *** Loading and navigation *)

Import Supabase.

Definition setComments (cs : list (option Comment.t)) (st : State) : State :=
  {| comments := cs; totalComments := totalComments st;
     annotations := annotations st;
     finalAnnotations := finalAnnotations st;
     currentCommentIndex := currentCommentIndex st |}.

Definition setTotalComments (n : Z) (st : State) : State :=
  {| comments := comments st; totalComments := n;
     annotations := annotations st;
     finalAnnotations := finalAnnotations st;
     currentCommentIndex := currentCommentIndex st |}.

Definition setAnnotations (o : object (list Annotation.t)) (st : State)
  : State :=
  {| comments := comments st; totalComments := totalComments st;
     annotations := o;
     finalAnnotations := finalAnnotations st;
     currentCommentIndex := currentCommentIndex st |}.

Definition setFinalAnnotations (o : object FinalAnnotation.t) (st : State)
  : State :=
  {| comments := comments st; totalComments := totalComments st;
     annotations := annotations st;
     finalAnnotations := o;
     currentCommentIndex := currentCommentIndex st |}.

(** The rest of the component state: the two selections of the form, the
    busy flag and the text of the jump box. *)
Record Form : Type := {
  finalSentiment : string;
  finalDiscoursePolarization : string;
  loading : bool;
  jumpToComment : string
}.

Definition setLoading (b : bool) (form : Form) : Form :=
  {| finalSentiment := finalSentiment form;
     finalDiscoursePolarization := finalDiscoursePolarization form;
     loading := b;
     jumpToComment := jumpToComment form |}.

Definition setJumpToComment (s : string) (form : Form) : Form :=
  {| finalSentiment := finalSentiment form;
     finalDiscoursePolarization := finalDiscoursePolarization form;
     loading := loading form;
     jumpToComment := s |}.

(** The updater passed to [setComments]: a copy of the array with
    [data[index]] written at [startIndex + index]. *)
Definition writeBatch (startIndex : Z) (data : list Comment.t)
  (prev : list (option Comment.t)) : list (option Comment.t) :=
  foldl (fun newComments '(index, comment) =>
           assign newComments (startIndex + Z.of_nat index) comment)
        prev (zip (seq 0 (length data)) data).

Definition loadCommentsBatch (db : Client) (startIndex batchSize : Z)
  (st : State) : State :=
  let response := range_comments db startIndex (startIndex + batchSize - 1) in
  if error response is Some _ then st
  else
    match data response with
    | Some data => setComments (writeBatch startIndex data (comments st)) st
    | None => st
    end.

Definition fetchInitialData (db : Client) (st : State) : State :=
  let count := count_comments db in
  loadCommentsBatch db 0 100 (setTotalComments (default 0 count) st).

(** The reducer of [fetchAnnotations]: [push] onto the array of the item,
    created empty when the item is seen first. *)
Definition collect (acc : object (list Annotation.t))
  (annotation : Annotation.t) : object (list Annotation.t) :=
  let acc :=
    if get acc (Annotation.comment_id annotation) is Some _ then acc
    else set acc (Annotation.comment_id annotation) [] in
  set acc (Annotation.comment_id annotation)
      (default [] (get acc (Annotation.comment_id annotation))
       ++ [annotation]).

Definition annotationsMap (data : list Annotation.t)
  : object (list Annotation.t) :=
  foldl collect [] data.

Definition fetchAnnotations (db : Client) (st : State) : State :=
  match data (select_annotations db) with
  | Some data => setAnnotations (annotationsMap data) st
  | None => st
  end.

Definition finalAnnotationsMap (data : list FinalAnnotation.t)
  : object FinalAnnotation.t :=
  foldl (fun acc finalAnnotation =>
           set acc (FinalAnnotation.comment_id finalAnnotation)
               finalAnnotation)
        [] data.

Definition fetchFinalAnnotations (db : Client) (st : State) : State :=
  match data (select_final_annotations db) with
  | Some data => setFinalAnnotations (finalAnnotationsMap data) st
  | None => st
  end.

Definition currentComment (st : State) : option Comment.t :=
  element (comments st) (currentCommentIndex st).

Definition currentFinalAnnotation (st : State) : option FinalAnnotation.t :=
  match currentComment st with
  | Some currentComment =>
      get (finalAnnotations st) (Comment.id currentComment)
  | None => None
  end.

(** [handleSubmit].  Nothing happens without a current item or with a
    selection missing.  Otherwise the decision is updated or inserted in
    the database and, unless that fails, stored under the id of the
    item in a copy of [finalAnnotations].  A rejected request is caught
    and logged.  [loading] ends [false]. *)
Definition handleSubmit (db : Client) (st : State) (form : Form)
  : State * Form :=
  match currentComment st with
  | None => (st, form)
  | Some currentComment =>
      if String.eqb (finalSentiment form) ""
         || String.eqb (finalDiscoursePolarization form) ""
      then (st, form)
      else
        let st' :=
          match currentFinalAnnotation st with
          | Some currentFinalAnnotation =>
              match update_final_annotation db
                      (FinalAnnotation.id currentFinalAnnotation)
                      (finalSentiment form)
                      (finalDiscoursePolarization form) with
              | Ok response =>
                  if error response is Some _ then st
                  else
                    setFinalAnnotations
                      (set (spread (finalAnnotations st))
                           (Comment.id currentComment)
                           {| FinalAnnotation.id :=
                                FinalAnnotation.id currentFinalAnnotation;
                              FinalAnnotation.comment_id :=
                                FinalAnnotation.comment_id
                                  currentFinalAnnotation;
                              FinalAnnotation.final_sentiment :=
                                finalSentiment form;
                              FinalAnnotation.final_discourse_polarization :=
                                finalDiscoursePolarization form;
                              FinalAnnotation.created_at :=
                                FinalAnnotation.created_at
                                  currentFinalAnnotation |})
                      st
              | Throw _ => st
              end
          | None =>
              match insert_final_annotation db
                      (Comment.id currentComment)
                      (finalSentiment form)
                      (finalDiscoursePolarization form) with
              | Ok response =>
                  match error response, data response with
                  | None, Some data =>
                      setFinalAnnotations
                        (set (spread (finalAnnotations st))
                             (Comment.id currentComment) data)
                        st
                  | _, _ => st
                  end
              | Throw _ => st
              end
          end in
        (st', setLoading false form)
  end.

(** [Math.floor(index / 100) * 100] on an integer [index]: [Z.div] rounds
    down. *)
Definition batchStartOf (index : Z) : Z := index / 100 * 100.

Definition goToNext (db : Client) (st : State) : State :=
  if currentCommentIndex st <? totalComments st - 1 then
    let nextIndex := currentCommentIndex st + 1 in
    let st' :=
      if element (comments st) nextIndex is Some _ then st
      else loadCommentsBatch db (batchStartOf nextIndex) 100 st in
    setCurrentCommentIndex nextIndex st'
  else st.

Definition goToPrevious (st : State) : State :=
  if 0 <? currentCommentIndex st
  then setCurrentCommentIndex (currentCommentIndex st - 1) st
  else st.

(** [handleJumpToComment], given what [parseInt] makes of the text of the
    jump box: an integer, or [NaN] ([None]). *)
Definition handleJumpToComment (parseInt : string -> option Z)
  (db : Client) (st : State) (form : Form) : State * Form :=
  match parseInt (jumpToComment form) with
  | Some commentNumber =>
      if negb (commentNumber =? 0) && (1 <=? commentNumber)
         && (commentNumber <=? totalComments st)
      then
        let targetIndex := commentNumber - 1 in
        let st' :=
          if element (comments st) targetIndex is Some _ then st
          else loadCommentsBatch db (batchStartOf targetIndex) 100 st in
        (setCurrentCommentIndex targetIndex st', setJumpToComment "" form)
      else (st, form)
  | None => (st, form)
  end.

Definition finalizedCount (st : State) : nat :=
  length (keys (finalAnnotations st)).

End AdjudicatorInterface.

(** ** The two number systems *)

(** Exact rational arithmetic. *)
Global Instance Q_Number : Number Q := {|
  of_nat n := inject_Z (Z.of_nat n);
  add := Qplus;
  sub := Qminus;
  mul := Qmult;
  div := Qdiv;
  eqb := Qeq_bool
|}.

(** IEEE-754 binary64, the JavaScript [number].  Counters stay far below
    [2^53], so their injection is exact. *)
Global Instance float_Number : Number float := {|
  of_nat n := PrimFloat.of_uint63 (Uint63.of_Z (Z.of_nat n));
  add := PrimFloat.add;
  sub := PrimFloat.sub;
  mul := PrimFloat.mul;
  div := PrimFloat.div;
  eqb := PrimFloat.eqb
|}.


(** The literals are the doubles nearest to the decimals. *)
#[warnings="-inexact-float"]
Global Instance float_Thresholds : Thresholds float := {|
  less := PrimFloat.ltb;
  lit_0 := 0%float;
  lit_0_20 := 0.20%float;
  lit_0_40 := 0.40%float;
  lit_0_60 := 0.60%float;
  lit_0_80 := 0.80%float
|}.

(** ** Vocabulary of the specification *)

Import KappaCalculator.

(** Number of indices [i < n] that satisfy [P]. *)
Definition countIf (P : nat -> bool) (n : nat) : nat :=
  length (List.filter P (seq 0 n)).

(** The two label dimensions and their fixed label order. *)
Inductive Dimension : Set := Sentiment | Discourse.

Definition labelsOf (d : Dimension) : list string :=
  match d with
  | Sentiment => sentimentLabels
  | Discourse => discourseLabels
  end.

(** Every element of the sequence belongs to the label set. *)
Definition within (labels seq : list string) : Prop :=
  Forall (fun x => x ∈ labels) seq.

(** Entry [M[r][c]], sum of all entries, sum of the entries of one row and
    of one column of a [k]-by-[k] matrix, written with index ranges rather
    than with the folds of the code. *)
Definition cell (M : list (list nat)) (r c : nat) : nat := (M !!! r) !!! c.

Definition sumOver (f : nat -> nat) (k : nat) : nat :=
  list_sum (map f (seq 0 k)).

Definition total (k : nat) (M : list (list nat)) : nat :=
  sumOver (fun r => sumOver (fun c => cell M r c) k) k.

Definition rowTotal (k : nat) (M : list (list nat)) (r : nat) : nat :=
  sumOver (fun c => cell M r c) k.

Definition columnTotal (k : nat) (M : list (list nat)) (c : nat) : nat :=
  sumOver (fun r => cell M r c) k.

(** The confusion counts after the first [m] pairs, indexed by the
    positions [indexOf] reports. *)
Definition tallied (labels a1 a2 : list string) (m r c : nat) : nat :=
  countIf (fun i => (indexOf labels (a1 !! i) =? Z.of_nat r)
                    && (indexOf labels (a2 !! i) =? Z.of_nat c)) m.

Definition talliedMatrix (labels a1 a2 : list string) (m : nat)
  : list (list nat) :=
  let k := length labels in
  map (fun r => map (fun c => tallied labels a1 a2 m r c) (seq 0 k)) (seq 0 k).

Definition talliedAgreements (labels a1 a2 : list string) (m : nat) : nat :=
  countIf (fun i => indexOf labels (a1 !! i) =? indexOf labels (a2 !! i)) m.

(** [p1[r]], [p2[c]] and [Σ_r p1[r] * p2[r]], the sum taken from index [0]
    upwards starting at [0]. *)
Definition rowMarginal {num : Type} `{Number num}
  (k : nat) (M : list (list nat)) (n r : nat) : num :=
  div (of_nat (rowTotal k M r)) (of_nat n).

Definition columnMarginal {num : Type} `{Number num}
  (k : nat) (M : list (list nat)) (n c : nat) : num :=
  div (of_nat (columnTotal k M c)) (of_nat n).

Definition sumProducts {num : Type} `{Number num}
  (p1 p2 : nat -> num) (k : nat) : num :=
  foldl (fun s r => add s (mul (p1 r) (p2 r))) (of_nat 0) (seq 0 k).

(** The last step of [calculateKappaForCategory]. *)
Definition kappaOf {num : Type} `{Number num} (Po Pe : num) : num :=
  if eqb Pe (of_nat 1) then of_nat 1
  else div (sub Po Pe) (sub (of_nat 1) Pe).

(** A counter as an exact rational. *)
Definition Qnat (n : nat) : Q := inject_Z (Z.of_nat n).

(** A matrix given entry by entry. *)
Definition tabulate (k : nat) (f : nat -> nat -> nat) : list (list nat) :=
  map (fun r => map (f r) (seq 0 k)) (seq 0 k).

(** A [k]-by-[k] matrix: [k] rows of [k] entries. *)
Definition square (k : nat) (M : list (list nat)) : Prop :=
  length M = k /\ Forall (fun row => length row = k) M.

(** Whether a label, if present, belongs to the label set. *)
Definition inSet (labels : list string) (x : option string) : bool :=
  match x with
  | Some y => bool_decide (y ∈ labels)
  | None => false
  end.

(** The judgments of one annotator on one item, in input order. *)
Definition judgments (annotations : list Annotation.t) (c : Z) (r : Role)
  : list Annotation.t :=
  List.filter
    (fun a => bool_decide (Annotation.comment_id a = c
                           /\ Annotation.annotator_role a = r))
    annotations.

(** At most one judgment per (item, annotator). *)
Definition atMostOne (annotations : list Annotation.t) : Prop :=
  forall c r, (length (judgments annotations c r) <= 1)%nat.

Definition latest (annotations : list Annotation.t) (c : Z) (r : Role)
  : option Annotation.t :=
  last (judgments annotations c r).

(** The item a pair speaks about, read off its first annotation. *)
Definition itemOf (pair : Pair) : option Z :=
  Annotation.comment_id <$> pair annotator1.

Definition complete (pair : Pair) : bool :=
  bool_decide (is_Some (pair annotator1))
  && bool_decide (is_Some (pair annotator2)).

(** What the grouping loop maintains: the object has one property per item
    seen so far, holding for each role the latest judgment of that role. *)
Definition grouped (annotations : list Annotation.t) (o : object Pair)
  : Prop :=
  NoDup o.*1
  /\ forall c,
       match get o c with
       | Some p =>
           (forall r, p r = latest annotations c r)
           /\ exists r, is_Some (latest annotations c r)
       | None => forall r, latest annotations c r = None
       end.

(** The complete properties of the grouping object, with their keys. *)
Definition completeEntries (annotations : list Annotation.t)
  : list (Z * Pair) :=
  List.filter (fun e => complete e.2)
              (entries (commentAnnotations annotations)).

(** What [calculateKappa] does from [setLoading(true)] on, once the four
    label sequences are known: both dimensions are scored, and the results
    stored unless one of the two calls throws. *)
Definition scoreSequences {num : Type} `{Number num} (st : State num)
  (s1 s2 d1 d2 : list string) : State num * outcome () :=
  match
    sentimentKappa ← calculateKappaForCategory s1 s2 sentimentLabels;
    discourseKappa ← calculateKappaForCategory d1 d2 discourseLabels;
    Ok (sentimentKappa, discourseKappa)
  with
  | Ok (sentimentKappa, discourseKappa) =>
      (setLoading false
         (setKappaResults
            {| sentiment :=
                 {| scores := sentimentKappa; labels := sentimentLabels |};
               discoursePolarization :=
                 {| scores := discourseKappa; labels := discourseLabels |} |}
            (setLoading true st)),
       Ok ())
  | Throw e => (setLoading true st, Throw e)
  end.

Module Adj := AdjudicatorInterface.

(** The per-item states of the adjudication queue.  An item with a final
    decision is [FINALIZED]; otherwise an item with exactly two judgments is
    [COMPLETE_DISAGREE] or [COMPLETE_AGREE] according to whether the two
    differ on sentiment or on discourse; any other item is not complete. *)
Inductive QueueState : Set :=
  INCOMPLETE | COMPLETE_AGREE | COMPLETE_DISAGREE | FINALIZED.

Definition differ (a b : Annotation.t) : Prop :=
  Annotation.sentiment a <> Annotation.sentiment b
  \/ Annotation.discourse_polarization a <> Annotation.discourse_polarization b.

Global Instance differ_dec a b : Decision (differ a b).
Proof. unfold differ. apply _. Defined.

Definition stateOf (st : Adj.State) (c : Comment.t) : QueueState :=
  match get (Adj.finalAnnotations st) (Comment.id c),
        default [] (get (Adj.annotations st) (Comment.id c)) with
  | Some _, _ => FINALIZED
  | None, [a; b] =>
      if decide (differ a b) then COMPLETE_DISAGREE else COMPLETE_AGREE
  | None, _ => INCOMPLETE
  end.

(** Index [i] holds a loaded item in queue state [s]. *)
Definition inState (st : Adj.State) (s : QueueState) (i : nat) : Prop :=
  exists c, Adj.comments st !! i = Some (Some c) /\ stateOf st c = s.

(** [i] is the lowest index with property [P]. *)
Definition lowest (P : nat -> Prop) (i : nat) : Prop :=
  P i /\ forall j, (j < i)%nat -> ~ P j.

(** ** Vocabulary for the further properties *)

(** Two objects with the same keys in the same order and related values. *)
Definition linked {V1 V2} (P : V1 -> V2 -> Prop)
  (o1 : object V1) (o2 : object V2) : Prop :=
  Forall2 (fun e1 e2 => e1.1 = e2.1 /\ P e1.2 e2.2) o1 o2.

(** A role set and a pair that hold the same roles. *)
Definition sameRoles (annotators : RoleSet) (pair : Pair) : Prop :=
  NoDup annotators /\ forall r, r ∈ annotators <-> is_Some (pair r).


(** Every judgment carries labels of the two fixed sets. *)
Definition validLabels (annotations : list Annotation.t) : Prop :=
  Forall (fun a => Annotation.sentiment a ∈ sentimentLabels
                   /\ Annotation.discourse_polarization a ∈ discourseLabels)
         annotations.

(** The second result is the first with the two annotators exchanged: the
    same three statistics and the transposed matrix. *)
Definition mirrored {num : Type} (k : nat) (out out' : KappaOut num) : Prop :=
  observedAgreement out' = observedAgreement out
  /\ expectedAgreement out' = expectedAgreement out
  /\ kappa out' = kappa out
  /\ forall r c, (r < k)%nat -> (c < k)%nat ->
       cell (matrix out') r c = cell (matrix out) c r.

(** Scoring [seq1] against [seq2] and [seq2] against [seq1] both return,
    with mirrored results. *)
Definition symmetric (num : Type) `{Number num}
  (labels seq1 seq2 : list string) : Prop :=
  exists out out' : KappaOut num,
    calculateKappaForCategory seq1 seq2 labels = Ok out
    /\ calculateKappaForCategory seq2 seq1 labels = Ok out'
    /\ mirrored (length labels) out out'.

(** All judgments of one item, and all final decisions of one item, in
    the order of the data. *)
Definition judgmentsOf (data : list Annotation.t) (c : Z)
  : list Annotation.t :=
  List.filter (fun a => bool_decide (Annotation.comment_id a = c)) data.

Definition decisionsOf (data : list FinalAnnotation.t) (c : Z)
  : list FinalAnnotation.t :=
  List.filter (fun f => bool_decide (FinalAnnotation.comment_id f = c)) data.

(** The service answers range queries from the table [rows], sorted by
    [id]: rows [from] to [to], both included, as far as they exist. *)
Definition serves (db : Supabase.Client) (rows : list Comment.t) : Prop :=
  forall from to,
    0 <= from ->
    Supabase.range_comments db from to
    = {| Supabase.data :=
           Some (take (Z.to_nat (to - from + 1)) (drop (Z.to_nat from) rows));
         Supabase.error := None |}.

(** The loaded part of [comments] agrees with the table, position by
    position, and [totalComments] is its size. *)
Definition synced (rows : list Comment.t) (st : Adj.State) : Prop :=
  Adj.totalComments st = Z.of_nat (length rows)
  /\ (length (Adj.comments st) <= length rows)%nat
  /\ forall i c, Adj.comments st !! i = Some (Some c) -> rows !! i = Some c.

(** The current index is [0] or that of an item of the table. *)
Definition inRange (st : Adj.State) : Prop :=
  0 <= Adj.currentCommentIndex st
  /\ (Adj.currentCommentIndex st < Adj.totalComments st
      \/ Adj.currentCommentIndex st = 0).

(** A client whose range queries are answered from [rows] and whose other
    queries carry nothing. *)
Definition tableClient (rows : list Comment.t) : Supabase.Client :=
  {| Supabase.count_comments := Some (Z.of_nat (length rows));
     Supabase.range_comments := fun from to =>
       {| Supabase.data :=
            Some (take (Z.to_nat (to - from + 1))
                       (drop (Z.to_nat from) rows));
          Supabase.error := None |};
     Supabase.select_annotations :=
       {| Supabase.data := None; Supabase.error := None |};
     Supabase.select_final_annotations :=
       {| Supabase.data := None; Supabase.error := None |};
     Supabase.update_final_annotation := fun _ _ _ => Throw TypeError;
     Supabase.insert_final_annotation := fun _ _ _ => Throw TypeError |}.

Definition sampleComment (i : Z) : Comment.t :=
  {| Comment.id := i; Comment.unique_comment_id := "u";
     Comment.context_title := "t"; Comment.text := "x";
     Comment.likes := 0; Comment.post_url := None;
     Comment.created_at := "2024-01-01" |}.

(** The state of a freshly mounted [AdjudicatorInterface]. *)
Definition initialState : Adj.State :=
  {| Adj.comments := []; Adj.totalComments := 0; Adj.annotations := [];
     Adj.finalAnnotations := []; Adj.currentCommentIndex := 0 |}.

(** The write that [handleSubmit] issues for the current item [c] goes
    through: the update reports no error, or the insert reports no error
    and returns the stored row. *)
Definition accepted (db : Supabase.Client) (st : Adj.State)
  (form : Adj.Form) (c : Comment.t) : Prop :=
  match get (Adj.finalAnnotations st) (Comment.id c) with
  | Some f =>
      exists response,
        Supabase.update_final_annotation db (FinalAnnotation.id f)
          (Adj.finalSentiment form) (Adj.finalDiscoursePolarization form)
        = Ok response
        /\ Supabase.error response = None
  | None =>
      exists response row,
        Supabase.insert_final_annotation db (Comment.id c)
          (Adj.finalSentiment form) (Adj.finalDiscoursePolarization form)
        = Ok response
        /\ Supabase.error response = None
        /\ Supabase.data response = Some row
  end.

(** The final decision [handleSubmit] stores for item [c]: the one already
    there with the labels of the form, or the row the insert returned. *)
Definition storedDecision (db : Supabase.Client) (st : Adj.State)
  (form : Adj.Form) (c : Comment.t) : option FinalAnnotation.t :=
  match get (Adj.finalAnnotations st) (Comment.id c) with
  | Some f =>
      Some {| FinalAnnotation.id := FinalAnnotation.id f;
              FinalAnnotation.comment_id := FinalAnnotation.comment_id f;
              FinalAnnotation.final_sentiment := Adj.finalSentiment form;
              FinalAnnotation.final_discourse_polarization :=
                Adj.finalDiscoursePolarization form;
              FinalAnnotation.created_at := FinalAnnotation.created_at f |}
  | None =>
      match Supabase.insert_final_annotation db (Comment.id c)
              (Adj.finalSentiment form)
              (Adj.finalDiscoursePolarization form) with
      | Ok response => Supabase.data response
      | Throw _ => None
      end
  end.

(** * Proofs *)

(** ** Facts about the runtime fragments *)

Lemma foldM_app {S A} (body : S -> A -> outcome S) (l1 l2 : list A) (s : S) :
  foldM body (l1 ++ l2) s = Js.bind (foldM body l1 s) (foldM body l2).
Proof.
  revert s. induction l1 as [|x l1 IH]; intros s; simpl; [done|].
  destruct (body s x); simpl; auto.
Qed.

Lemma indexOf_from_range l x i :
  indexOf_from l x i = -1 \/ i <= indexOf_from l x i < i + Z.of_nat (length l).
Proof.
  revert i. induction l as [|y l IH]; intros i; simpl; [by left|].
  destruct (String.eqb y x); [right; lia|].
  destruct (IH (i + 1)) as [->|?]; [by left|right; lia].
Qed.

Lemma indexOf_range l x :
  -1 <= indexOf l x < Z.of_nat (length l).
Proof.
  destruct x as [s|]; simpl; [|lia].
  destruct (indexOf_from_range l s 0); lia.
Qed.

Lemma indexOf_from_lookup l x i j :
  0 <= i ->
  indexOf_from l x i = i + Z.of_nat j -> l !! j = Some x.
Proof.
  revert i j. induction l as [|y l IH]; intros i j Hi; simpl.
  - lia.
  - destruct (String.eqb_spec y x) as [->|Hne].
    + intros ?. assert (j = 0%nat) as -> by lia. done.
    + intros Hj. destruct j as [|j].
      * destruct (indexOf_from_range l x (i + 1)); lia.
      * simpl. apply (IH (i + 1)); lia.
Qed.

Lemma indexOf_from_absent l x i :
  0 <= i -> indexOf_from l x i = -1 <-> x ∉ l.
Proof.
  revert i. induction l as [|y l IH]; intros i Hi; simpl.
  - split; [intros _; apply not_elem_of_nil|done].
  - rewrite not_elem_of_cons.
    destruct (String.eqb_spec y x) as [->|Hne].
    + split; [lia|intros [? _]; done].
    + rewrite IH by lia. split; [by split|by intros [_ ?]].
Qed.

Lemma indexOf_from_first l x i j :
  NoDup l -> l !! j = Some x -> indexOf_from l x i = i + Z.of_nat j.
Proof.
  intros Hnd. revert i j.
  induction l as [|y l IH]; intros i j; [done|].
  apply NoDup_cons in Hnd as [Hy Hnd]. simpl.
  destruct j as [|j]; simpl.
  - intros [= ->]. rewrite String.eqb_refl. lia.
  - intros Hj. destruct (String.eqb_spec y x) as [->|Hne].
    + exfalso. apply Hy. by eapply list_elem_of_lookup_2.
    + rewrite (IH Hnd (i + 1) j Hj). lia.
Qed.

(** On a duplicate-free label list [indexOf] is exactly "position of". *)
Lemma indexOf_position labels (x : option string) (r : nat) :
  NoDup labels -> (r < length labels)%nat ->
  indexOf labels x = Z.of_nat r <-> x = labels !! r.
Proof.
  intros Hnd Hr. destruct x as [s|]; simpl.
  - split.
    + intros Hi. symmetry. apply (indexOf_from_lookup labels s 0 r); lia.
    + intros Hs. rewrite (indexOf_from_first labels s 0 r); auto; lia.
  - split; [lia|]. intros Hs.
    apply lookup_lt_is_Some_2 in Hr. destruct Hr; congruence.
Qed.

Lemma indexOf_within labels (x : string) :
  x ∈ labels -> 0 <= indexOf labels (Some x) < Z.of_nat (length labels).
Proof.
  intros Hx. pose proof (indexOf_range labels (Some x)).
  assert (indexOf labels (Some x) <> -1); [|lia].
  simpl. rewrite indexOf_from_absent by lia. auto.
Qed.

Lemma countIf_S P n :
  countIf P (S n) = (countIf P n + (if P n then 1 else 0))%nat.
Proof.
  unfold countIf. rewrite seq_S, List.filter_app, length_app. simpl.
  by destruct (P n).
Qed.

Lemma countIf_ext P Q n :
  (forall i, (i < n)%nat -> P i = Q i) -> countIf P n = countIf Q n.
Proof.
  induction n as [|n IH]; intros HPQ; [done|].
  rewrite !countIf_S, IH by (intros; apply HPQ; lia).
  by rewrite HPQ by lia.
Qed.

Lemma countIf_le P n : (countIf P n <= n)%nat.
Proof.
  induction n as [|n IH]; [done|]. rewrite countIf_S. destruct (P n); lia.
Qed.

(** ** The counting loop *)

Lemma tabulate_lookup k f r :
  (r < k)%nat -> tabulate k f !! r = Some (map (f r) (seq 0 k)).
Proof.
  intros Hr. unfold tabulate.
  rewrite list_lookup_fmap, (lookup_seq_lt 0 k r Hr). done.
Qed.

Lemma tabulate_cell k f r c :
  (r < k)%nat -> (c < k)%nat -> cell (tabulate k f) r c = f r c.
Proof.
  intros Hr Hc. unfold cell.
  rewrite (list_lookup_total_correct _ _ _ (tabulate_lookup k f r Hr)).
  apply list_lookup_total_correct.
  rewrite list_lookup_fmap, (lookup_seq_lt 0 k c Hc). done.
Qed.

Lemma tabulate_ext k f g :
  (forall r c, (r < k)%nat -> (c < k)%nat -> f r c = g r c) ->
  tabulate k f = tabulate k g.
Proof.
  intros Hfg. unfold tabulate.
  apply map_ext_in. intros r [_ Hr]%in_seq.
  apply map_ext_in. intros c [_ Hc]%in_seq. apply Hfg; lia.
Qed.

Lemma tabulate_bump k f r0 c0 :
  (r0 < k)%nat -> (c0 < k)%nat ->
  <[r0 := <[c0 := S (f r0 c0)]> (map (f r0) (seq 0 k))]> (tabulate k f)
  = tabulate k (fun r c =>
      if bool_decide (r = r0 /\ c = c0) then S (f r c) else f r c).
Proof.
  intros Hr0 Hc0. apply list_eq. intros r.
  destruct (decide (r < k)%nat) as [Hr|Hr].
  - rewrite (tabulate_lookup _ _ r Hr).
    destruct (decide (r = r0)) as [->|Hne].
    + rewrite list_lookup_insert_eq
        by (unfold tabulate; rewrite length_map, length_seq; lia).
      f_equal. apply list_eq. intros c.
      destruct (decide (c < k)%nat) as [Hc|Hc].
      * rewrite (list_lookup_fmap _ (seq 0 k) c), (lookup_seq_lt 0 k c Hc).
        simpl. destruct (decide (c = c0)) as [->|Hnc].
        -- rewrite list_lookup_insert_eq
             by (rewrite length_map, length_seq; lia).
           by rewrite bool_decide_eq_true_2.
        -- rewrite list_lookup_insert_ne by done.
           rewrite list_lookup_fmap, (lookup_seq_lt 0 k c Hc). simpl.
           rewrite bool_decide_eq_false_2; [done|]. intros [_ ?]; done.
      * rewrite !lookup_ge_None_2;
          rewrite ?length_insert, ?length_map, ?length_seq; auto; lia.
    + rewrite list_lookup_insert_ne by done.
      rewrite (tabulate_lookup _ _ r Hr). f_equal.
      apply map_ext. intros c.
      rewrite bool_decide_eq_false_2; [done|]. intros [? _]; done.
  - rewrite !lookup_ge_None_2; unfold tabulate;
      rewrite ?length_insert, ?length_map, ?length_seq; auto; lia.
Qed.

Lemma map_const {A B} (f : A -> B) (b : B) (l : list A) :
  (forall x, f x = b) -> map f l = replicate (length l) b.
Proof.
  intros Hf. induction l as [|x l IH]; simpl; [done|]. by rewrite Hf, IH.
Qed.

Lemma tabulate_zero k f :
  (forall r c, f r c = 0%nat) ->
  tabulate k f = replicate k (replicate k 0%nat).
Proof.
  intros Hf. unfold tabulate.
  rewrite (map_const _ (replicate k 0%nat)), length_seq; [done|].
  intros r. rewrite (map_const _ 0%nat), length_seq; [done|]. apply Hf.
Qed.

Lemma talliedMatrix_tabulate labels a1 a2 m :
  talliedMatrix labels a1 a2 m
  = tabulate (length labels) (tallied labels a1 a2 m).
Proof. reflexivity. Qed.

Lemma tallied_S labels a1 a2 m r c :
  tallied labels a1 a2 (S m) r c
  = (tallied labels a1 a2 m r c
     + if ((indexOf labels (a1 !! m) =? Z.of_nat r)
           && (indexOf labels (a2 !! m) =? Z.of_nat c))%Z then 1 else 0)%nat.
Proof. unfold tallied. by rewrite countIf_S. Qed.

(** One iteration, started from the counts of the first [m] pairs, ends in
    the counts of the first [m + 1] pairs, provided annotator1's label is in
    the set. *)
Lemma tally_step labels a1 a2 m :
  0 <= indexOf labels (a1 !! m) ->
  tally a1 a2 labels
    (talliedMatrix labels a1 a2 m, talliedAgreements labels a1 a2 m) m
  = Ok (talliedMatrix labels a1 a2 (S m),
        talliedAgreements labels a1 a2 (S m)).
Proof.
  intros H1. unfold tally.
  set (idx1 := indexOf labels (a1 !! m)) in *.
  set (idx2 := indexOf labels (a2 !! m)).
  pose proof (indexOf_range labels (a1 !! m)) as R1.
  pose proof (indexOf_range labels (a2 !! m)) as R2.
  fold idx1 in R1. fold idx2 in R2.
  set (k := length labels) in *.
  assert (talliedAgreements labels a1 a2 (S m)
          = if idx1 =? idx2 then S (talliedAgreements labels a1 a2 m)
            else talliedAgreements labels a1 a2 m) as ->.
  { unfold talliedAgreements. rewrite countIf_S. fold idx1 idx2.
    destruct (idx1 =? idx2); lia. }
  assert (increment (talliedMatrix labels a1 a2 m) idx1 idx2
          = Ok (talliedMatrix labels a1 a2 (S m))) as ->; [|done].
  unfold increment, item.
  destruct (Z.ltb_spec idx1 0) as [?|_]; [lia|].
  rewrite !talliedMatrix_tabulate. fold k.
  rewrite tabulate_lookup by lia.
  destruct (Z.ltb_spec idx2 0) as [Hneg|Hpos].
  - f_equal. apply tabulate_ext. intros r c _ _.
    rewrite tallied_S. fold idx1 idx2.
    destruct (Z.eqb_spec idx2 (Z.of_nat c)); [lia|].
    rewrite andb_false_r. lia.
  - rewrite list_lookup_fmap, (lookup_seq_lt 0 k (Z.to_nat idx2)) by lia.
    simpl. rewrite tabulate_bump by lia. f_equal.
    apply tabulate_ext. intros r c _ _.
    rewrite tallied_S. fold idx1 idx2.
    destruct (Z.eqb_spec idx1 (Z.of_nat r)), (Z.eqb_spec idx2 (Z.of_nat c));
      simpl; case_bool_decide; lia.
Qed.

(** The loop over the first [m] indices computes the counts, whenever
    annotator1's labels are all found. *)
Lemma loop_tallied labels a1 a2 m :
  (forall i, (i < m)%nat -> 0 <= indexOf labels (a1 !! i)) ->
  foldM (tally a1 a2 labels) (seq 0 m)
    (replicate (length labels) (replicate (length labels) 0%nat), 0%nat)
  = Ok (talliedMatrix labels a1 a2 m, talliedAgreements labels a1 a2 m).
Proof.
  induction m as [|m IH]; intros Hin.
  - simpl. rewrite talliedMatrix_tabulate, tabulate_zero; done.
  - rewrite seq_S, foldM_app, IH by (intros; apply Hin; lia).
    change (0 + m)%nat with m. cbn [Js.bind foldM].
    rewrite tally_step by (apply Hin; lia). done.
Qed.

(** Conversely the loop throws as soon as one of annotator1's labels is
    not found. *)
Lemma loop_ok_found labels a1 a2 m st st' :
  foldM (tally a1 a2 labels) (seq 0 m) st = Ok st' ->
  forall i, (i < m)%nat -> 0 <= indexOf labels (a1 !! i).
Proof.
  revert st'. induction m as [|m IH]; intros st' Hrun i Hi; [lia|].
  rewrite seq_S, foldM_app in Hrun. simpl in Hrun.
  destruct (foldM (tally a1 a2 labels) (seq 0 m) st) as [[M obs]|e] eqn:Hm;
    simpl in Hrun; [|done].
  destruct (decide (i = m)) as [->|Hne]; [|eapply IH; eauto; lia].
  unfold tally, increment, item in Hrun.
  destruct (Z.ltb_spec (indexOf labels (a1 !! m)) 0); [done|lia].
Qed.

(** ** Sums of counts *)

Lemma sumOver_S f k : sumOver f (S k) = (sumOver f k + f k)%nat.
Proof.
  unfold sumOver. rewrite seq_S, map_app, list_sum_app. simpl. lia.
Qed.

Lemma sumOver_ext f g k :
  (forall r, (r < k)%nat -> f r = g r) -> sumOver f k = sumOver g k.
Proof.
  induction k as [|k IH]; intros Hfg; [done|].
  rewrite !sumOver_S, IH, Hfg by (intros; try apply Hfg; lia). done.
Qed.

Lemma sumOver_add f g k :
  sumOver (fun r => (f r + g r)%nat) k = (sumOver f k + sumOver g k)%nat.
Proof.
  induction k as [|k IH]; [done|]. rewrite !sumOver_S, IH. lia.
Qed.

Lemma sumOver_zero k : sumOver (fun _ => 0%nat) k = 0%nat.
Proof. induction k as [|k IH]; [done|]. rewrite sumOver_S, IH. done. Qed.

(** Exactly one index of [[0, k)] equals a given in-range integer. *)
Lemma sumOver_hit (z : Z) k :
  sumOver (fun c => if z =? Z.of_nat c then 1%nat else 0%nat) k
  = if (0 <=? z) && (z <? Z.of_nat k) then 1%nat else 0%nat.
Proof.
  induction k as [|k IH].
  - change (Z.of_nat 0) with 0.
    destruct (Z.leb_spec 0 z), (Z.ltb_spec z 0); cbn; lia.
  - rewrite sumOver_S, IH.
    destruct (Z.eqb_spec z (Z.of_nat k)), (Z.leb_spec 0 z),
      (Z.ltb_spec z (Z.of_nat k)), (Z.ltb_spec z (Z.of_nat (S k)));
      cbn [andb]; lia.
Qed.

(** Splitting a count by the value of an integer key. *)
Lemma sumOver_countIf (P : nat -> bool) (g : nat -> Z) k m :
  sumOver (fun c => countIf (fun i => P i && (g i =? Z.of_nat c)) m) k
  = countIf (fun i => P i && ((0 <=? g i) && (g i <? Z.of_nat k))) m.
Proof.
  induction m as [|m IH].
  - unfold countIf. simpl. apply sumOver_zero.
  - rewrite countIf_S, <- IH, <- (sumOver_ext
      (fun c => (countIf (fun i => P i && (g i =? Z.of_nat c)%Z) m
                 + (if P m then if (g m =? Z.of_nat c)%Z then 1 else 0
                    else 0))%nat)).
    + rewrite sumOver_add. f_equal.
      destruct (P m); simpl; [apply sumOver_hit|apply sumOver_zero].
    + intros c _. rewrite countIf_S. by destruct (P m), (g m =? Z.of_nat c).
Qed.

Section Totals.
Variables labels a1 a2 : list string.

Let k := length labels.
Let idx1 (i : nat) : Z := indexOf labels (a1 !! i).
Let idx2 (i : nat) : Z := indexOf labels (a2 !! i).

Lemma tallied_cell m r c :
  (r < k)%nat -> (c < k)%nat ->
  cell (talliedMatrix labels a1 a2 m) r c = tallied labels a1 a2 m r c.
Proof. intros. rewrite talliedMatrix_tabulate. by apply tabulate_cell. Qed.

Lemma tallied_rowTotal m r :
  (r < k)%nat ->
  rowTotal k (talliedMatrix labels a1 a2 m) r
  = countIf (fun i => (idx1 i =? Z.of_nat r) && (0 <=? idx2 i)) m.
Proof.
  intros Hr. unfold rowTotal.
  rewrite (sumOver_ext _ (tallied labels a1 a2 m r))
    by (intros; by apply tallied_cell).
  unfold tallied. rewrite sumOver_countIf. apply countIf_ext. intros i _.
  fold (idx2 i). pose proof (indexOf_range labels (a2 !! i)).
  destruct (Z.ltb_spec (idx2 i) (Z.of_nat k)); [|unfold idx2, k in *; lia].
  by rewrite andb_true_r.
Qed.

Lemma tallied_columnTotal m c :
  (c < k)%nat ->
  columnTotal k (talliedMatrix labels a1 a2 m) c
  = countIf (fun i => (0 <=? idx1 i) && (idx2 i =? Z.of_nat c)) m.
Proof.
  intros Hc. unfold columnTotal.
  rewrite (sumOver_ext _ (fun r => tallied labels a1 a2 m r c))
    by (intros; by apply tallied_cell).
  unfold tallied.
  rewrite (sumOver_ext _ (fun r => countIf
    (fun i => (idx2 i =? Z.of_nat c) && (idx1 i =? Z.of_nat r)) m)).
  2:{ intros r _. apply countIf_ext. intros i _. apply andb_comm. }
  rewrite sumOver_countIf. apply countIf_ext. intros i _.
  pose proof (indexOf_range labels (a1 !! i)).
  destruct (Z.ltb_spec (idx1 i) (Z.of_nat k)); [|unfold idx1, k in *; lia].
  rewrite andb_true_r. apply andb_comm.
Qed.

Lemma tallied_total m :
  total k (talliedMatrix labels a1 a2 m)
  = countIf (fun i => (0 <=? idx1 i) && (0 <=? idx2 i)) m.
Proof.
  unfold total.
  rewrite (sumOver_ext _ (fun r => countIf
    (fun i => (0 <=? idx2 i) && (idx1 i =? Z.of_nat r)) m)).
  2:{ intros r Hr. fold (rowTotal k (talliedMatrix labels a1 a2 m) r).
      rewrite tallied_rowTotal by done.
      apply countIf_ext. intros i _. apply andb_comm. }
  rewrite sumOver_countIf. apply countIf_ext. intros i _.
  pose proof (indexOf_range labels (a1 !! i)).
  destruct (Z.ltb_spec (idx1 i) (Z.of_nat k)); [|unfold idx1, k in *; lia].
  rewrite andb_true_r. apply andb_comm.
Qed.

Lemma total_by_rows M :
  total k M = sumOver (rowTotal k M) k.
Proof. reflexivity. Qed.

End Totals.

Lemma countIf_true P n :
  (forall i, (i < n)%nat -> P i = true) -> countIf P n = n.
Proof.
  induction n as [|n IH]; intros HP; [done|].
  rewrite countIf_S, IH, HP by (intros; try apply HP; lia). lia.
Qed.

Lemma countIf_false P n :
  (forall i, (i < n)%nat -> P i = false) -> countIf P n = 0%nat.
Proof.
  induction n as [|n IH]; intros HP; [done|].
  rewrite countIf_S, IH, HP by (intros; try apply HP; lia). lia.
Qed.

(** Lookups in sequences that stay within the label set. *)
Lemma within_lookup labels seq i :
  within labels seq -> (i < length seq)%nat ->
  exists x, seq !! i = Some x /\ x ∈ labels.
Proof.
  intros Hw Hi. destruct (lookup_lt_is_Some_2 seq i Hi) as [x Hx].
  exists x. split; [done|].
  eapply Forall_lookup_1 in Hw; eauto.
Qed.

Lemma within_found labels seq i :
  within labels seq -> (i < length seq)%nat ->
  0 <= indexOf labels (seq !! i).
Proof.
  intros Hw Hi. destruct (within_lookup _ _ _ Hw Hi) as (x & -> & Hx).
  apply indexOf_within, Hx.
Qed.

(** ** The folds of the code against index-range sums *)

Lemma foldl_add_list_sum (l : list nat) (a : nat) :
  foldl Nat.add a l = (a + list_sum l)%nat.
Proof.
  revert a. induction l as [|x l IH]; intros a; simpl; [lia|].
  rewrite IH. lia.
Qed.

Lemma foldl_ext_in {A B} (f g : A -> B -> A) (l : list B) (a : A) :
  (forall s x, x ∈ l -> f s x = g s x) -> foldl f a l = foldl g a l.
Proof.
  revert a. induction l as [|x l IH]; intros a Hfg; simpl; [done|].
  rewrite Hfg by left. apply IH. intros. apply Hfg. by right.
Qed.

Lemma map_lookup_total_seq {A} `{Inhabited A} (l : list A) :
  map (fun i => l !!! i) (seq 0 (length l)) = l.
Proof.
  apply list_eq. intros i. rewrite list_lookup_fmap.
  destruct (decide (i < length l)%nat) as [Hi|Hi].
  - rewrite (lookup_seq_lt 0 _ i Hi). simpl.
    destruct (lookup_lt_is_Some_2 l i Hi) as [x Hx].
    by rewrite (list_lookup_total_correct _ _ _ Hx).
  - rewrite (lookup_ge_None_2 l) by lia.
    rewrite lookup_ge_None_2 by (rewrite length_seq; lia). done.
Qed.

Lemma rowSum_sumOver (row : list nat) :
  rowSum row = sumOver (fun c => row !!! c) (length row).
Proof.
  unfold rowSum, sumOver. rewrite foldl_add_list_sum.
  by rewrite map_lookup_total_seq.
Qed.

Lemma columnSum_sumOver (M : list (list nat)) (c : nat) :
  columnSum M c = sumOver (fun r => cell M r c) (length M).
Proof.
  unfold columnSum, sumOver, cell.
  rewrite <- (map_lookup_total_seq M) at 1.
  generalize (seq 0 (length M)). intros l.
  assert (forall a, foldl (fun sum row => (sum + row !!! c)%nat) a
                      (map (fun i => M !!! i) l)
                    = (a + list_sum (map (fun r => (M !!! r) !!! c) l))%nat)
    as Hgen; [|apply (Hgen 0%nat)].
  induction l as [|r l IH]; intros a; simpl; [lia|]. rewrite IH. lia.
Qed.

Lemma tabulate_square k f : square k (tabulate k f).
Proof.
  split; unfold tabulate.
  - by rewrite length_map, length_seq.
  - apply Forall_forall. intros row Hrow.
    apply list_elem_of_fmap in Hrow as (r & -> & _).
    by rewrite length_map, length_seq.
Qed.

Lemma square_rowSum k M r :
  square k M -> (r < k)%nat -> rowSum (M !!! r) = rowTotal k M r.
Proof.
  intros [HM Hrows] Hr. rewrite rowSum_sumOver. unfold rowTotal, cell.
  f_equal. rewrite <- HM in Hr.
  destruct (lookup_lt_is_Some_2 M r Hr) as [row Hrow].
  rewrite (list_lookup_total_correct _ _ _ Hrow).
  eapply Forall_lookup_1 in Hrows; eauto.
Qed.

Lemma square_columnSum k M c :
  square k M -> columnSum M c = columnTotal k M c.
Proof. intros [HM _]. rewrite columnSum_sumOver, HM. done. Qed.

(** ** [calculateKappaForCategory] in closed form *)

Section ClosedForm.
Context {num : Type} `{Number num}.

Lemma foldl_zip_map {A B} (f : A -> B) (g : num -> A -> B -> num)
  (l : list A) (z : num) :
  foldl (fun s '(x, y) => g s x y) z (zip l (map f l))
  = foldl (fun s x => g s x (f x)) z l.
Proof.
  revert z. induction l as [|x l IH]; intros z; simpl; [done|]. apply IH.
Qed.

Lemma calculate_closed_form a1 a2 labels :
  (forall i, (i < length a1)%nat -> 0 <= indexOf labels (a1 !! i)) ->
  exists out,
    calculateKappaForCategory a1 a2 labels = Ok out
    /\ matrix out = talliedMatrix labels a1 a2 (length a1)
    /\ observedAgreement out
       = div (of_nat (talliedAgreements labels a1 a2 (length a1)))
             (of_nat (length a1))
    /\ expectedAgreement out
       = sumProducts
           (rowMarginal (length labels) (matrix out) (length a1))
           (columnMarginal (length labels) (matrix out) (length a1))
           (length labels)
    /\ kappa out = kappaOf (observedAgreement out) (expectedAgreement out).
Proof.
  intros Hfound. unfold calculateKappaForCategory.
  rewrite (loop_tallied labels a1 a2 (length a1) Hfound).
  cbn [mbind outcome_bind Js.bind].
  eexists. split; [reflexivity|].
  cbn [matrix observedAgreement expectedAgreement kappa].
  split; [done|]. split; [done|]. split; [|done].
  set (k := length labels). set (n := length a1).
  set (M := talliedMatrix labels a1 a2 n).
  assert (square k M) as Hsq by apply tabulate_square.
  rewrite (foldl_zip_map _ (fun s idx p1 => add s (mul p1 _))).
  unfold sumProducts. apply foldl_ext_in. intros s r Hr.
  apply elem_of_seq in Hr as [_ Hr]. simpl in Hr.
  f_equal. unfold rowMarginal, columnMarginal. f_equal.
  - by rewrite (square_rowSum k M r Hsq Hr).
  - erewrite list_lookup_total_correct;
      [|rewrite list_lookup_fmap, (lookup_seq_lt 0 k r Hr); reflexivity].
    change (0 + r)%nat with r. by rewrite (square_columnSum k M r Hsq).
Qed.

(** The call throws exactly when one of annotator1's labels is not in the
    label list. *)
Lemma calculate_throws a1 a2 labels i :
  (i < length a1)%nat -> indexOf labels (a1 !! i) = -1 ->
  calculateKappaForCategory a1 a2 labels = Throw TypeError.
Proof.
  intros Hi Hmiss. unfold calculateKappaForCategory.
  destruct (foldM _ _ _) as [st'|[]] eqn:Hrun; [|done].
  pose proof (loop_ok_found _ _ _ _ _ _ Hrun i Hi). lia.
Qed.

End ClosedForm.

(** ** Exact arithmetic *)

Section Exact.
Open Scope Q_scope.

Lemma Qnat_pos n : (0 < n)%nat -> 0 < Qnat n.
Proof.
  intros Hn. unfold Qnat. change 0 with (inject_Z 0).
  rewrite <- Zlt_Qlt. lia.
Qed.

Lemma Qnat_nonzero n : (0 < n)%nat -> ~ Qnat n == 0.
Proof.
  intros Hn E. apply Qnat_pos in Hn. rewrite E in Hn.
  by apply Qlt_irrefl in Hn.
Qed.

Lemma Qnat_le m n : (m <= n)%nat -> Qnat m <= Qnat n.
Proof. intros Hmn. unfold Qnat. rewrite <- Zle_Qle. lia. Qed.

Lemma Qnat_add m n : Qnat (m + n) == Qnat m + Qnat n.
Proof. unfold Qnat. by rewrite Nat2Z.inj_add, inject_Z_plus. Qed.

Lemma Qnat_mul m n : Qnat (m * n) == Qnat m * Qnat n.
Proof. unfold Qnat. by rewrite Nat2Z.inj_mul, inject_Z_mult. Qed.

(** The expected agreement is the sum of the products of the row and
    column totals, over [n * n]. *)
Lemma Q_sumProducts (R C : nat -> nat) (k n : nat) :
  (0 < n)%nat ->
  sumProducts (num := Q)
    (fun r => div (of_nat (R r)) (of_nat n))
    (fun r => div (of_nat (C r)) (of_nat n)) k
  == Qnat (sumOver (fun r => (R r * C r)%nat) k) / (Qnat n * Qnat n).
Proof.
  intros Hn. unfold sumProducts. cbn [add mul div of_nat Q_Number]. fold (Qnat n).
  induction k as [|k IH].
  - cbn [seq foldl]. change (Qnat (sumOver _ 0)) with 0.
    change (inject_Z (Z.of_nat 0)) with 0. field. by apply Qnat_nonzero.
  - rewrite seq_S, foldl_app. cbn [foldl]. rewrite IH.
    change (0 + k)%nat with k.
    rewrite sumOver_S, Qnat_add, Qnat_mul.
    fold (Qnat (R k)) (Qnat (C k)). field. by apply Qnat_nonzero.
Qed.

Lemma sumOver_le f g k :
  (forall r, (r < k)%nat -> (f r <= g r)%nat) ->
  (sumOver f k <= sumOver g k)%nat.
Proof.
  induction k as [|k IH]; intros Hfg; [done|].
  rewrite !sumOver_S. specialize (Hfg k) as Hk.
  assert (sumOver f k <= sumOver g k)%nat by (apply IH; intros; apply Hfg; lia).
  lia.
Qed.

Lemma sumOver_scale f (n k : nat) :
  sumOver (fun r => (f r * n)%nat) k = (sumOver f k * n)%nat.
Proof.
  induction k as [|k IH]; [done|]. rewrite !sumOver_S, IH. lia.
Qed.

Lemma sumOver_pick f k j : (j < k)%nat -> (f j <= sumOver f k)%nat.
Proof.
  induction k as [|k IH]; intros Hj; [lia|]. rewrite sumOver_S.
  destruct (decide (j = k)) as [->|]; [lia|].
  assert (f j <= sumOver f k)%nat by (apply IH; lia). lia.
Qed.

(** What the guard and the quotient give in exact arithmetic. *)
Lemma Q_kappaOf_guard (Po Pe : Q) :
  Pe == 1 -> kappaOf Po Pe = 1.
Proof.
  intros HPe. unfold kappaOf. cbn [eqb of_nat Q_Number].
  apply Qeq_bool_iff in HPe. change (inject_Z (Z.of_nat 1)) with 1.
  by rewrite HPe.
Qed.

Lemma Q_kappaOf_quotient (Po Pe : Q) :
  ~ Pe == 1 -> kappaOf Po Pe = (Po - Pe) / (1 - Pe).
Proof.
  intros HPe. unfold kappaOf. cbn [eqb of_nat sub div Q_Number].
  change (inject_Z (Z.of_nat 1)) with 1.
  destruct (Qeq_bool Pe 1) eqn:E; [|done].
  by apply Qeq_bool_iff in E.
Qed.


End Exact.

(** ** Well-formed inputs *)

Lemma labelsOf_NoDup d : NoDup (labelsOf d).
Proof.
  destruct d; apply (bool_decide_unpack _); vm_compute; exact I.
Qed.

Lemma indexOf_agree labels (x y : string) :
  x ∈ labels -> y ∈ labels ->
  (indexOf labels (Some x) =? indexOf labels (Some y))
  = bool_decide (Some x = Some y).
Proof.
  intros Hx Hy.
  pose proof (indexOf_within labels x Hx) as Rx.
  pose proof (indexOf_within labels y Hy) as Ry.
  destruct (Z.eqb_spec (indexOf labels (Some x)) (indexOf labels (Some y)))
    as [E|E]; symmetry.
  - apply bool_decide_eq_true_2.
    rewrite <- (indexOf_from_lookup labels x 0 (Z.to_nat (indexOf labels (Some x))))
      by (simpl in *; lia).
    rewrite E.
    apply (indexOf_from_lookup labels y 0); simpl in *; lia.
  - apply bool_decide_eq_false_2. intros [= ->]. done.
Qed.

Section WellFormed.
Variables (labels seq1 seq2 : list string).
Hypothesis Hlen : length seq1 = length seq2.
Hypothesis Hw1 : within labels seq1.
Hypothesis Hw2 : within labels seq2.

Let n := length seq1.
Let k := length labels.
Let M := talliedMatrix labels seq1 seq2 n.

Lemma wf_found1 i : (i < n)%nat -> 0 <= indexOf labels (seq1 !! i).
Proof. intros. by apply within_found. Qed.

Lemma wf_found2 i : (i < n)%nat -> 0 <= indexOf labels (seq2 !! i).
Proof. intros. apply within_found; [done|]. unfold n in *. lia. Qed.

Lemma wf_agreements :
  talliedAgreements labels seq1 seq2 n
  = countIf (fun i => bool_decide (seq1 !! i = seq2 !! i)) n.
Proof.
  apply countIf_ext. intros i Hi.
  destruct (within_lookup _ _ i Hw1) as (x & -> & Hx); [done|].
  destruct (within_lookup _ _ i Hw2) as (y & -> & Hy); [unfold n in *; lia|].
  by apply indexOf_agree.
Qed.

Lemma wf_cell r c :
  NoDup labels -> (r < k)%nat -> (c < k)%nat ->
  cell M r c
  = countIf (fun i => bool_decide (seq1 !! i = labels !! r
                                   /\ seq2 !! i = labels !! c)) n.
Proof.
  intros Hnd Hr Hc. unfold M. rewrite tallied_cell by done.
  apply countIf_ext. intros i _.
  destruct (Z.eqb_spec (indexOf labels (seq1 !! i)) (Z.of_nat r)) as [E1|E1],
    (Z.eqb_spec (indexOf labels (seq2 !! i)) (Z.of_nat c)) as [E2|E2];
    rewrite !indexOf_position in E1, E2 by done; simpl; symmetry;
    (apply bool_decide_eq_true_2 || apply bool_decide_eq_false_2);
    tauto.
Qed.

Lemma wf_total : total k M = n.
Proof.
  unfold M, k. rewrite tallied_total. apply countIf_true. intros i Hi.
  pose proof (wf_found1 i Hi). pose proof (wf_found2 i Hi).
  apply andb_true_intro; split; apply Z.leb_le; lia.
Qed.

Lemma wf_columnTotal_le c : (c < k)%nat -> (columnTotal k M c <= n)%nat.
Proof.
  intros Hc. unfold M, k. rewrite tallied_columnTotal by done.
  apply countIf_le.
Qed.

Lemma wf_products_le :
  (sumOver (fun r => rowTotal k M r * columnTotal k M r) k <= n * n)%nat.
Proof.
  etransitivity.
  - apply (sumOver_le _ (fun r => rowTotal k M r * n)%nat).
    intros r Hr. apply Nat.mul_le_mono_l. by apply wf_columnTotal_le.
  - rewrite sumOver_scale. pose proof wf_total as T.
    unfold total in T. unfold rowTotal. by rewrite T.
Qed.

(** When both sequences repeat one label, a single diagonal cell holds
    every pair. *)
Lemma wf_uniform_rowTotal (l : string) r :
  l ∈ labels -> Forall (fun x => x = l) seq1 -> (r < k)%nat ->
  rowTotal k M r
  = if indexOf labels (Some l) =? Z.of_nat r then n else 0%nat.
Proof.
  intros Hl H1 Hr. unfold M, k. rewrite tallied_rowTotal by done.
  destruct (Z.eqb_spec (indexOf labels (Some l)) (Z.of_nat r)) as [E|E].
  - apply countIf_true. intros i Hi.
    pose proof (wf_found2 i Hi).
    destruct (lookup_lt_is_Some_2 seq1 i Hi) as [x Hx].
    rewrite Hx. rewrite (Forall_lookup_1 _ _ _ _ H1 Hx), E, Z.eqb_refl.
    apply Z.leb_le. lia.
  - apply countIf_false. intros i Hi.
    destruct (lookup_lt_is_Some_2 seq1 i Hi) as [x Hx].
    rewrite Hx. rewrite (Forall_lookup_1 _ _ _ _ H1 Hx).
    apply Z.eqb_neq in E. by rewrite E.
Qed.

Lemma wf_uniform_columnTotal (l : string) c :
  l ∈ labels -> Forall (fun x => x = l) seq2 -> (c < k)%nat ->
  columnTotal k M c
  = if indexOf labels (Some l) =? Z.of_nat c then n else 0%nat.
Proof.
  intros Hl H2 Hc. unfold M, k. rewrite tallied_columnTotal by done.
  assert (Hn2 : forall i, (i < n)%nat -> (i < length seq2)%nat)
    by (unfold n; lia).
  destruct (Z.eqb_spec (indexOf labels (Some l)) (Z.of_nat c)) as [E|E].
  - apply countIf_true. intros i Hi.
    pose proof (wf_found1 i Hi).
    destruct (lookup_lt_is_Some_2 seq2 i (Hn2 i Hi)) as [x Hx].
    rewrite Hx. rewrite (Forall_lookup_1 _ _ _ _ H2 Hx), E, Z.eqb_refl.
    rewrite andb_true_r. apply Z.leb_le. lia.
  - apply countIf_false. intros i Hi.
    destruct (lookup_lt_is_Some_2 seq2 i (Hn2 i Hi)) as [x Hx].
    rewrite Hx. rewrite (Forall_lookup_1 _ _ _ _ H2 Hx).
    apply Z.eqb_neq in E. rewrite E. apply andb_false_r.
Qed.

End WellFormed.

(** In exact arithmetic the two agreements of a well-formed input are at
    most [1], and the expected one is [1] when a single label fills both
    sequences. *)
Section ExactBounds.
Open Scope Q_scope.
Variables (labels seq1 seq2 : list string).
Hypothesis Hne : seq1 <> [].
Hypothesis Hlen : length seq1 = length seq2.
Hypothesis Hw1 : within labels seq1.
Hypothesis Hw2 : within labels seq2.

Let n := length seq1.
Let k := length labels.
Let M := talliedMatrix labels seq1 seq2 n.

Lemma exact_n_pos : (0 < n)%nat.
Proof. unfold n. destruct seq1; [done|simpl; lia]. Qed.


Lemma exact_expected :
  sumProducts (num := Q) (rowMarginal k M n) (columnMarginal k M n) k
  == Qnat (sumOver (fun r => (rowTotal k M r * columnTotal k M r)%nat) k)
     / (Qnat n * Qnat n).
Proof. apply Q_sumProducts, exact_n_pos. Qed.

Lemma exact_expected_le_1 :
  sumProducts (num := Q) (rowMarginal k M n) (columnMarginal k M n) k <= 1.
Proof.
  rewrite exact_expected. pose proof (Qnat_pos n exact_n_pos).
  apply Qle_shift_div_r; [nra|].
  rewrite Qmult_1_l, <- Qnat_mul.
  apply Qnat_le, wf_products_le; done.
Qed.

Lemma exact_expected_uniform (l : string) :
  Forall (fun x => x = l) seq1 -> Forall (fun x => x = l) seq2 ->
  sumProducts (num := Q) (rowMarginal k M n) (columnMarginal k M n) k == 1.
Proof.
  intros H1 H2. apply Qle_antisym; [apply exact_expected_le_1|].
  rewrite exact_expected. pose proof (Qnat_pos n exact_n_pos).
  apply Qle_shift_div_l; [nra|].
  rewrite Qmult_1_l, <- Qnat_mul. apply Qnat_le.
  assert (Hl : l ∈ labels).
  { pose proof exact_n_pos as Hn.
    destruct (within_lookup labels seq1 0 Hw1 Hn) as (x & Hx & Hin).
    by rewrite <- (Forall_lookup_1 _ _ _ _ H1 Hx). }
  pose proof (indexOf_within labels l Hl) as Hj.
  set (j := Z.to_nat (indexOf labels (Some l))).
  assert (Hjk : (j < k)%nat) by (unfold j, k; lia).
  etransitivity;
    [|apply (sumOver_pick
               (fun r => (rowTotal k M r * columnTotal k M r)%nat) k j Hjk)].
  unfold M, k, n.
  rewrite (wf_uniform_rowTotal labels seq1 seq2 Hlen Hw2 l j Hl H1 Hjk).
  rewrite (wf_uniform_columnTotal labels seq1 seq2 Hlen Hw1 l j Hl H2 Hjk).
  replace (Z.of_nat j) with (indexOf labels (Some l)) by (unfold j; lia).
  by rewrite Z.eqb_refl.
Qed.

End ExactBounds.

(** ** A single label throughout, in any number system *)

Section Uniform.
Context {num : Type} `{Number num}.
Variables (labels seq1 seq2 : list string) (l : string).
Hypothesis Hlen : length seq1 = length seq2.
Hypothesis H1 : Forall (fun x => x = l) seq1.
Hypothesis H2 : Forall (fun x => x = l) seq2.
Hypothesis Hl : l ∈ labels.

Let n := length seq1.
Let k := length labels.
Let M := talliedMatrix labels seq1 seq2 n.

(** The arithmetic facts the computation relies on. *)
Hypothesis div_same : div (of_nat n) (of_nat n) = of_nat 1.
Hypothesis div_zero : div (of_nat 0) (of_nat n) = of_nat 0.
Hypothesis mul_one : mul (of_nat 1) (of_nat 1) = of_nat 1.
Hypothesis mul_zero : mul (of_nat 0) (of_nat 0) = of_nat 0.
Hypothesis add_zero : add (of_nat 0) (of_nat 0) = of_nat 0.
Hypothesis add_zero_one : add (of_nat 0) (of_nat 1) = of_nat 1.
Hypothesis add_one_zero : add (of_nat 1) (of_nat 0) = of_nat 1.
Hypothesis eqb_one : eqb (of_nat 1) (of_nat 1) = true.

Lemma uniform_within1 : within labels seq1.
Proof. eapply Forall_impl; [exact H1|]. by intros x ->. Qed.

Lemma uniform_within2 : within labels seq2.
Proof. eapply Forall_impl; [exact H2|]. by intros x ->. Qed.

Lemma uniform_agreements : talliedAgreements labels seq1 seq2 n = n.
Proof.
  apply countIf_true. intros i Hi.
  destruct (lookup_lt_is_Some_2 seq1 i Hi) as [x Hx].
  destruct (lookup_lt_is_Some_2 seq2 i) as [y Hy]; [unfold n in *; lia|].
  rewrite Hx, Hy, (Forall_lookup_1 _ _ _ _ H1 Hx),
    (Forall_lookup_1 _ _ _ _ H2 Hy).
  apply Z.eqb_refl.
Qed.

Lemma uniform_sumProducts :
  sumProducts (rowMarginal k M n) (columnMarginal k M n) k = of_nat 1.
Proof.
  pose proof (indexOf_within labels l Hl) as Hj. fold k in Hj.
  set (j := Z.to_nat (indexOf labels (Some l))).
  assert (Hprod : forall r, (r < k)%nat ->
            mul (rowMarginal k M n r) (columnMarginal k M n r)
            = if decide (r = j) then of_nat 1 else of_nat 0).
  { intros r Hr. unfold rowMarginal, columnMarginal, M, k, n.
    rewrite (wf_uniform_rowTotal labels seq1 seq2 Hlen uniform_within2
               l r Hl H1 Hr).
    rewrite (wf_uniform_columnTotal labels seq1 seq2 Hlen uniform_within1
               l r Hl H2 Hr).
    fold n.
    destruct (Z.eqb_spec (indexOf labels (Some l)) (Z.of_nat r));
      destruct (decide (r = j)); unfold j in *; try lia.
    - by rewrite div_same, mul_one.
    - by rewrite div_zero, mul_zero. }
  unfold sumProducts.
  assert (Hgen : forall m, (m <= k)%nat ->
            foldl (fun s r => add s (mul (rowMarginal k M n r)
                                         (columnMarginal k M n r)))
                  (of_nat 0) (seq 0 m)
            = if decide (j < m)%nat then of_nat 1 else of_nat 0).
  { induction m as [|m IH]; intros Hm.
    - simpl. by destruct (decide (j < 0)%nat); [lia|].
    - rewrite seq_S, foldl_app, IH by lia. cbn [foldl].
      change (0 + m)%nat with m. rewrite Hprod by lia.
      destruct (decide (j < m)%nat), (decide (m = j)),
        (decide (j < S m)%nat); try lia;
        by rewrite ?add_zero, ?add_zero_one, ?add_one_zero. }
  rewrite Hgen by done. destruct (decide (j < k)%nat); [done|].
  unfold j in *. lia.
Qed.

Lemma uniform_calculate :
  exists out,
    calculateKappaForCategory seq1 seq2 labels = Ok out
    /\ observedAgreement out = of_nat 1
    /\ expectedAgreement out = of_nat 1
    /\ kappa out = of_nat 1.
Proof.
  destruct (calculate_closed_form seq1 seq2 labels)
    as (out & Hout & HM & HPo & HPe & Hk).
  { intros i Hi. apply within_found; [apply uniform_within1|done]. }
  exists out. split; [done|].
  rewrite HM in HPe. fold n k M in HPe.
  rewrite uniform_sumProducts in HPe.
  fold n in HPo. rewrite uniform_agreements, div_same in HPo.
  split; [done|]. split; [done|].
  rewrite Hk, HPe. unfold kappaOf. by rewrite eqb_one.
Qed.

End Uniform.

(** ** Binary64 *)

Section Binary64.

Lemma SFdiv_same s m e :
  SFdiv prec emax (S754_finite s m e) (S754_finite s m e) = Prim2SF 1%float.
Proof.
  unfold SFdiv, SFdiv_core_binary. rewrite Bool.xorb_nilpotent.
  replace (Zdigits2 (Z.pos m) + e - (Zdigits2 (Z.pos m) + e)) with 0 by lia.
  rewrite Z.sub_diag.
  change (Z.min (fexp prec emax 0) 0) with (-53).
  change (0 - -53) with 53.
  cbv iota beta.
  rewrite Z.shiftl_mul_pow2 by lia.
  assert (Z.div_eucl (Z.pos m * 2 ^ 53) (Z.pos m) = (2 ^ 53, 0)) as ->.
  { generalize (Z.div_eucl_eq (Z.pos m * 2 ^ 53) (Z.pos m)).
    generalize (Z.mod_pos_bound (Z.pos m * 2 ^ 53) (Z.pos m)).
    unfold Z.modulo. destruct Z.div_eucl as [q r]. intros Hb He.
    specialize (Hb ltac:(lia)). specialize (He ltac:(lia)).
    assert (q = 2 ^ 53) by nia. f_equal; lia. }
  assert (new_location (Z.pos m) 0 = loc_Exact) as ->.
  { unfold new_location, new_location_even, new_location_odd.
    destruct (Z.even (Z.pos m)); reflexivity. }
  vm_compute. reflexivity.
Qed.

Lemma float_div_same (x : float) s m e :
  Prim2SF x = S754_finite s m e -> PrimFloat.div x x = 1%float.
Proof.
  intros Hx. apply Prim2SF_inj.
  rewrite FloatAxioms.div_spec, Hx. apply SFdiv_same.
Qed.

Lemma float_zero_div (x : float) m e :
  Prim2SF x = S754_finite false m e -> PrimFloat.div 0%float x = 0%float.
Proof.
  intros Hx. apply Prim2SF_inj.
  rewrite FloatAxioms.div_spec, Hx. reflexivity.
Qed.

Lemma digits2_pos_iter p s :
  digits2_pos (Pos.iter xO p s) = (digits2_pos p + s)%positive.
Proof.
  induction s as [|s IH] using Pos.peano_ind.
  - simpl. lia.
  - rewrite Pos.iter_succ. simpl. rewrite IH. lia.
Qed.

Lemma digits2_pos_lower p : 2 ^ (Z.pos (digits2_pos p) - 1) <= Z.pos p.
Proof.
  induction p as [p IH|p IH|]; simpl digits2_pos.
  - rewrite Pos2Z.inj_succ.
    replace (Z.succ (Z.pos (digits2_pos p)) - 1)
      with (Z.succ (Z.pos (digits2_pos p) - 1)) by lia.
    rewrite Z.pow_succ_r by lia. lia.
  - rewrite Pos2Z.inj_succ.
    replace (Z.succ (Z.pos (digits2_pos p)) - 1)
      with (Z.succ (Z.pos (digits2_pos p) - 1)) by lia.
    rewrite Z.pow_succ_r by lia. lia.
  - simpl. lia.
Qed.

Lemma binary_round_aux_canonical s m e :
  fexp prec emax (Z.pos (digits2_pos m) + e) = e -> e <= emax - prec ->
  binary_round_aux prec emax s (Z.pos m) e loc_Exact = S754_finite s m e.
Proof.
  intros Hc He. unfold binary_round_aux, shr_fexp.
  cbn [Zdigits2]. rewrite Hc, Z.sub_diag.
  cbn [shr shr_record_of_loc shr_m loc_of_shr_record round_nearest_even
       Zdigits2].
  rewrite Hc, Z.sub_diag. cbn [shr shr_record_of_loc shr_m].
  apply Z.leb_le in He. rewrite He. reflexivity.
Qed.

(** Integers below [2^53] are represented by a finite positive float. *)
Lemma binary_round_small p :
  Z.pos p < 2 ^ 53 ->
  exists m e, binary_round prec emax false p 0 = S754_finite false m e.
Proof.
  intros Hp.
  assert (Hd : Z.pos (digits2_pos p) <= 53).
  { pose proof (digits2_pos_lower p).
    destruct (Z_le_gt_dec (Z.pos (digits2_pos p)) 53); [assumption|].
    assert (2 ^ 53 <= 2 ^ (Z.pos (digits2_pos p) - 1))
      by (apply Z.pow_le_mono_r; lia).
    lia. }
  unfold binary_round. rewrite Z.add_0_r.
  assert (fexp prec emax (Z.pos (digits2_pos p))
          = Z.pos (digits2_pos p) - 53) as ->.
  { unfold fexp, emin, prec, emax. lia. }
  unfold shl_align. rewrite Z.sub_0_r.
  destruct (Z.pos (digits2_pos p) - 53) as [|q|q] eqn:Hq; try lia.
  - exists p, 0. apply binary_round_aux_canonical.
    + unfold fexp, emin, prec, emax. lia.
    + unfold emax, prec. lia.
  - exists (Pos.iter xO p q), (Z.neg q). apply binary_round_aux_canonical.
    + rewrite digits2_pos_iter, Pos2Z.inj_add.
      unfold fexp, emin, prec, emax. lia.
    + unfold emax, prec. lia.
Qed.

Lemma float_of_nat_finite (n : nat) :
  (0 < n)%nat -> Z.of_nat n < 2 ^ 53 ->
  exists m e, Prim2SF (of_nat (num := float) n) = S754_finite false m e.
Proof.
  intros Hn Hb. cbn [of_nat float_Number].
  rewrite of_uint63_spec, of_Z_spec.
  assert (HwB : wB = 2 ^ 63) by reflexivity.
  rewrite Z.mod_small by lia.
  destruct (Z.of_nat n) as [|p|p] eqn:E; try lia.
  simpl. by apply binary_round_small.
Qed.

(** A single label throughout, for any realistic length. *)
Lemma float_uniform labels seq1 seq2 (l : string) :
  seq1 <> [] -> length seq1 = length seq2 ->
  Z.of_nat (length seq1) < 2 ^ 53 ->
  Forall (fun x => x = l) seq1 -> Forall (fun x => x = l) seq2 ->
  l ∈ labels ->
  exists out : KappaOut float,
    calculateKappaForCategory seq1 seq2 labels = Ok out
    /\ observedAgreement out = 1%float
    /\ expectedAgreement out = 1%float
    /\ kappa out = 1%float.
Proof.
  intros Hne Hlen Hb H1 H2 Hl.
  assert (Hn : (0 < length seq1)%nat) by (destruct seq1; [done|simpl; lia]).
  destruct (float_of_nat_finite (length seq1) Hn Hb) as (m & e & Hfin).
  change 1%float with (of_nat (num := float) 1).
  apply (uniform_calculate labels seq1 seq2 l Hlen H1 H2 Hl);
    try reflexivity.
  - eapply float_div_same, Hfin.
  - eapply float_zero_div, Hfin.
Qed.

End Binary64.

(** ** Claims about [calculateKappaForCategory] *)

Lemma inSet_found labels x : (0 <=? indexOf labels x) = inSet labels x.
Proof.
  destruct x as [y|]; simpl; [|done].
  pose proof (indexOf_from_range labels y 0) as R.
  pose proof (indexOf_from_absent labels y 0 ltac:(lia)) as A.
  destruct (decide (y ∈ labels)) as [Hy|Hy].
  - rewrite bool_decide_eq_true_2 by done. apply Z.leb_le.
    destruct R as [R|R]; [|lia]. apply A in R. done.
  - rewrite bool_decide_eq_false_2 by done. apply Z.leb_gt.
    apply A in Hy. lia.
Qed.

Lemma nonempty_length {A} (l : list A) : l <> [] -> (0 < length l)%nat.
Proof. destruct l; [done|simpl; lia]. Qed.

Ltac solve_within :=
  unfold within; apply (bool_decide_unpack _); vm_compute; exact I.

(** C1. For equal-length non-empty sequences over the fixed label set of a
    dimension, the call returns and its [observedAgreement] is the number of
    indices at which the two sequences carry the same label, divided by the
    length; this holds in every number system, exact or binary64. *)
Theorem observedAgreement_is_matching_fraction
  {num : Type} `{Number num} (d : Dimension) (seq1 seq2 : list string) :
  seq1 <> [] -> length seq1 = length seq2 ->
  within (labelsOf d) seq1 -> within (labelsOf d) seq2 ->
  exists out,
    calculateKappaForCategory seq1 seq2 (labelsOf d) = Ok out
    /\ observedAgreement out
       = div (of_nat (countIf (fun i => bool_decide (seq1 !! i = seq2 !! i))
                              (length seq1)))
             (of_nat (length seq1)).
Proof.
  intros _ Hlen Hw1 Hw2.
  destruct (calculate_closed_form seq1 seq2 (labelsOf d))
    as (out & Hout & _ & HPo & _).
  { intros i Hi. by apply within_found. }
  exists out. split; [done|].
  by rewrite HPo, (wf_agreements (labelsOf d) seq1 seq2 Hlen Hw1 Hw2).
Qed.

Lemma observedAgreement_is_matching_fraction_witness :
  let seq1 := ["positive"; "negative"; "neutral"; "neutral"]%string in
  let seq2 := ["positive"; "neutral"; "neutral"; "negative"]%string in
  (seq1 <> [] /\ length seq1 = length seq2
   /\ within (labelsOf Sentiment) seq1 /\ within (labelsOf Sentiment) seq2)
  /\ exists out : KappaOut Q,
       calculateKappaForCategory seq1 seq2 (labelsOf Sentiment) = Ok out
       /\ observedAgreement out
          = div (of_nat (countIf (fun i => bool_decide (seq1 !! i = seq2 !! i))
                                 (length seq1)))
                (of_nat (length seq1)).
Proof.
  intros seq1 seq2.
  assert (seq1 <> [] /\ length seq1 = length seq2
          /\ within (labelsOf Sentiment) seq1
          /\ within (labelsOf Sentiment) seq2) as Hyp
    by (split; [done|split; [reflexivity|split; solve_within]]).
  split; [exact Hyp|]. destruct Hyp as (Hne & Hlen & Hw1 & Hw2).
  exact (observedAgreement_is_matching_fraction Sentiment seq1 seq2
           Hne Hlen Hw1 Hw2).
Defined.

(** C2. For equal-length non-empty sequences over the fixed label set of a
    dimension ([k] labels), the returned matrix is [k]-by-[k], its entry
    [(r, c)] is the number of indices whose first label is the label at
    position [r] and whose second label is the label at position [c] of
    the fixed order, and its entries add up to the length. *)
Theorem matrix_counts_label_pairs
  {num : Type} `{Number num} (d : Dimension) (seq1 seq2 : list string) :
  seq1 <> [] -> length seq1 = length seq2 ->
  within (labelsOf d) seq1 -> within (labelsOf d) seq2 ->
  exists out,
    calculateKappaForCategory seq1 seq2 (labelsOf d) = Ok out
    /\ square (length (labelsOf d)) (matrix out)
    /\ (forall r c,
          (r < length (labelsOf d))%nat -> (c < length (labelsOf d))%nat ->
          cell (matrix out) r c
          = countIf (fun i => bool_decide (seq1 !! i = labelsOf d !! r
                                           /\ seq2 !! i = labelsOf d !! c))
                    (length seq1))
    /\ total (length (labelsOf d)) (matrix out) = length seq1.
Proof.
  intros _ Hlen Hw1 Hw2.
  destruct (calculate_closed_form seq1 seq2 (labelsOf d))
    as (out & Hout & HM & _).
  { intros i Hi. by apply within_found. }
  exists out. split; [done|]. rewrite HM. split; [|split].
  - apply tabulate_square.
  - intros r c Hr Hc. apply wf_cell; auto using labelsOf_NoDup.
  - by apply wf_total.
Qed.

Lemma matrix_counts_label_pairs_witness :
  let seq1 := ["partisan"; "objective"; "objective"]%string in
  let seq2 := ["partisan"; "non_polarized"; "objective"]%string in
  (seq1 <> [] /\ length seq1 = length seq2
   /\ within (labelsOf Discourse) seq1 /\ within (labelsOf Discourse) seq2)
  /\ exists out : KappaOut Q,
       calculateKappaForCategory seq1 seq2 (labelsOf Discourse) = Ok out
       /\ square (length (labelsOf Discourse)) (matrix out)
       /\ (forall r c,
             (r < length (labelsOf Discourse))%nat ->
             (c < length (labelsOf Discourse))%nat ->
             cell (matrix out) r c
             = countIf (fun i => bool_decide
                          (seq1 !! i = labelsOf Discourse !! r
                           /\ seq2 !! i = labelsOf Discourse !! c))
                       (length seq1))
       /\ total (length (labelsOf Discourse)) (matrix out) = length seq1.
Proof.
  intros seq1 seq2.
  assert (seq1 <> [] /\ length seq1 = length seq2
          /\ within (labelsOf Discourse) seq1
          /\ within (labelsOf Discourse) seq2) as Hyp
    by (split; [done|split; [reflexivity|split; solve_within]]).
  split; [exact Hyp|]. destruct Hyp as (Hne & Hlen & Hw1 & Hw2).
  exact (matrix_counts_label_pairs Discourse seq1 seq2 Hne Hlen Hw1 Hw2).
Defined.

(** C3. For equal-length non-empty sequences over the fixed label set of a
    dimension, [expectedAgreement] is the sum over the label positions [r]
    of [p1[r] * p2[r]], where [p1[r]] is the sum of row [r] of the returned
    matrix divided by the length and [p2[r]] the sum of column [r] divided
    by the length; this holds in every number system. *)
Theorem expectedAgreement_is_marginal_product
  {num : Type} `{Number num} (d : Dimension) (seq1 seq2 : list string) :
  seq1 <> [] -> length seq1 = length seq2 ->
  within (labelsOf d) seq1 -> within (labelsOf d) seq2 ->
  exists out,
    calculateKappaForCategory seq1 seq2 (labelsOf d) = Ok out
    /\ expectedAgreement out
       = sumProducts
           (fun r => div (of_nat (rowTotal (length (labelsOf d)) (matrix out) r))
                         (of_nat (length seq1)))
           (fun r => div (of_nat (columnTotal (length (labelsOf d))
                                              (matrix out) r))
                         (of_nat (length seq1)))
           (length (labelsOf d)).
Proof.
  intros _ Hlen Hw1 Hw2.
  destruct (calculate_closed_form seq1 seq2 (labelsOf d))
    as (out & Hout & _ & _ & HPe & _).
  { intros i Hi. by apply within_found. }
  exists out. split; [done|]. exact HPe.
Qed.

Lemma expectedAgreement_is_marginal_product_witness :
  let seq1 := ["positive"; "positive"; "negative"; "negative"]%string in
  let seq2 := ["positive"; "negative"; "positive"; "negative"]%string in
  (seq1 <> [] /\ length seq1 = length seq2
   /\ within (labelsOf Sentiment) seq1 /\ within (labelsOf Sentiment) seq2)
  /\ exists out : KappaOut Q,
       calculateKappaForCategory seq1 seq2 (labelsOf Sentiment) = Ok out
       /\ expectedAgreement out
          = sumProducts
              (fun r => div (of_nat (rowTotal (length (labelsOf Sentiment))
                                              (matrix out) r))
                            (of_nat (length seq1)))
              (fun r => div (of_nat (columnTotal (length (labelsOf Sentiment))
                                                 (matrix out) r))
                            (of_nat (length seq1)))
              (length (labelsOf Sentiment)).
Proof.
  intros seq1 seq2.
  assert (seq1 <> [] /\ length seq1 = length seq2
          /\ within (labelsOf Sentiment) seq1
          /\ within (labelsOf Sentiment) seq2) as Hyp
    by (split; [done|split; [reflexivity|split; solve_within]]).
  split; [exact Hyp|]. destruct Hyp as (Hne & Hlen & Hw1 & Hw2).
  exact (expectedAgreement_is_marginal_product Sentiment seq1 seq2
           Hne Hlen Hw1 Hw2).
Defined.

(** C4. For equal-length non-empty sequences over the fixed label set of a
    dimension the call returns, and

    - in every number system [kappa] is [1] when [expectedAgreement === 1]
      and [(observedAgreement - expectedAgreement) / (1 - expectedAgreement)]
      otherwise;
    - in exact arithmetic the divisor of that quotient is never [0], and
      when one label fills both sequences [expectedAgreement] is [1] and
      [kappa] is [1];
    - in binary64, for lengths below [2^53], when one label fills both
      sequences [expectedAgreement] and [kappa] are exactly [1]. *)
Theorem kappa_guarded_quotient (d : Dimension) (seq1 seq2 : list string) :
  seq1 <> [] -> length seq1 = length seq2 ->
  within (labelsOf d) seq1 -> within (labelsOf d) seq2 ->
  (forall (num : Type) (N : Number num),
     exists out : KappaOut num,
       calculateKappaForCategory seq1 seq2 (labelsOf d) = Ok out
       /\ kappa out
          = if eqb (expectedAgreement out) (of_nat 1) then of_nat 1
            else div (sub (observedAgreement out) (expectedAgreement out))
                     (sub (of_nat 1) (expectedAgreement out)))
  /\ (exists out : KappaOut Q,
        calculateKappaForCategory seq1 seq2 (labelsOf d) = Ok out
        /\ (expectedAgreement out == 1 -> kappa out = 1)%Q
        /\ (~ expectedAgreement out == 1 ->
            ~ 1 - expectedAgreement out == 0
            /\ kappa out
               = (observedAgreement out - expectedAgreement out)
                 / (1 - expectedAgreement out))%Q
        /\ (forall l : string,
              Forall (fun x => x = l) seq1 -> Forall (fun x => x = l) seq2 ->
              expectedAgreement out == 1 /\ kappa out = 1)%Q)
  /\ (Z.of_nat (length seq1) < 2 ^ 53 ->
      forall l : string,
        Forall (fun x => x = l) seq1 -> Forall (fun x => x = l) seq2 ->
        exists out : KappaOut float,
          calculateKappaForCategory seq1 seq2 (labelsOf d) = Ok out
          /\ expectedAgreement out = 1%float /\ kappa out = 1%float).
Proof.
  intros Hne Hlen Hw1 Hw2.
  assert (Hfound : forall i, (i < length seq1)%nat ->
                     0 <= indexOf (labelsOf d) (seq1 !! i))
    by (intros i Hi; by apply within_found).
  split; [|split].
  - intros num N.
    destruct (calculate_closed_form seq1 seq2 (labelsOf d) Hfound)
      as (out & Hout & _ & _ & _ & Hk).
    exists out. split; [done|]. exact Hk.
  - destruct (calculate_closed_form (num := Q) seq1 seq2 (labelsOf d) Hfound)
      as (out & Hout & HM & HPo & HPe & Hk).
    exists out. split; [done|]. rewrite Hk. split; [|split].
    + apply Q_kappaOf_guard.
    + intros Hneq. split; [|by apply Q_kappaOf_quotient].
      intros E. apply Hneq. lra.
    + intros l H1 H2.
      assert (expectedAgreement out == 1)%Q as E.
      { rewrite HPe, HM.
        by apply (exact_expected_uniform (labelsOf d) seq1 seq2 Hne Hlen
                    Hw1 Hw2 l). }
      split; [done|]. by apply Q_kappaOf_guard.
  - intros Hb l H1 H2.
    assert (Hl : l ∈ labelsOf d).
    { destruct (within_lookup (labelsOf d) seq1 0 Hw1
                  (nonempty_length _ Hne)) as (x & Hx & Hin).
      by rewrite <- (Forall_lookup_1 _ _ _ _ H1 Hx). }
    destruct (float_uniform (labelsOf d) seq1 seq2 l Hne Hlen Hb H1 H2 Hl)
      as (out & Hout & _ & HPe & Hk).
    by exists out.
Qed.

Lemma kappa_guarded_quotient_witness :
  let seq1 := ["neutral"; "neutral"; "neutral"]%string in
  let seq2 := ["neutral"; "neutral"; "neutral"]%string in
  (seq1 <> [] /\ length seq1 = length seq2
   /\ within (labelsOf Sentiment) seq1 /\ within (labelsOf Sentiment) seq2)
  /\ (exists out : KappaOut Q,
        calculateKappaForCategory seq1 seq2 (labelsOf Sentiment) = Ok out
        /\ (expectedAgreement out == 1)%Q /\ kappa out = 1%Q)
  /\ (exists out : KappaOut float,
        calculateKappaForCategory seq1 seq2 (labelsOf Sentiment) = Ok out
        /\ expectedAgreement out = 1%float /\ kappa out = 1%float).
Proof.
  intros seq1 seq2.
  assert (seq1 <> [] /\ length seq1 = length seq2
          /\ within (labelsOf Sentiment) seq1
          /\ within (labelsOf Sentiment) seq2) as Hyp
    by (split; [done|split; [reflexivity|split; solve_within]]).
  split; [exact Hyp|]. destruct Hyp as (Hne & Hlen & Hw1 & Hw2).
  destruct (kappa_guarded_quotient Sentiment seq1 seq2 Hne Hlen Hw1 Hw2)
    as (_ & (out & Hout & _ & _ & Huni) & Hfloat).
  assert (Hall : Forall (fun x => x = "neutral"%string) seq1)
    by (apply (bool_decide_unpack _); vm_compute; exact I).
  split.
  - exists out. split; [exact Hout|]. exact (Huni _ Hall Hall).
  - apply (Hfloat ltac:(vm_compute; reflexivity) _ Hall Hall).
Defined.



(** C10, as stated, fails.  With ["sarcastic"] outside the sentiment labels
    and supplied by annotator2, the call returns normally: no error is
    raised, and the pair is in no cell of the matrix (one entry in all)
    although it is counted in the length [2] that divides the agreements. *)
Lemma out_of_set_label_silently_dropped :
  let seq1 := ["positive"; "negative"]%string in
  let seq2 := ["positive"; "sarcastic"]%string in
  ("sarcastic"%string ∉ sentimentLabels)
  /\ calculateKappaForCategory (num := float) seq1 seq2 sentimentLabels
     = Ok {| observedAgreement := 0.5%float;
             expectedAgreement := 0.25%float;
             kappa := 0x1.5555555555555p-2%float;
             matrix := [[1; 0; 0]; [0; 0; 0]; [0; 0; 0]]%nat |}
  /\ total 3 [[1; 0; 0]; [0; 0; 0]; [0; 0; 0]]%nat = 1%nat
  /\ length seq1 = 2%nat.
Proof.
  split; [apply (bool_decide_unpack _); vm_compute; exact I|].
  split; [vm_compute; reflexivity|]. split; reflexivity.
Qed.

Lemma countIf_some_false P n i :
  (i < n)%nat -> P i = false -> (countIf P n < n)%nat.
Proof.
  induction n as [|n IH]; intros Hi HP; [lia|]. rewrite countIf_S.
  pose proof (countIf_le P n).
  destruct (decide (i = n)) as [->|]; [rewrite HP; lia|].
  assert (countIf P n < n)%nat by (apply IH; [lia|done]).
  destruct (P n); lia.
Qed.

(** Agreement at an index, when annotator1's label is in the set: the two
    positions [indexOf] reports coincide exactly when the labels do. *)
Lemma agreement_with_any_second labels (seq1 seq2 : list string) i :
  within labels seq1 -> (i < length seq1)%nat ->
  (indexOf labels (seq1 !! i) =? indexOf labels (seq2 !! i))
  = bool_decide (seq1 !! i = seq2 !! i).
Proof.
  intros Hw1 Hi.
  destruct (within_lookup _ _ i Hw1 Hi) as (x & Hx & Hin). rewrite Hx.
  pose proof (indexOf_within labels x Hin) as Rx.
  destruct (seq2 !! i) as [y|] eqn:Hy.
  - destruct (decide (y ∈ labels)) as [Hyin|Hyout].
    + by apply indexOf_agree.
    + assert (indexOf labels (Some y) = -1) as ->
        by (simpl; by apply indexOf_from_absent).
      destruct (Z.eqb_spec (indexOf labels (Some x)) (-1)); [lia|].
      symmetry. apply bool_decide_eq_false_2. intros [= ->]. done.
  - simpl indexOf at 2.
    destruct (Z.eqb_spec (indexOf labels (Some x)) (-1)); [lia|].
    symmetry. by apply bool_decide_eq_false_2.
Qed.

(** C10, amended.  A label outside the label set is never turned into
    another label.  Supplied by annotator1, it makes the call throw, so no
    result is produced.  Supplied by annotator2 while annotator1's labels
    are all in the set, it raises nothing: the call returns, every cell
    counts exactly the pairs that carry its row and column labels, and the
    entries add up to the number of pairs whose annotator2 label is in the
    set, the other pairs being left out, so that the entries add up to
    less than [n] as soon as there is such a pair.  These pairs are still
    counted in [n], the length of annotator1's sequence: the observed
    agreement is the number of indices with equal labels divided by [n],
    the marginals are the row and column sums of this matrix divided by
    [n], and the expected agreement and kappa are computed from them as
    always. *)
Theorem out_of_set_label_throws_or_is_dropped
  {num : Type} `{Number num} (d : Dimension) (seq1 seq2 : list string) :
  ((exists i x, seq1 !! i = Some x /\ x ∉ labelsOf d) ->
   calculateKappaForCategory seq1 seq2 (labelsOf d) = Throw TypeError)
  /\ (within (labelsOf d) seq1 ->
      exists out,
        calculateKappaForCategory seq1 seq2 (labelsOf d) = Ok out
        /\ (forall r c,
              (r < length (labelsOf d))%nat -> (c < length (labelsOf d))%nat ->
              cell (matrix out) r c
              = countIf (fun i => bool_decide (seq1 !! i = labelsOf d !! r
                                               /\ seq2 !! i = labelsOf d !! c))
                        (length seq1))
        /\ total (length (labelsOf d)) (matrix out)
           = countIf (fun i => inSet (labelsOf d) (seq2 !! i)) (length seq1)
        /\ ((exists i, (i < length seq1)%nat
                       /\ inSet (labelsOf d) (seq2 !! i) = false) ->
            (total (length (labelsOf d)) (matrix out) < length seq1)%nat)
        /\ observedAgreement out
           = div (of_nat (countIf (fun i => bool_decide
                                     (seq1 !! i = seq2 !! i))
                                  (length seq1)))
                 (of_nat (length seq1))
        /\ expectedAgreement out
           = sumProducts
               (fun r => div (of_nat (rowTotal (length (labelsOf d))
                                        (matrix out) r))
                             (of_nat (length seq1)))
               (fun c => div (of_nat (columnTotal (length (labelsOf d))
                                        (matrix out) c))
                             (of_nat (length seq1)))
               (length (labelsOf d))
        /\ kappa out
           = kappaOf (observedAgreement out) (expectedAgreement out)).
Proof.
  split.
  - intros (i & x & Hx & Hout).
    apply (calculate_throws seq1 seq2 (labelsOf d) i).
    + by eapply lookup_lt_Some.
    + rewrite Hx. simpl. by apply indexOf_from_absent.
  - intros Hw1.
    destruct (calculate_closed_form seq1 seq2 (labelsOf d))
      as (out & Hout & HM & HPo & HPe & Hk).
    { intros i Hi. by apply within_found. }
    exists out. split; [done|].
    assert (Htotal : total (length (labelsOf d)) (matrix out)
                     = countIf (fun i => inSet (labelsOf d) (seq2 !! i))
                               (length seq1)).
    { rewrite HM, tallied_total. apply countIf_ext. intros i Hi.
      rewrite <- inSet_found.
      pose proof (within_found _ _ i Hw1 Hi) as Hf.
      apply Z.leb_le in Hf. by rewrite Hf. }
    split; [|split; [done|split; [|split; [|split; [|done]]]]].
    + rewrite HM. intros r c Hr Hc. apply wf_cell; auto using labelsOf_NoDup.
    + intros (i & Hi & Hdrop). rewrite Htotal.
      by apply (countIf_some_false _ _ i).
    + rewrite HPo. do 2 f_equal. apply countIf_ext. intros i Hi.
      by apply agreement_with_any_second.
    + exact HPe.
Qed.

Lemma out_of_set_label_throws_or_is_dropped_witness :
  let seq1 := ["positive"; "negative"]%string in
  let seq2 := ["positive"; "sarcastic"]%string in
  within (labelsOf Sentiment) seq1
  /\ exists out : KappaOut float,
       calculateKappaForCategory seq1 seq2 (labelsOf Sentiment) = Ok out
       /\ total (length (labelsOf Sentiment)) (matrix out)
          = countIf (fun i => inSet (labelsOf Sentiment) (seq2 !! i))
                    (length seq1)
       /\ observedAgreement out
          = div (of_nat (countIf (fun i => bool_decide
                                    (seq1 !! i = seq2 !! i))
                                 (length seq1)))
                (of_nat (length seq1)).
Proof.
  intros seq1 seq2.
  assert (within (labelsOf Sentiment) seq1) as Hw1 by solve_within.
  split; [exact Hw1|].
  destruct (proj2 (out_of_set_label_throws_or_is_dropped
                     (num := float) Sentiment seq1 seq2) Hw1)
    as (out & Hout & _ & Htotal & _ & HPo & _).
  exists out. split; [exact Hout|]. split; [exact Htotal|exact HPo].
Defined.

(** ** Plain objects *)

Lemma get_set_eq {V} (o : object V) k v : get (set o k v) k = Some v.
Proof.
  induction o as [|[k' v'] o IH]; simpl.
  - by rewrite Z.eqb_refl.
  - destruct (Z.eqb_spec k' k) as [->|Hne]; simpl.
    + by rewrite Z.eqb_refl.
    + destruct (Z.eqb_spec k' k); [done|]. exact IH.
Qed.

Lemma get_set_ne {V} (o : object V) k k' v :
  k <> k' -> get (set o k v) k' = get o k'.
Proof.
  intros Hne. induction o as [|[k0 v0] o IH]; simpl.
  - destruct (Z.eqb_spec k k'); [done|]. done.
  - destruct (Z.eqb_spec k0 k) as [->|Hne0]; simpl.
    + destruct (Z.eqb_spec k k'); [done|]. done.
    + destruct (Z.eqb_spec k0 k'); [done|]. exact IH.
Qed.

Lemma set_keys {V} (o : object V) k v :
  (set o k v).*1 = if get o k is Some _ then o.*1 else o.*1 ++ [k].
Proof.
  induction o as [|[k' v'] o IH]; [done|]. cbn [set get].
  destruct (Z.eqb_spec k' k) as [->|Hne]; [done|].
  rewrite !fmap_cons, IH. by destruct (get o k).
Qed.

Lemma get_None_keys {V} (o : object V) k : get o k = None <-> k ∉ o.*1.
Proof.
  induction o as [|[k' v'] o IH]; simpl.
  - split; [intros _; apply not_elem_of_nil|done].
  - rewrite not_elem_of_cons. destruct (Z.eqb_spec k' k) as [->|Hne].
    + split; [done|]. intros [? _]. done.
    + rewrite IH. split; [by split|by intros [_ ?]].
Qed.

Lemma set_NoDup {V} (o : object V) k v : NoDup o.*1 -> NoDup (set o k v).*1.
Proof.
  intros Hnd. rewrite set_keys. destruct (get o k) eqn:E; [done|].
  apply NoDup_app. split; [done|]. split; [|apply NoDup_singleton].
  intros x Hx ->%list_elem_of_singleton. by apply get_None_keys in E.
Qed.

Lemma get_Some_elem {V} (o : object V) k v :
  NoDup o.*1 -> get o k = Some v <-> (k, v) ∈ o.
Proof.
  induction o as [|[k' v'] o IH]; simpl; intros Hnd.
  - split; [done|]. intros []%elem_of_nil.
  - apply NoDup_cons in Hnd as [Hk' Hnd].
    rewrite elem_of_cons. destruct (Z.eqb_spec k' k) as [->|Hne].
    + split; [intros [= ->]; by left|].
      intros [[= ->]|Hin]; [done|]. exfalso. apply Hk'.
      apply list_elem_of_fmap. by exists (k, v).
    + rewrite IH by done. split; [by right|].
      intros [[= -> ->]|Hin]; done.
Qed.

Lemma filter_split_Permutation {A} (f : A -> bool) (l : list A) :
  List.filter f l ++ List.filter (fun x => negb (f x)) l ≡ₚ l.
Proof.
  induction l as [|x l IH]; simpl; [done|].
  destruct (f x); simpl.
  - by rewrite IH.
  - by rewrite <- Permutation_middle, IH.
Qed.

Lemma entries_Permutation {V} (o : object V) : entries o ≡ₚ o.
Proof.
  unfold entries. rewrite merge_sort_Permutation.
  apply filter_split_Permutation.
Qed.

Lemma elem_of_entries {V} (o : object V) k v :
  NoDup o.*1 -> (k, v) ∈ entries o <-> get o k = Some v.
Proof. intros Hnd. by rewrite entries_Permutation, get_Some_elem. Qed.

Lemma entries_NoDup {V} (o : object V) : NoDup o.*1 -> NoDup (entries o).*1.
Proof. intros Hnd. by rewrite entries_Permutation. Qed.

(** ** Pair extraction *)

Lemma judgments_snoc annotations a c r :
  judgments (annotations ++ [a]) c r
  = judgments annotations c r
    ++ if bool_decide (Annotation.comment_id a = c
                       /\ Annotation.annotator_role a = r)
       then [a] else [].
Proof.
  unfold judgments. rewrite List.filter_app. simpl.
  by destruct (bool_decide _).
Qed.

Lemma latest_snoc annotations a c r :
  latest (annotations ++ [a]) c r
  = if bool_decide (Annotation.comment_id a = c
                    /\ Annotation.annotator_role a = r)
    then Some a else latest annotations c r.
Proof.
  unfold latest. rewrite judgments_snoc.
  destruct (bool_decide _); [apply last_snoc|by rewrite app_nil_r].
Qed.

Lemma latest_Some annotations c r a :
  latest annotations c r = Some a ->
  a ∈ annotations /\ Annotation.comment_id a = c
  /\ Annotation.annotator_role a = r.
Proof.
  unfold latest. intros Hl. apply last_Some_elem_of in Hl.
  apply list_elem_of_In, filter_In in Hl as [Hin Hb].
  apply bool_decide_eq_true in Hb. by rewrite list_elem_of_In.
Qed.

Lemma latest_is_Some annotations c r :
  is_Some (latest annotations c r) <-> judgments annotations c r <> [].
Proof.
  unfold latest. destruct (judgments annotations c r) as [|x l] eqn:E.
  - split; [by intros [? ?]|done].
  - split; [done|]. intros _. rewrite last_cons.
    destruct (last l); eauto.
Qed.

Lemma grouped_nil : grouped [] [].
Proof. split; [constructor|]. intros c. simpl. done. Qed.

Lemma grouped_step annotations o a :
  grouped annotations o -> grouped (annotations ++ [a]) (group o a).
Proof.
  intros [Hnd Hinv]. unfold group.
  set (c0 := Annotation.comment_id a). set (r0 := Annotation.annotator_role a).
  set (o1 := match get o c0 with
             | Some _ => o
             | None => set o c0 emptyPair
             end).
  assert (Hnd1 : NoDup o1.*1).
  { unfold o1. destruct (get o c0); [done|by apply set_NoDup]. }
  assert (Hget1 : forall c, c <> c0 -> get o1 c = get o c).
  { intros c Hc. unfold o1. destruct (get o c0); [done|].
    by apply get_set_ne. }
  assert (Hpair : forall r,
            default emptyPair (get o1 c0) r = latest annotations c0 r).
  { intros r. unfold o1. specialize (Hinv c0).
    destruct (get o c0) as [pair|] eqn:E.
    - rewrite E. simpl. by apply Hinv.
    - rewrite get_set_eq. simpl. by rewrite Hinv. }
  split; [by apply set_NoDup|].
  intros c. destruct (decide (c = c0)) as [->|Hc].
  - rewrite get_set_eq. split.
    + intros r. rewrite latest_snoc. unfold setRole. fold c0 r0.
      destruct (decide (r = r0)) as [->|Hr].
      * by rewrite bool_decide_eq_true_2.
      * rewrite bool_decide_eq_false_2 by (intros [_ ?]; done).
        apply Hpair.
    + exists r0. rewrite latest_snoc. fold c0 r0.
      rewrite bool_decide_eq_true_2 by done. eauto.
  - rewrite get_set_ne by done. rewrite Hget1 by done.
    specialize (Hinv c).
    assert (Hsame : forall r,
              latest (annotations ++ [a]) c r = latest annotations c r).
    { intros r. rewrite latest_snoc. fold c0.
      by rewrite bool_decide_eq_false_2 by (intros [? _]; done). }
    destruct (get o c) as [pair|].
    + destruct Hinv as [Hp [r Hr]]. split.
      * intros r'. by rewrite Hsame.
      * exists r. by rewrite Hsame.
    + intros r. by rewrite Hsame.
Qed.

Lemma grouped_commentAnnotations annotations :
  grouped annotations (commentAnnotations annotations).
Proof.
  unfold commentAnnotations.
  induction annotations as [|a annotations IH] using rev_ind.
  - apply grouped_nil.
  - rewrite foldl_app. simpl. by apply grouped_step.
Qed.

Lemma filter_fmap_snd {A B} (f : B -> bool) (l : list (A * B)) :
  List.filter f l.*2 = (List.filter (fun e => f e.2) l).*2.
Proof.
  induction l as [|[a b] l IH]; [done|].
  rewrite fmap_cons. cbn [List.filter snd].
  destruct (f b); [rewrite fmap_cons|]; by rewrite IH.
Qed.

Lemma completePairs_entries annotations :
  completePairs annotations = (completeEntries annotations).*2.
Proof. unfold completePairs, values. apply filter_fmap_snd. Qed.

Lemma elem_of_completeEntries annotations c pair :
  (c, pair) ∈ completeEntries annotations
  <-> get (commentAnnotations annotations) c = Some pair
      /\ complete pair = true.
Proof.
  destruct (grouped_commentAnnotations annotations) as [Hnd _].
  unfold completeEntries.
  rewrite list_elem_of_In, filter_In, <- list_elem_of_In.
  by rewrite elem_of_entries.
Qed.

Lemma completeEntries_spec annotations c pair :
  (c, pair) ∈ completeEntries annotations ->
  exists a b,
    pair annotator1 = Some a /\ pair annotator2 = Some b
    /\ latest annotations c annotator1 = Some a
    /\ latest annotations c annotator2 = Some b.
Proof.
  intros [Hget Hc]%elem_of_completeEntries.
  destruct (grouped_commentAnnotations annotations) as [_ Hinv].
  specialize (Hinv c). rewrite Hget in Hinv. destruct Hinv as [Hp _].
  apply andb_prop in Hc as [[a Ha]%bool_decide_eq_true
                              [b Hb]%bool_decide_eq_true].
  exists a, b. by rewrite <- !Hp.
Qed.

Lemma completeEntries_intro annotations c :
  is_Some (latest annotations c annotator1) ->
  is_Some (latest annotations c annotator2) ->
  exists pair, (c, pair) ∈ completeEntries annotations.
Proof.
  intros H1 H2.
  destruct (grouped_commentAnnotations annotations) as [_ Hinv].
  specialize (Hinv c).
  destruct (get (commentAnnotations annotations) c) as [pair|] eqn:E.
  - exists pair. apply elem_of_completeEntries. split; [done|].
    destruct Hinv as [Hp _]. unfold complete. rewrite !Hp.
    by rewrite !bool_decide_eq_true_2.
  - rewrite Hinv in H1. by destruct H1.
Qed.

Lemma completeEntries_NoDup annotations :
  NoDup (completeEntries annotations).*1.
Proof.
  destruct (grouped_commentAnnotations annotations) as [Hnd _].
  apply entries_NoDup in Hnd. unfold completeEntries.
  induction (entries (commentAnnotations annotations)) as [|[k v] l IH];
    simpl; [constructor|].
  apply NoDup_cons in Hnd as [Hk Hnd].
  destruct (complete v); simpl; [|by apply IH].
  apply NoDup_cons. split; [|by apply IH].
  intros Hin. apply Hk.
  apply list_elem_of_fmap in Hin as ([k' v'] & -> & Hin).
  apply list_elem_of_In, filter_In in Hin as [Hin _].
  apply list_elem_of_fmap. exists (k', v'). by rewrite list_elem_of_In.
Qed.

Lemma completeEntries_itemOf annotations :
  itemOf <$> completePairs annotations
  = Some <$> (completeEntries annotations).*1.
Proof.
  rewrite completePairs_entries, <- !list_fmap_compose.
  apply Forall_fmap_ext_1, Forall_forall. intros [c pair] Hin. simpl.
  destruct (completeEntries_spec _ _ _ Hin) as (a & b & Ha & _ & La & _).
  unfold itemOf. rewrite Ha. simpl.
  by destruct (latest_Some _ _ _ _ La) as (_ & -> & _).
Qed.

Lemma column_Forall2 role field (pairs : list Pair) (chosen : list Annotation.t) :
  Forall2 (fun (pair : Pair) a => pair role = Some a) pairs chosen ->
  column role field pairs = Ok (field <$> chosen).
Proof.
  induction 1 as [|pair a pairs chosen Hpa _ IH]; [done|].
  unfold column in *. cbn [mapM]. rewrite Hpa. cbn [Js.bind].
  rewrite IH. done.
Qed.

Lemma chosen_exists role (pairs : list Pair) :
  Forall (fun pair : Pair => is_Some (pair role)) pairs ->
  exists chosen, Forall2 (fun (pair : Pair) a => pair role = Some a) pairs chosen.
Proof.
  induction 1 as [|pair pairs [a Ha] _ [chosen IH]].
  - by exists [].
  - exists (a :: chosen). by constructor.
Qed.

Lemma completePairs_complete annotations role :
  Forall (fun pair : Pair => is_Some (pair role)) (completePairs annotations).
Proof.
  apply Forall_forall. intros pair Hin.
  apply list_elem_of_In, filter_In in Hin as [_ Hc].
  apply andb_prop in Hc as [H1%bool_decide_eq_true H2%bool_decide_eq_true].
  by destruct role.
Qed.

Lemma completePairs_origin annotations i (pair : Pair) :
  completePairs annotations !! i = Some pair ->
  exists c a b,
    pair annotator1 = Some a /\ pair annotator2 = Some b
    /\ a ∈ annotations /\ b ∈ annotations
    /\ Annotation.annotator_role a = annotator1
    /\ Annotation.annotator_role b = annotator2
    /\ Annotation.comment_id a = c /\ Annotation.comment_id b = c.
Proof.
  rewrite completePairs_entries, list_lookup_fmap.
  destruct (completeEntries annotations !! i) as [[c p]|] eqn:E; [|done].
  simpl. intros [= <-].
  apply list_elem_of_lookup_2 in E.
  destruct (completeEntries_spec _ _ _ E) as (a & b & Ha & Hb & La & Lb).
  apply latest_Some in La as (? & ? & ?).
  apply latest_Some in Lb as (? & ? & ?).
  by exists c, a, b.
Qed.

Lemma atMostOne_one annotations c r :
  atMostOne annotations ->
  is_Some (latest annotations c r) <-> length (judgments annotations c r) = 1%nat.
Proof.
  intros Hone. rewrite latest_is_Some. specialize (Hone c r).
  destruct (judgments annotations c r); simpl in *; split; (done || lia).
Qed.

Lemma calculateKappa_feeds {num : Type} `{Number num} (st : State num)
  (s1 s2 d1 d2 : list string) :
  completePairs (annotations st) <> [] ->
  column annotator1 Annotation.sentiment (completePairs (annotations st))
  = Ok s1 ->
  column annotator2 Annotation.sentiment (completePairs (annotations st))
  = Ok s2 ->
  column annotator1 Annotation.discourse_polarization
    (completePairs (annotations st)) = Ok d1 ->
  column annotator2 Annotation.discourse_polarization
    (completePairs (annotations st)) = Ok d2 ->
  calculateKappa st = scoreSequences st s1 s2 d1 d2.
Proof.
  intros Hne E1 E2 E3 E4. unfold calculateKappa, scoreSequences.
  cbn [setLoading annotations]. rewrite E1, E2, E3, E4.
  destruct (completePairs (annotations st)) as [|pair pairs]; [done|].
  cbn [length Nat.eqb mbind outcome_bind Js.bind].
  destruct (calculateKappaForCategory s1 s2 sentimentLabels) as [sk|e];
    [|done].
  cbn [Js.bind].
  destruct (calculateKappaForCategory d1 d2 discourseLabels) as [dk|e];
    done.
Qed.

Lemma completePairs_item annotations i (pair : Pair) :
  completePairs annotations !! i = Some pair ->
  exists c a b,
    itemOf pair = Some c
    /\ pair annotator1 = Some a /\ pair annotator2 = Some b
    /\ latest annotations c annotator1 = Some a
    /\ latest annotations c annotator2 = Some b.
Proof.
  rewrite completePairs_entries, list_lookup_fmap.
  destruct (completeEntries annotations !! i) as [[c p]|] eqn:E; [|done].
  simpl. intros [= <-].
  apply list_elem_of_lookup_2 in E.
  destruct (completeEntries_spec _ _ _ E) as (a & b & Ha & Hb & La & Lb).
  exists c, a, b. repeat (split; [done|]). split; [|done].
  unfold itemOf. rewrite Ha. simpl.
  by destruct (latest_Some _ _ _ _ La) as (_ & -> & _).
Qed.

Lemma atMostOne_single annotations c r a :
  atMostOne annotations -> latest annotations c r = Some a ->
  judgments annotations c r = [a].
Proof.
  intros Hone. unfold latest. specialize (Hone c r).
  destruct (judgments annotations c r) as [|x [|y l]]; simpl in *;
    [done| |lia].
  by intros [= ->].
Qed.

(** C5. When there is at most one judgment per (item, annotator), an item
    is among the complete pairs of [calculateKappa] exactly when it has one
    judgment from annotator1 and one from annotator2, and no item occurs
    twice.  The four label sequences are built without failure, are as long
    as the list of complete pairs, and are aligned with it: at every index
    they carry the labels of the one judgment of annotator1 and of the one
    judgment of annotator2 on the item of the pair at that index.  So every
    complete item contributes at exactly one index, and no other item
    contributes.  These sequences are the ones handed to the agreement
    computation. *)
Theorem pair_extraction_pairs_same_item
  {num : Type} `{Number num} (st : State num) :
  atMostOne (annotations st) ->
  let pairs := completePairs (annotations st) in
  (forall c : Z,
     Some c ∈ itemOf <$> pairs
     <-> length (judgments (annotations st) c annotator1) = 1%nat
         /\ length (judgments (annotations st) c annotator2) = 1%nat)
  /\ NoDup (itemOf <$> pairs)
  /\ exists s1 s2 d1 d2 : list string,
       column annotator1 Annotation.sentiment pairs = Ok s1
       /\ column annotator2 Annotation.sentiment pairs = Ok s2
       /\ column annotator1 Annotation.discourse_polarization pairs = Ok d1
       /\ column annotator2 Annotation.discourse_polarization pairs = Ok d2
       /\ length s1 = length pairs /\ length s2 = length pairs
       /\ length d1 = length pairs /\ length d2 = length pairs
       /\ (forall i pair, pairs !! i = Some pair ->
             exists (c : Z) (a b : Annotation.t),
               itemOf pair = Some c
               /\ judgments (annotations st) c annotator1 = [a]
               /\ judgments (annotations st) c annotator2 = [b]
               /\ s1 !! i = Some (Annotation.sentiment a)
               /\ s2 !! i = Some (Annotation.sentiment b)
               /\ d1 !! i = Some (Annotation.discourse_polarization a)
               /\ d2 !! i = Some (Annotation.discourse_polarization b))
       /\ (forall i, (i < length pairs)%nat ->
             exists a b : Annotation.t,
               a ∈ annotations st /\ b ∈ annotations st
               /\ Annotation.annotator_role a = annotator1
               /\ Annotation.annotator_role b = annotator2
               /\ Annotation.comment_id a = Annotation.comment_id b
               /\ s1 !! i = Some (Annotation.sentiment a)
               /\ s2 !! i = Some (Annotation.sentiment b)
               /\ d1 !! i = Some (Annotation.discourse_polarization a)
               /\ d2 !! i = Some (Annotation.discourse_polarization b))
       /\ (pairs <> [] ->
           calculateKappa st = scoreSequences st s1 s2 d1 d2).
Proof.
  intros Hone pairs. set (annotations := annotations st) in *.
  split; [|split].
  - intros c. unfold pairs. rewrite completeEntries_itemOf.
    rewrite <- !(atMostOne_one annotations c _ Hone). split.
    + intros (c' & [= <-] & Hin)%list_elem_of_fmap.
      apply list_elem_of_fmap in Hin as ([c' pair] & -> & Hin).
      destruct (completeEntries_spec _ _ _ Hin) as (a & b & _ & _ & La & Lb).
      simpl. rewrite La, Lb. eauto.
    + intros [H1 H2].
      destruct (completeEntries_intro annotations c H1 H2) as [pair Hin].
      apply list_elem_of_fmap. exists c. split; [done|].
      apply list_elem_of_fmap. by exists (c, pair).
  - unfold pairs. rewrite completeEntries_itemOf.
    apply (NoDup_fmap_2 _), completeEntries_NoDup.
  - destruct (chosen_exists annotator1 pairs
                (completePairs_complete annotations annotator1)) as [A HA].
    destruct (chosen_exists annotator2 pairs
                (completePairs_complete annotations annotator2)) as [B HB].
    exists (Annotation.sentiment <$> A), (Annotation.sentiment <$> B),
      (Annotation.discourse_polarization <$> A),
      (Annotation.discourse_polarization <$> B).
    pose proof (column_Forall2 annotator1 Annotation.sentiment _ _ HA) as E1.
    pose proof (column_Forall2 annotator2 Annotation.sentiment _ _ HB) as E2.
    pose proof (column_Forall2 annotator1 Annotation.discourse_polarization
                  _ _ HA) as E3.
    pose proof (column_Forall2 annotator2 Annotation.discourse_polarization
                  _ _ HB) as E4.
    rewrite !length_fmap.
    rewrite <- (Forall2_length _ _ _ HA), <- (Forall2_length _ _ _ HB).
    do 8 (split; [done|]). split; [|split].
    + intros i pair Hpair.
      destruct (completePairs_item annotations i pair Hpair)
        as (c & a & b & Hc & Ha & Hb & La & Lb).
      destruct (Forall2_lookup_l _ _ _ _ _ HA Hpair) as (a' & HA' & Ha').
      destruct (Forall2_lookup_l _ _ _ _ _ HB Hpair) as (b' & HB' & Hb').
      assert (a' = a) as -> by congruence.
      assert (b' = b) as -> by congruence.
      exists c, a, b. rewrite !list_lookup_fmap, HA', HB'.
      split; [done|].
      split; [by apply atMostOne_single|].
      split; [by apply atMostOne_single|]. done.
    + intros i Hi.
      destruct (lookup_lt_is_Some_2 pairs i Hi) as [pair Hpair].
      destruct (completePairs_origin annotations i pair Hpair)
        as (c & a & b & Ha & Hb & Hina & Hinb & Hra & Hrb & Hca & Hcb).
      destruct (Forall2_lookup_l _ _ _ _ _ HA Hpair) as (a' & HA' & Ha').
      destruct (Forall2_lookup_l _ _ _ _ _ HB Hpair) as (b' & HB' & Hb').
      assert (a' = a) as -> by congruence.
      assert (b' = b) as -> by congruence.
      exists a, b. rewrite !list_lookup_fmap, HA', HB'.
      repeat (split; [done|]). split; [congruence|]. done.
    + intros Hne. by apply calculateKappa_feeds.
Qed.

(** C8. When no item has judgments from both annotators, [calculateKappa]
    shows its message, returns, and leaves [kappaResults] as it was: no
    agreement result is produced for either dimension. *)
Theorem no_complete_pair_refused
  {num : Type} `{Number num} (st : State num) :
  (forall c : Z,
     judgments (annotations st) c annotator1 = []
     \/ judgments (annotations st) c annotator2 = []) ->
  calculateKappa st
  = ({| annotations := annotations st;
        kappaResults := kappaResults st;
        loading := false;
        alerts := alerts st ++ [noPairsMessage] |},
     Ok ()).
Proof.
  intros Hnone. unfold calculateKappa.
  cbn [setLoading annotations].
  assert (completePairs (annotations st) = []) as ->; [|done].
  destruct (completePairs (annotations st)) as [|pair pairs] eqn:E; [done|].
  exfalso.
  destruct (completePairs_origin (annotations st) 0 pair)
    as (c & a & b & _ & _ & Hina & Hinb & Hra & Hrb & Hca & Hcb);
    [by rewrite E|].
  assert (forall x r, x ∈ annotations st -> Annotation.comment_id x = c ->
            Annotation.annotator_role x = r ->
            judgments (annotations st) c r <> []) as Hmem.
  { intros x r Hin Hc Hr Hnil.
    assert (x ∈ judgments (annotations st) c r) as Hx.
    { apply list_elem_of_In, filter_In. rewrite <- list_elem_of_In.
      split; [done|]. by apply bool_decide_eq_true_2. }
    rewrite Hnil in Hx. by apply elem_of_nil in Hx. }
  destruct (Hnone c) as [Hn|Hn]; [by apply (Hmem a annotator1) in Hn|].
  by apply (Hmem b annotator2) in Hn.
Qed.

Lemma pair_extraction_pairs_same_item_witness :
  let mk := fun i c r s d =>
    {| Annotation.id := i; Annotation.comment_id := c;
       Annotation.annotator_role := r; Annotation.sentiment := s;
       Annotation.discourse_polarization := d;
       Annotation.created_at := "2024-01-01"%string |} in
  let st : State Q :=
    {| annotations :=
         [mk 1 7 annotator1 "positive" "partisan";
          mk 2 7 annotator2 "neutral" "partisan";
          mk 3 9 annotator1 "negative" "objective"]%string;
       kappaResults := None; loading := false; alerts := [] |} in
  atMostOne (annotations st)
  /\ (forall c : Z,
        Some c ∈ itemOf <$> completePairs (annotations st)
        <-> length (judgments (annotations st) c annotator1) = 1%nat
            /\ length (judgments (annotations st) c annotator2) = 1%nat)
  /\ NoDup (itemOf <$> completePairs (annotations st)).
Proof.
  intros mk st.
  assert (atMostOne (annotations st)) as Hone.
  { intros c r. unfold judgments. simpl.
    repeat case_bool_decide; simpl in *; try lia;
      repeat match goal with H : _ /\ _ |- _ => destruct H end;
      congruence. }
  split; [exact Hone|].
  destruct (pair_extraction_pairs_same_item st Hone) as (Hiff & Hnd & _).
  split; [exact Hiff|exact Hnd].
Defined.

Lemma no_complete_pair_refused_witness :
  let mk := fun i c r s d =>
    {| Annotation.id := i; Annotation.comment_id := c;
       Annotation.annotator_role := r; Annotation.sentiment := s;
       Annotation.discourse_polarization := d;
       Annotation.created_at := "2024-01-01"%string |} in
  let st : State Q :=
    {| annotations := [mk 1 7 annotator1 "positive" "partisan";
                       mk 2 9 annotator2 "neutral" "partisan"]%string;
       kappaResults := None; loading := false; alerts := [] |} in
  (forall c : Z,
     judgments (annotations st) c annotator1 = []
     \/ judgments (annotations st) c annotator2 = [])
  /\ calculateKappa st
     = ({| annotations := annotations st; kappaResults := None;
           loading := false; alerts := [noPairsMessage] |}, Ok ()).
Proof.
  intros mk st.
  assert (forall c : Z,
            judgments (annotations st) c annotator1 = []
            \/ judgments (annotations st) c annotator2 = []) as Hnone.
  { intros c. unfold judgments. simpl.
    repeat case_bool_decide; simpl in *; auto;
      repeat match goal with H : _ /\ _ |- _ => destruct H end;
      congruence. }
  split; [exact Hnone|].
  exact (no_complete_pair_refused st Hnone).
Defined.

(** ** Adjudication queue *)

Lemma hasDisagreement_two a b :
  Adj.hasDisagreement [a; b] = bool_decide (differ a b).
Proof.
  destruct (bool_decide (differ a b)) eqn:E.
  - apply bool_decide_eq_true in E. unfold Adj.hasDisagreement. simpl.
    apply orb_true_iff.
    destruct E; [left|right]; apply negb_true_iff, bool_decide_eq_false;
      congruence.
  - apply bool_decide_eq_false in E. unfold Adj.hasDisagreement. simpl.
    apply orb_false_iff.
    split; apply negb_false_iff, bool_decide_eq_true; f_equal.
    + destruct (decide (Annotation.sentiment a = Annotation.sentiment b));
        [done|]. exfalso. apply E. by left.
    + destruct (decide (Annotation.discourse_polarization a
                        = Annotation.discourse_polarization b)); [done|].
      exfalso. apply E. by right.
Qed.

(** C6. On a list of exactly two judgments [hasDisagreement] is true if and
    only if the two differ on sentiment or on discourse polarization, by
    exact equality of the labels; on fewer than two it is false. *)
Theorem hasDisagreement_iff_labels_differ (annotations : list Annotation.t) :
  (forall a b : Annotation.t,
     annotations = [a; b] ->
     Adj.hasDisagreement annotations = true
     <-> Annotation.sentiment a <> Annotation.sentiment b
         \/ Annotation.discourse_polarization a
            <> Annotation.discourse_polarization b)
  /\ ((length annotations < 2)%nat -> Adj.hasDisagreement annotations = false).
Proof.
  split.
  - intros a b ->. rewrite hasDisagreement_two. apply bool_decide_eq_true.
  - intros Hlt. unfold Adj.hasDisagreement.
    apply Nat.ltb_lt in Hlt. by rewrite Hlt.
Qed.

Lemma findIndex_from_found {A} (p : option A -> bool) (l : list (option A))
  (s : Z) (i : nat) (x : option A) :
  l !! i = Some x -> p x = true ->
  (forall j y, (j < i)%nat -> l !! j = Some y -> p y = false) ->
  findIndex_from p l s = s + Z.of_nat i.
Proof.
  revert s i. induction l as [|y l IH]; intros s i Hi Hp Hlow; [done|].
  simpl. destruct i as [|i]; simpl in Hi.
  - injection Hi as ->. rewrite Hp. lia.
  - rewrite (Hlow 0%nat y) by (done || lia).
    rewrite (IH (s + 1) i Hi Hp); [lia|].
    intros j z Hj Hz. apply (Hlow (S j) z); [lia|done].
Qed.

Lemma findIndex_from_none {A} (p : option A -> bool) (l : list (option A))
  (s : Z) :
  (forall i x, l !! i = Some x -> p x = false) ->
  findIndex_from p l s = -1.
Proof.
  revert s. induction l as [|y l IH]; intros s Hnone; [done|].
  simpl. rewrite (Hnone 0%nat y) by done.
  apply IH. intros i x Hi. apply (Hnone (S i) x Hi).
Qed.

Lemma findIndex_found {A} (p : option A -> bool) (l : list (option A))
  (i : nat) (x : option A) :
  l !! i = Some x -> p x = true ->
  (forall j y, (j < i)%nat -> l !! j = Some y -> p y = false) ->
  findIndex p l = Z.of_nat i.
Proof. intros. unfold findIndex. by erewrite findIndex_from_found. Qed.

Lemma findIndex_none {A} (p : option A -> bool) (l : list (option A)) :
  (forall i x, l !! i = Some x -> p x = false) -> findIndex p l = -1.
Proof. apply findIndex_from_none. Qed.

Section Queue.
Variable st : Adj.State.

Lemma isOpenDisagreement_state c :
  Adj.isOpenDisagreement st (Some c) = true
  <-> stateOf st c = COMPLETE_DISAGREE.
Proof.
  unfold Adj.isOpenDisagreement, stateOf.
  destruct (get (Adj.finalAnnotations st) (Comment.id c)) as [f|].
  - rewrite bool_decide_eq_true_2 by eauto.
    rewrite andb_false_r. simpl. split; discriminate.
  - rewrite bool_decide_eq_false_2 by (by intros [? ?]).
    destruct (default [] (get (Adj.annotations st) (Comment.id c)))
      as [|a [|b [|x l]]]; simpl; try (split; discriminate).
    rewrite hasDisagreement_two.
    destruct (decide (differ a b)) as [Hd|Hd].
    + by rewrite bool_decide_eq_true_2.
    + rewrite bool_decide_eq_false_2 by done. split; discriminate.
Qed.

Lemma isUnfinished_state c :
  Adj.isUnfinished st (Some c) = true
  <-> stateOf st c = COMPLETE_DISAGREE \/ stateOf st c = COMPLETE_AGREE.
Proof.
  unfold Adj.isUnfinished, stateOf.
  destruct (get (Adj.finalAnnotations st) (Comment.id c)) as [f|].
  - rewrite bool_decide_eq_true_2 by eauto.
    rewrite andb_false_r. split; [discriminate|]. intros [?|?]; discriminate.
  - rewrite bool_decide_eq_false_2 by (by intros [? ?]).
    destruct (default [] (get (Adj.annotations st) (Comment.id c)))
      as [|a [|b [|x l]]]; simpl;
      try (split; [discriminate|intros [?|?]; discriminate]).
    destruct (decide (differ a b)); split; auto.
Qed.

(** An item in a complete state forces the annotation map to have a key,
    so the second conjunct of the effect's guard is then open. *)
Lemma complete_has_keys c :
  stateOf st c = COMPLETE_DISAGREE \/ stateOf st c = COMPLETE_AGREE ->
  (0 <? length (keys (Adj.annotations st)))%nat = true.
Proof.
  intros Hs. apply Nat.ltb_lt. unfold keys.
  rewrite length_fmap, (Permutation_length (entries_Permutation _)).
  unfold stateOf in Hs.
  destruct (get (Adj.finalAnnotations st) (Comment.id c));
    [destruct Hs; discriminate|].
  destruct (Adj.annotations st) as [|e o]; simpl in *; [|lia].
  destruct Hs; discriminate.
Qed.

Lemma not_inState_false (p : option Comment.t -> bool) (s : QueueState) :
  (forall c, p (Some c) = true -> stateOf st c = s) ->
  p None = false ->
  (forall i, ~ inState st s i) ->
  forall i x, Adj.comments st !! i = Some x -> p x = false.
Proof.
  intros Hp HNone Hno i [c|] Hi; [|done].
  destruct (p (Some c)) eqn:E; [|done].
  exfalso. apply (Hno i). exists c. split; [done|]. by apply Hp.
Qed.

End Queue.

(** C7, as stated, fails.  The effect is gated on the total item count:
    with [totalComments = 0] (what [count || 0] stores when the count is
    unavailable) it selects nothing, although the only loaded item has two
    conflicting judgments and no final decision. *)
Lemma navigation_gate_closed :
  let a :=
    {| Annotation.id := 1; Annotation.comment_id := 5;
       Annotation.annotator_role := annotator1;
       Annotation.sentiment := "positive";
       Annotation.discourse_polarization := "partisan";
       Annotation.created_at := "2024-01-01" |}%string in
  let b :=
    {| Annotation.id := 2; Annotation.comment_id := 5;
       Annotation.annotator_role := annotator2;
       Annotation.sentiment := "negative";
       Annotation.discourse_polarization := "partisan";
       Annotation.created_at := "2024-01-01" |}%string in
  let item :=
    {| Comment.id := 5; Comment.unique_comment_id := "c-5";
       Comment.context_title := "title"; Comment.text := "text";
       Comment.likes := 0; Comment.post_url := None;
       Comment.created_at := "2024-01-01" |}%string in
  let st :=
    {| Adj.comments := [Some item]; Adj.totalComments := 0;
       Adj.annotations := [(5, [a; b])]; Adj.finalAnnotations := [];
       Adj.currentCommentIndex := 0 |} in
  lowest (inState st COMPLETE_DISAGREE) 0
  /\ Adj.target st = None
  /\ Adj.navigate st = st.
Proof.
  intros a b item st. split; [|split; reflexivity].
  split; [|intros j Hj; lia].
  exists item. split; [reflexivity|]. unfold stateOf. simpl.
  destruct (decide (differ a b)) as [|Hn]; [done|].
  exfalso. apply Hn. left. simpl. discriminate.
Qed.

(** C7, amended.  When the total item count is positive, the effect selects
    the lowest index holding an item with exactly two judgments, no final
    decision and a disagreement; if there is none, the lowest index holding
    an item with exactly two judgments and no final decision; if there is
    none either, it selects nothing.  When the total item count is not
    positive it selects nothing. *)
Theorem navigation_selects_lowest_open_item (st : Adj.State) :
  (0 < Adj.totalComments st ->
   (forall i, lowest (inState st COMPLETE_DISAGREE) i ->
              Adj.target st = Some (Z.of_nat i))
   /\ ((forall i, ~ inState st COMPLETE_DISAGREE i) ->
       forall i, lowest (inState st COMPLETE_AGREE) i ->
                 Adj.target st = Some (Z.of_nat i))
   /\ ((forall i, ~ inState st COMPLETE_DISAGREE i) ->
       (forall i, ~ inState st COMPLETE_AGREE i) ->
       Adj.target st = None))
  /\ (Adj.totalComments st <= 0 -> Adj.target st = None)
  /\ Adj.navigate st
     = match Adj.target st with
       | Some i => Adj.setCurrentCommentIndex i st
       | None => st
       end.
Proof.
  split; [|split; [|reflexivity]].
  - intros Hpos. apply Z.ltb_lt in Hpos.
    assert (Hlow : forall (p : option Comment.t -> bool) s i,
              (forall c, p (Some c) = true <-> stateOf st c = s) ->
              p None = false ->
              lowest (inState st s) i ->
              Js.findIndex p (Adj.comments st) = Z.of_nat i).
    { intros p s i Hp HNone [(c & Hc & Hs) Hmin].
      apply (findIndex_found p _ i (Some c)); [done|by apply Hp|].
      intros j [c'|] Hj Hy; [|done].
      destruct (p (Some c')) eqn:E; [|done].
      exfalso. apply (Hmin j Hj). exists c'. split; [done|]. by apply Hp. }
    split; [|split].
    + intros i Hi. unfold Adj.target. rewrite Hpos.
      destruct Hi as [(c & Hc & Hs) Hmin].
      rewrite (complete_has_keys st c) by auto. cbn [andb].
      rewrite (Hlow (Adj.isOpenDisagreement st) COMPLETE_DISAGREE i);
        [|apply isOpenDisagreement_state|done|split; [by exists c|done]].
      destruct (Z.eqb_spec (Z.of_nat i) (-1)); [lia|done].
    + intros Hno i Hi. unfold Adj.target. rewrite Hpos.
      destruct Hi as [(c & Hc & Hs) Hmin].
      rewrite (complete_has_keys st c) by auto. cbn [andb].
      rewrite (findIndex_none (Adj.isOpenDisagreement st)).
      2:{ apply (not_inState_false st _ COMPLETE_DISAGREE); [|done|done].
          intros c'. apply isOpenDisagreement_state. }
      cbn [Z.eqb negb].
      rewrite (findIndex_found (Adj.isUnfinished st) _ i (Some c)); [|done| |].
      * destruct (Z.eqb_spec (Z.of_nat i) (-1)); [lia|done].
      * apply isUnfinished_state. auto.
      * intros j [c'|] Hj Hy; [|done].
        destruct (Adj.isUnfinished st (Some c')) eqn:E; [|done].
        exfalso. apply isUnfinished_state in E as [E|E].
        -- apply (Hno j). by exists c'.
        -- apply (Hmin j Hj). by exists c'.
    + intros Hno1 Hno2. unfold Adj.target.
      destruct (_ && _); [|done].
      rewrite (findIndex_none (Adj.isOpenDisagreement st)).
      2:{ apply (not_inState_false st _ COMPLETE_DISAGREE); [|done|done].
          intros c'. apply isOpenDisagreement_state. }
      cbn [Z.eqb negb].
      rewrite (findIndex_none (Adj.isUnfinished st)); [done|].
      intros i [c|] Hi; [|done].
      destruct (Adj.isUnfinished st (Some c)) eqn:E; [|done].
      exfalso. apply isUnfinished_state in E as [E|E].
      * apply (Hno1 i). by exists c.
      * apply (Hno2 i). by exists c.
  - intros Hle. unfold Adj.target.
    destruct (Z.ltb_spec 0 (Adj.totalComments st)); [lia|done].
Qed.

Lemma navigation_selects_lowest_open_item_witness :
  let judgment := fun i c r s d =>
    {| Annotation.id := i; Annotation.comment_id := c;
       Annotation.annotator_role := r; Annotation.sentiment := s;
       Annotation.discourse_polarization := d;
       Annotation.created_at := "2024-01-01"%string |} in
  let item := fun i =>
    {| Comment.id := i; Comment.unique_comment_id := "c"%string;
       Comment.context_title := "title"%string; Comment.text := "text"%string;
       Comment.likes := 0; Comment.post_url := None;
       Comment.created_at := "2024-01-01"%string |} in
  let st :=
    {| Adj.comments := [Some (item 1); Some (item 2); Some (item 3)];
       Adj.totalComments := 3;
       Adj.annotations :=
         [(1, [judgment 1 1 annotator1 "positive" "partisan";
               judgment 2 1 annotator2 "positive" "partisan"]);
          (2, [judgment 3 2 annotator1 "positive" "partisan";
               judgment 4 2 annotator2 "positive" "objective"]);
          (3, [judgment 5 3 annotator1 "negative" "partisan";
               judgment 6 3 annotator2 "neutral" "partisan"])]%string;
       Adj.finalAnnotations := [];
       Adj.currentCommentIndex := 0 |} in
  0 < Adj.totalComments st
  /\ lowest (inState st COMPLETE_DISAGREE) 1
  /\ Adj.target st = Some 1.
Proof.
  intros judgment item st.
  assert (0 < Adj.totalComments st) as Hpos by reflexivity.
  assert (lowest (inState st COMPLETE_DISAGREE) 1) as Hlow.
  { split.
    - exists (item 2). split; reflexivity.
    - intros j Hj (c & Hc & Hs).
      assert (j = 0%nat) as -> by lia.
      injection Hc as <-. discriminate Hs. }
  split; [exact Hpos|]. split; [exact Hlow|].
  exact (proj1 (proj1 (navigation_selects_lowest_open_item st) Hpos) 1%nat Hlow).
Defined.

(** ** Worked examples *)

(** The two examples of the specification, over the label set [[A, B]],
    evaluated in binary64. *)
Example split_agreement :
  calculateKappaForCategory (num := float)
    ["A"; "A"; "B"; "B"]%string ["A"; "B"; "A"; "B"]%string ["A"; "B"]%string
  = Ok {| observedAgreement := 0.5%float; expectedAgreement := 0.5%float;
          kappa := 0%float; matrix := [[1; 1]; [1; 1]]%nat |}.
Proof. vm_compute. reflexivity. Qed.

Example full_agreement_one_label :
  calculateKappaForCategory (num := float)
    ["A"; "A"; "A"; "A"]%string ["A"; "A"; "A"; "A"]%string ["A"; "B"]%string
  = Ok {| observedAgreement := 1%float; expectedAgreement := 1%float;
          kappa := 1%float; matrix := [[4; 0]; [0; 0]]%nat |}.
Proof. vm_compute. reflexivity. Qed.

(** An unknown label from annotator1 makes the call throw. *)
Example unknown_first_label_throws :
  calculateKappaForCategory (num := float)
    ["positive"; "sarcastic"]%string ["positive"; "negative"]%string
    sentimentLabels
  = Throw TypeError.
Proof. vm_compute. reflexivity. Qed.

(** [Object.values]: array-index keys ascending, then the others in
    creation order. *)
Example values_order :
  values (set (set (set (set [] 5 "a") (-1) "b") 3 "c") 5 "d")%string
  = ["c"; "d"; "b"]%string.
Proof. vm_compute. reflexivity. Qed.

(** Judgments that agree on sentiment and differ on discourse disagree. *)
Example discourse_alone_disagrees :
  Adj.hasDisagreement
    [{| Annotation.id := 1; Annotation.comment_id := 4;
        Annotation.annotator_role := annotator1;
        Annotation.sentiment := "positive";
        Annotation.discourse_polarization := "partisan";
        Annotation.created_at := "2024-01-01" |};
     {| Annotation.id := 2; Annotation.comment_id := 4;
        Annotation.annotator_role := annotator2;
        Annotation.sentiment := "positive";
        Annotation.discourse_polarization := "objective";
        Annotation.created_at := "2024-01-01" |}]%string
  = true.
Proof. vm_compute. reflexivity. Qed.

(** A full run of the click handler in binary64.  Item 8 has one judgment
    and is left out; the pairs come in ascending item order (7 before 9),
    whatever the order of the input. *)
Example calculateKappa_run :
  let mk := fun i c r s d =>
    {| Annotation.id := i; Annotation.comment_id := c;
       Annotation.annotator_role := r; Annotation.sentiment := s;
       Annotation.discourse_polarization := d;
       Annotation.created_at := "2024-01-01"%string |} in
  let st : State float :=
    {| annotations :=
         [mk 1 9 annotator1 "positive" "partisan";
          mk 2 9 annotator2 "neutral" "partisan";
          mk 3 7 annotator1 "negative" "objective";
          mk 4 7 annotator2 "negative" "non_polarized";
          mk 5 8 annotator1 "negative" "objective"]%string;
       kappaResults := None; loading := false; alerts := [] |} in
  column annotator1 Annotation.sentiment (completePairs (annotations st))
  = Ok ["negative"; "positive"]%string
  /\ (calculateKappa st).2 = Ok ()
  /\ loading (calculateKappa st).1 = false
  /\ kappaResults (calculateKappa st).1
     = Some
         {| sentiment :=
              {| scores :=
                   {| observedAgreement := 0.5%float;
                      expectedAgreement := 0.25%float;
                      kappa := 0x1.5555555555555p-2%float;
                      matrix := [[0; 0; 1]; [0; 1; 0]; [0; 0; 0]]%nat |};
                 labels := sentimentLabels |};
            discoursePolarization :=
              {| scores :=
                   {| observedAgreement := 0.5%float;
                      expectedAgreement := 0.25%float;
                      kappa := 0x1.5555555555555p-2%float;
                      matrix := [[1; 0; 0]; [0; 0; 1]; [0; 0; 0]]%nat |};
                 labels := discourseLabels |} |}.
Proof. repeat split; vm_compute; reflexivity. Qed.

(** * Further properties *)

(** ** [getAnnotationCounts] *)

Lemma linked_get {V1 V2} (P : V1 -> V2 -> Prop) o1 o2 k :
  linked P o1 o2 -> option_Forall2 P (get o1 k) (get o2 k).
Proof.
  induction 1 as [|[k1 v1] [k2 v2] o1 o2 [Hk HP] _ IH]; simpl in *.
  - constructor.
  - subst k2. destruct (k1 =? k); [by constructor|done].
Qed.

Lemma linked_set {V1 V2} (P : V1 -> V2 -> Prop) o1 o2 k v1 v2 :
  linked P o1 o2 -> P v1 v2 -> linked P (set o1 k v1) (set o2 k v2).
Proof.
  intros Hl HP.
  induction Hl as [|[k1 w1] [k2 w2] o1 o2 [Hk Hw] Hl IH]; simpl in *.
  - by repeat constructor.
  - subst k2. destruct (k1 =? k); constructor; auto.
Qed.

Lemma linked_keys {V1 V2} (P : V1 -> V2 -> Prop) o1 o2 :
  linked P o1 o2 -> o1.*1 = o2.*1.
Proof.
  induction 1 as [|[k1 w1] [k2 w2] o1 o2 [Hk Hw] _ IH]; [done|].
  rewrite !fmap_cons. simpl in *. by rewrite Hk, IH.
Qed.

Lemma linked_filter_length {V1 V2} (P : V1 -> V2 -> Prop)
  (f1 : V1 -> bool) (f2 : V2 -> bool) o1 o2 :
  linked P o1 o2 -> (forall v1 v2, P v1 v2 -> f1 v1 = f2 v2) ->
  length (List.filter f1 o1.*2) = length (List.filter f2 o2.*2).
Proof.
  intros Hl Hf.
  induction Hl as [|[k1 w1] [k2 w2] o1 o2 [Hk Hw] _ IH]; [done|].
  rewrite !fmap_cons. cbn [List.filter snd]. simpl in Hw.
  rewrite (Hf _ _ Hw). destruct (f2 w2); simpl; by rewrite IH.
Qed.

Lemma filter_length_Permutation {A} (f : A -> bool) (l l' : list A) :
  l ≡ₚ l' -> length (List.filter f l) = length (List.filter f l').
Proof.
  induction 1 as [|x l l' _ IH|x y l|l l' l'' _ IH1 _ IH2]; simpl.
  - done.
  - destruct (f x); simpl; by rewrite IH.
  - by destruct (f x), (f y).
  - by rewrite IH1.
Qed.

Lemma values_filter_length {V} (f : V -> bool) (o : object V) :
  length (List.filter f (values o)) = length (List.filter f o.*2).
Proof.
  apply filter_length_Permutation. unfold values.
  by rewrite entries_Permutation.
Qed.

Lemma keys_length {V} (o : object V) : length (keys o) = length o.
Proof.
  unfold keys.
  by rewrite length_fmap, (Permutation_length (entries_Permutation o)).
Qed.

Lemma addRole_sameRoles annotators pair role a :
  sameRoles annotators pair ->
  sameRoles (addRole annotators role) (setRole pair role a).
Proof.
  intros [Hnd Hin]. unfold addRole, setRole.
  case_bool_decide as Hr; split.
  - done.
  - intros r. destruct (decide (r = role)) as [->|]; [|apply Hin].
    split; eauto.
  - apply NoDup_app. split; [done|]. split; [|apply NoDup_singleton].
    intros x Hx ->%list_elem_of_singleton. done.
  - intros r. rewrite elem_of_app, list_elem_of_singleton.
    destruct (decide (r = role)) as [->|Hne]; [split; eauto|].
    rewrite Hin. split; [intros [?|?]; done|auto].
Qed.

Lemma sameRoles_empty : sameRoles [] emptyPair.
Proof.
  split; [constructor|]. intros r. split; [intros []%elem_of_nil|].
  by intros [? ?].
Qed.

(** The counting reducer and the grouping [forEach] walk in step. *)
Lemma counts_linked annotations :
  linked sameRoles (foldl countRole [] annotations)
    (commentAnnotations annotations).
Proof.
  unfold commentAnnotations.
  induction annotations as [|a annotations IH] using rev_ind;
    [constructor|].
  rewrite !foldl_app. cbn [foldl].
  set (o1 := foldl countRole [] annotations) in *.
  set (o2 := foldl group [] annotations) in *.
  unfold countRole, group.
  set (c := Annotation.comment_id a).
  pose proof (linked_get sameRoles o1 o2 c IH) as Hget.
  destruct (get o1 c) as [s|] eqn:E1, (get o2 c) as [p|] eqn:E2;
    inversion Hget as [? ? Hsp|]; subst.
  - rewrite E1, E2. cbn [default from_option]. apply linked_set; [done|].
    by apply addRole_sameRoles.
  - rewrite !get_set_eq. cbn [default from_option].
    apply linked_set; [|apply addRole_sameRoles, sameRoles_empty].
    apply linked_set; [done|apply sameRoles_empty].
Qed.

Lemma sameRoles_complete annotators pair :
  sameRoles annotators pair ->
  (length annotators =? 2)%nat = complete pair.
Proof.
  intros [Hnd Hin]. unfold complete. apply Bool.eq_true_iff_eq.
  rewrite Nat.eqb_eq, andb_true_iff, !bool_decide_eq_true, <- !Hin.
  clear Hin. destruct annotators as [|x [|y [|z l]]].
  - split; [done|]. intros [[]%elem_of_nil _].
  - split; [done|]. intros [H1%list_elem_of_singleton
                              H2%list_elem_of_singleton]. congruence.
  - apply NoDup_cons in Hnd as [Hx _].
    rewrite list_elem_of_singleton in Hx.
    split; [intros _|done]. rewrite !elem_of_cons.
    destruct x, y; try done; split; auto.
  - split; [done|]. intros _. exfalso.
    apply NoDup_cons in Hnd as [Hx Hnd]. apply NoDup_cons in Hnd as [Hy _].
    rewrite not_elem_of_cons in Hx, Hy.
    destruct Hx as (Hxy & Hxz), Hy as (Hyz & _).
    rewrite not_elem_of_cons in Hxz. destruct Hxz as [Hxz _].
    destruct x, y, z; congruence.
Qed.

Lemma filter_length_le {A} (f : A -> bool) (l : list A) :
  (length (List.filter f l) <= length l)%nat.
Proof.
  induction l as [|x l IH]; simpl; [done|]. destruct (f x); simpl; lia.
Qed.

Lemma commentAnnotations_keys annotations c :
  c ∈ (commentAnnotations annotations).*1
  <-> exists a, a ∈ annotations /\ Annotation.comment_id a = c.
Proof.
  destruct (grouped_commentAnnotations annotations) as [_ Hinv].
  specialize (Hinv c). split.
  - intros Hin.
    destruct (get (commentAnnotations annotations) c) as [p|] eqn:E.
    + destruct Hinv as [_ [r [a Ha]]].
      apply latest_Some in Ha as (? & ? & ?). eauto.
    + by apply get_None_keys in E.
  - intros (a & Hin & Hc).
    destruct (get (commentAnnotations annotations) c) as [p|] eqn:E.
    + destruct (decide (c ∈ (commentAnnotations annotations).*1)) as [|Hn];
        [done|]. apply get_None_keys in Hn. congruence.
    + exfalso. specialize (Hinv (Annotation.annotator_role a)).
      assert (is_Some (latest annotations c (Annotation.annotator_role a)))
        as [x Hx]; [|congruence].
      apply latest_is_Some. intros Hnil.
      assert (a ∈ judgments annotations c (Annotation.annotator_role a)) as Ha.
      { apply list_elem_of_In, filter_In. rewrite <- list_elem_of_In.
        split; [done|]. by apply bool_decide_eq_true_2. }
      rewrite Hnil in Ha. by apply elem_of_nil in Ha.
Qed.

(** X1. The number of complete pairs that [getAnnotationCounts] reports
    (and that enables the button) is the number of pairs [calculateKappa]
    extracts; hence it is [0] exactly when [calculateKappa] shows its
    message instead of computing. *)
Theorem counted_pairs_are_extracted_pairs
  {num : Type} `{Number num} (st : State num) :
  Counts.completePairs (getAnnotationCounts (annotations st))
  = length (completePairs (annotations st))
  /\ (Counts.completePairs (getAnnotationCounts (annotations st)) = 0%nat
      <-> alerts (calculateKappa st).1 = alerts st ++ [noPairsMessage]).
Proof.
  assert (Counts.completePairs (getAnnotationCounts (annotations st))
          = length (completePairs (annotations st))) as Hcount.
  { unfold getAnnotationCounts, completePairs. cbn [Counts.completePairs].
    rewrite !values_filter_length.
    apply (linked_filter_length sameRoles); [apply counts_linked|].
    intros s p Hsp. by apply sameRoles_complete. }
  split; [exact Hcount|]. rewrite Hcount. split.
  - intros Hnil. apply length_zero_iff_nil in Hnil.
    unfold calculateKappa. cbn [setLoading annotations]. by rewrite Hnil.
  - intros Halert.
    destruct (completePairs (annotations st)) as [|pair pairs] eqn:E; [done|].
    exfalso.
    destruct (chosen_exists annotator1 _
                (completePairs_complete (annotations st) annotator1))
      as [A HA].
    destruct (chosen_exists annotator2 _
                (completePairs_complete (annotations st) annotator2))
      as [B HB].
    rewrite (calculateKappa_feeds st _ _ _ _ ltac:(by rewrite E)
               (column_Forall2 _ Annotation.sentiment _ _ HA)
               (column_Forall2 _ Annotation.sentiment _ _ HB)
               (column_Forall2 _ Annotation.discourse_polarization _ _ HA)
               (column_Forall2 _ Annotation.discourse_polarization _ _ HB))
      in Halert.
    unfold scoreSequences in Halert.
    assert (forall l : list string, l <> l ++ [noPairsMessage]) as Hneq.
    { intros l Hl. apply (f_equal length) in Hl.
      rewrite length_app in Hl. simpl in Hl. lia. }
    destruct (_ ≫= _) as [[sk dk]|e]; simpl in Halert; by apply Hneq in Halert.
Qed.

(** X2. The item count that [getAnnotationCounts] reports is the number of
    distinct comment ids among the annotations, and the pair count never
    exceeds it, so the coverage shown is at most 100%. *)
Theorem counted_items_are_distinct_ids (annotations : list Annotation.t) :
  Counts.totalComments (getAnnotationCounts annotations)
  = length (remove_dups (Annotation.comment_id <$> annotations))
  /\ (Counts.completePairs (getAnnotationCounts annotations)
      <= Counts.totalComments (getAnnotationCounts annotations))%nat.
Proof.
  unfold getAnnotationCounts.
  cbn [Counts.totalComments Counts.completePairs]. split.
  - rewrite keys_length.
    rewrite <- (length_fmap fst),
      (linked_keys _ _ _ (counts_linked annotations)).
    apply Permutation_length, NoDup_Permutation.
    + by destruct (grouped_commentAnnotations annotations).
    + apply NoDup_remove_dups.
    + intros c. rewrite commentAnnotations_keys, elem_of_remove_dups.
      rewrite list_elem_of_fmap.
      split; intros (a & ? & ?); exists a; by split.
  - rewrite keys_length, values_filter_length.
    etransitivity; [apply filter_length_le|]. by rewrite length_fmap.
Qed.

(** ** [calculateKappa] when there are complete pairs *)

Lemma chosen_origin annotations role (chosen : list Annotation.t) :
  Forall2 (fun (pair : Pair) a => pair role = Some a)
    (completePairs annotations) chosen ->
  Forall (fun a => a ∈ annotations) chosen.
Proof.
  intros HF. apply Forall_lookup. intros i a Ha.
  destruct (Forall2_lookup_r _ _ _ _ _ HF Ha) as (pair & Hpair & Hrole).
  destruct (completePairs_origin annotations i pair Hpair)
    as (c & a1 & a2 & H1 & H2 & Hin1 & Hin2 & _).
  destruct role; congruence.
Qed.

Lemma within_fmap (labels : list string) (field : Annotation.t -> string)
  (annotations chosen : list Annotation.t) :
  Forall (fun a => field a ∈ labels) annotations ->
  Forall (fun a => a ∈ annotations) chosen ->
  within labels (field <$> chosen).
Proof.
  intros Hval Hin. unfold within. apply Forall_fmap.
  eapply Forall_impl; [exact Hin|]. intros a Ha. simpl.
  by apply (proj1 (Forall_forall _ _) Hval).
Qed.

(** X3. With at least one item judged by both annotators and labels from
    the two fixed sets, [calculateKappa] returns normally without showing
    any message, clears [loading], and stores a result for both dimensions
    whose matrices each hold every complete pair exactly once. *)
Theorem complete_pairs_are_scored
  {num : Type} `{Number num} (st : State num) :
  completePairs (annotations st) <> [] ->
  validLabels (annotations st) ->
  exists sentimentKappa discourseKappa : KappaOut num,
    calculateKappa st
    = ({| annotations := annotations st;
          kappaResults :=
            Some {| sentiment :=
                      {| scores := sentimentKappa;
                         labels := sentimentLabels |};
                    discoursePolarization :=
                      {| scores := discourseKappa;
                         labels := discourseLabels |} |};
          loading := false;
          alerts := alerts st |},
       Ok ())
    /\ total 3 (matrix sentimentKappa)
       = length (completePairs (annotations st))
    /\ total 3 (matrix discourseKappa)
       = length (completePairs (annotations st)).
Proof.
  intros Hne Hval.
  destruct (chosen_exists annotator1 _
              (completePairs_complete (annotations st) annotator1))
    as [A HA].
  destruct (chosen_exists annotator2 _
              (completePairs_complete (annotations st) annotator2))
    as [B HB].
  pose proof (chosen_origin _ _ _ HA) as HinA.
  pose proof (chosen_origin _ _ _ HB) as HinB.
  assert (Hs : Forall (fun a => Annotation.sentiment a ∈ sentimentLabels)
                 (annotations st))
    by (eapply Forall_impl; [exact Hval|]; by intros a [? ?]).
  assert (Hd : Forall (fun a => Annotation.discourse_polarization a
                                ∈ discourseLabels) (annotations st))
    by (eapply Forall_impl; [exact Hval|]; by intros a [? ?]).
  pose proof (within_fmap _ Annotation.sentiment _ _ Hs HinA) as Ws1.
  pose proof (within_fmap _ Annotation.sentiment _ _ Hs HinB) as Ws2.
  pose proof (within_fmap _ Annotation.discourse_polarization _ _ Hd HinA)
    as Wd1.
  pose proof (within_fmap _ Annotation.discourse_polarization _ _ Hd HinB)
    as Wd2.
  pose proof (Forall2_length _ _ _ HA) as LA.
  pose proof (Forall2_length _ _ _ HB) as LB.
  destruct (calculate_closed_form (Annotation.sentiment <$> A)
              (Annotation.sentiment <$> B) sentimentLabels)
    as (sk & Hsk & HMs & _).
  { intros i Hi. by apply within_found. }
  destruct (calculate_closed_form (Annotation.discourse_polarization <$> A)
              (Annotation.discourse_polarization <$> B) discourseLabels)
    as (dk & Hdk & HMd & _).
  { intros i Hi. by apply within_found. }
  exists sk, dk. split; [|split].
  - rewrite (calculateKappa_feeds st _ _ _ _ Hne
               (column_Forall2 _ Annotation.sentiment _ _ HA)
               (column_Forall2 _ Annotation.sentiment _ _ HB)
               (column_Forall2 _ Annotation.discourse_polarization _ _ HA)
               (column_Forall2 _ Annotation.discourse_polarization _ _ HB)).
    unfold scoreSequences. rewrite Hsk. cbn [mbind outcome_bind Js.bind].
    rewrite Hdk. reflexivity.
  - rewrite HMs, LA, <- (length_fmap Annotation.sentiment A).
    apply (wf_total sentimentLabels); [|done|done].
    rewrite !length_fmap. lia.
  - rewrite HMd, LA, <- (length_fmap Annotation.discourse_polarization A).
    apply (wf_total discourseLabels); [|done|done].
    rewrite !length_fmap. lia.
Qed.

Lemma complete_pairs_are_scored_witness :
  let mk := fun i c r s d =>
    {| Annotation.id := i; Annotation.comment_id := c;
       Annotation.annotator_role := r; Annotation.sentiment := s;
       Annotation.discourse_polarization := d;
       Annotation.created_at := "2024-01-01"%string |} in
  let st : State float :=
    {| annotations :=
         [mk 1 7 annotator1 "positive" "partisan";
          mk 2 7 annotator2 "neutral" "partisan";
          mk 3 9 annotator1 "negative" "objective"]%string;
       kappaResults := None; loading := false; alerts := [] |} in
  (completePairs (annotations st) <> [] /\ validLabels (annotations st))
  /\ exists sentimentKappa discourseKappa : KappaOut float,
       calculateKappa st
       = ({| annotations := annotations st;
             kappaResults :=
               Some {| sentiment :=
                         {| scores := sentimentKappa;
                            labels := sentimentLabels |};
                       discoursePolarization :=
                         {| scores := discourseKappa;
                            labels := discourseLabels |} |};
             loading := false;
             alerts := alerts st |},
          Ok ())
       /\ total 3 (matrix sentimentKappa)
          = length (completePairs (annotations st))
       /\ total 3 (matrix discourseKappa)
          = length (completePairs (annotations st)).
Proof.
  intros mk st.
  assert (completePairs (annotations st) <> []) as Hne
    by (vm_compute; discriminate).
  assert (validLabels (annotations st)) as Hval
    by (unfold validLabels; apply (bool_decide_unpack _); vm_compute;
        exact I).
  split; [by split|].
  exact (complete_pairs_are_scored st Hne Hval).
Defined.

(** ** Exchanging the two annotators *)

Lemma tallied_swap labels a1 a2 m r c :
  tallied labels a2 a1 m r c = tallied labels a1 a2 m c r.
Proof. apply countIf_ext. intros i _. apply andb_comm. Qed.

Lemma talliedAgreements_swap labels a1 a2 m :
  talliedAgreements labels a2 a1 m = talliedAgreements labels a1 a2 m.
Proof. apply countIf_ext. intros i _. apply Z.eqb_sym. Qed.

Lemma float_mul_comm (x y : float) : PrimFloat.mul x y = PrimFloat.mul y x.
Proof.
  apply Prim2SF_inj. rewrite !FloatAxioms.mul_spec. unfold SF64mul, SpecFloat.SFmul.
  destruct (Prim2SF x) as [sx|sx| |sx mx ex],
    (Prim2SF y) as [sy|sy| |sy my ey];
    rewrite ?(xorb_comm sx sy), ?(Pos.mul_comm mx my), ?(Z.add_comm ex ey);
    reflexivity.
Qed.

Section Symmetry.
Context {num : Type} `{Number num}.
Hypothesis mul_comm : forall x y : num, mul x y = mul y x.
Variables (labels seq1 seq2 : list string).
Hypothesis Hlen : length seq1 = length seq2.
Hypothesis Hw1 : within labels seq1.
Hypothesis Hw2 : within labels seq2.

Lemma symmetric_when_mul_commutes : symmetric num labels seq1 seq2.
Proof.
  destruct (calculate_closed_form (num := num) seq1 seq2 labels)
    as (out & Hout & HM & HPo & HPe & Hk).
  { intros i Hi. by apply within_found. }
  destruct (calculate_closed_form (num := num) seq2 seq1 labels)
    as (out' & Hout' & HM' & HPo' & HPe' & Hk').
  { intros i Hi. by apply within_found. }
  exists out, out'. split; [done|]. split; [done|].
  assert (Hcell : forall r c, (r < length labels)%nat ->
            (c < length labels)%nat ->
            cell (matrix out') r c = cell (matrix out) c r).
  { intros r c Hr Hc. rewrite HM, HM', !tallied_cell by done.
    rewrite <- Hlen. apply tallied_swap. }
  assert (EPo : observedAgreement out' = observedAgreement out).
  { by rewrite HPo, HPo', <- Hlen, talliedAgreements_swap. }
  assert (EPe : expectedAgreement out' = expectedAgreement out).
  { rewrite HPe, HPe', <- Hlen. unfold sumProducts.
    apply foldl_ext_in. intros s r Hr.
    apply elem_of_seq in Hr as [_ Hr]. simpl in Hr.
    f_equal. rewrite mul_comm. unfold rowMarginal, columnMarginal.
    f_equal; f_equal; f_equal; unfold rowTotal, columnTotal;
      apply sumOver_ext; intros c Hc; by rewrite Hcell. }
  split; [done|]. split; [done|]. split; [|done].
  by rewrite Hk, Hk', EPo, EPe.
Qed.

End Symmetry.

(** X4. [calculateKappaForCategory] treats the two annotators alike: with
    sequences of equal length over the label list, exchanging them gives
    the same observed agreement, expected agreement and kappa, and the
    transposed matrix, in binary64 as in exact arithmetic. *)
Theorem exchanging_annotators_transposes (labels seq1 seq2 : list string) :
  length seq1 = length seq2 ->
  within labels seq1 -> within labels seq2 ->
  symmetric float labels seq1 seq2 /\ symmetric Q labels seq1 seq2.
Proof.
  intros Hlen Hw1 Hw2. split.
  - apply symmetric_when_mul_commutes; [|done..].
    intros x y. apply float_mul_comm.
  - apply symmetric_when_mul_commutes; [|done..].
    intros x y. cbn [mul Q_Number]. unfold Qmult.
    by rewrite Z.mul_comm, Pos.mul_comm.
Qed.

Lemma exchanging_annotators_transposes_witness :
  let seq1 := ["positive"; "negative"; "neutral"; "positive"]%string in
  let seq2 := ["positive"; "neutral"; "neutral"; "negative"]%string in
  (length seq1 = length seq2
   /\ within sentimentLabels seq1 /\ within sentimentLabels seq2)
  /\ symmetric float sentimentLabels seq1 seq2
  /\ symmetric Q sentimentLabels seq1 seq2.
Proof.
  intros seq1 seq2.
  assert (length seq1 = length seq2) as Hlen by reflexivity.
  assert (within sentimentLabels seq1) as Hw1
    by (apply (bool_decide_unpack _); vm_compute; exact I).
  assert (within sentimentLabels seq2) as Hw2
    by (apply (bool_decide_unpack _); vm_compute; exact I).
  split; [by repeat split|].
  exact (exchanging_annotators_transposes sentimentLabels seq1 seq2
           Hlen Hw1 Hw2).
Defined.

(** ** [interpretKappa] in exact arithmetic *)











Section ChanceAgreement.
Variables (labels seq1 seq2 : list string).
Hypothesis Hlen : length seq1 = length seq2.
Hypothesis Hw1 : within labels seq1.
Hypothesis Hw2 : within labels seq2.

Let n := length seq1.
Let k := length labels.
Let M := talliedMatrix labels seq1 seq2 n.


End ChanceAgreement.







(** ** [calculateKappaForCategory] on no pairs, in binary64 *)

(** X8. Called with an empty first sequence, [calculateKappaForCategory]
    does not throw in binary64: it returns the all-zero matrix, and its
    observed agreement, expected agreement and kappa are all NaN, which
    [interpretKappa] reads as "Almost Perfect".  The check for complete
    pairs in [calculateKappa] is the only thing that prevents this. *)
Theorem empty_input_scores_NaN (d : Dimension) (annotator2 : list string) :
  exists out : KappaOut float,
    calculateKappaForCategory [] annotator2 (labelsOf d) = Ok out
    /\ matrix out = replicate 3 (replicate 3 0%nat)
    /\ PrimFloat.is_nan (observedAgreement out) = true
    /\ PrimFloat.is_nan (expectedAgreement out) = true
    /\ PrimFloat.is_nan (kappa out) = true
    /\ interpretKappa (kappa out) = "Almost Perfect"%string.
Proof.
  destruct d; eexists; (split; [reflexivity|]); vm_compute; auto.
Qed.

(** ** Arrays with holes *)

Lemma element_lookup {A} (l : list (option A)) (i : nat) (x : A) :
  element l (Z.of_nat i) = Some x <-> l !! i = Some (Some x).
Proof.
  unfold element, item. destruct (Z.ltb_spec (Z.of_nat i) 0); [lia|].
  rewrite Nat2Z.id. destruct (l !! i) as [[y|]|]; simpl; split; congruence.
Qed.

Lemma element_negative {A} (l : list (option A)) (i : Z) :
  i < 0 -> element l i = None.
Proof.
  intros Hi. unfold element, item.
  by destruct (Z.ltb_spec i 0); [|lia].
Qed.

Lemma element_nat {A} (l : list (option A)) (i : Z) :
  0 <= i -> element l i = mjoin (l !! Z.to_nat i).
Proof.
  intros Hi. unfold element, item.
  by destruct (Z.ltb_spec i 0); [lia|].
Qed.

Lemma element_assign {A} (l : list (option A)) (i j : Z) (x : A) :
  0 <= i -> 0 <= j ->
  element (assign l i x) j = if decide (j = i) then Some x else element l j.
Proof.
  intros Hi Hj. rewrite !element_nat by done. unfold assign.
  destruct (Z.ltb_spec i 0); [lia|]. cbv zeta.
  destruct (Nat.ltb_spec (Z.to_nat i) (length l)) as [Hlt|Hge].
  - destruct (decide (j = i)) as [->|Hne].
    + by rewrite list_lookup_insert_eq.
    + rewrite list_lookup_insert_ne by lia. done.
  - destruct (decide (j = i)) as [->|Hne].
    + rewrite lookup_app_r by lia.
      rewrite lookup_app_r by (rewrite length_replicate; lia).
      rewrite length_replicate.
      by replace (Z.to_nat i - length l - (Z.to_nat i - length l))%nat
        with 0%nat by lia.
    + destruct (decide (Z.to_nat j < length l)%nat) as [Hjl|Hjl].
      * by rewrite lookup_app_l by lia.
      * rewrite lookup_app_r by lia.
        rewrite (lookup_ge_None_2 l) by lia.
        destruct (decide (Z.to_nat j - length l
                          < Z.to_nat i - length l)%nat) as [Hin|Hout].
        -- rewrite lookup_app_l by (rewrite length_replicate; lia).
           rewrite lookup_replicate_2 by lia. done.
        -- rewrite lookup_app_r by (rewrite length_replicate; lia).
           rewrite length_replicate.
           rewrite lookup_ge_None_2; [done|]. simpl. lia.
Qed.

Lemma length_assign {A} (l : list (option A)) (i : Z) (x : A) :
  0 <= i -> length (assign l i x) = (length l `max` (Z.to_nat i + 1))%nat.
Proof.
  intros Hi. unfold assign. destruct (Z.ltb_spec i 0); [lia|]. cbv zeta.
  destruct (Nat.ltb_spec (Z.to_nat i) (length l)).
  - rewrite length_insert. lia.
  - rewrite !length_app, length_replicate. simpl. lia.
Qed.

(** ** [loadCommentsBatch] *)

Lemma writeBatch_snoc startIndex data comment prev :
  Adj.writeBatch startIndex (data ++ [comment]) prev
  = assign (Adj.writeBatch startIndex data prev)
           (startIndex + Z.of_nat (length data)) comment.
Proof.
  unfold Adj.writeBatch. rewrite length_app. simpl.
  rewrite Nat.add_1_r, seq_S. simpl.
  rewrite zip_with_app by (by rewrite length_seq).
  by rewrite foldl_app.
Qed.

Lemma length_writeBatch startIndex data prev :
  0 <= startIndex ->
  length (Adj.writeBatch startIndex data prev)
  = if decide (data = []) then length prev
    else (length prev `max` (Z.to_nat startIndex + length data))%nat.
Proof.
  intros Hs. induction data as [|comment data IH] using rev_ind; [done|].
  rewrite writeBatch_snoc, length_assign, IH by lia.
  rewrite length_app. simpl.
  destruct (decide (data ++ [comment] = [])) as [E|_];
    [by destruct data|].
  destruct (decide (data = [])) as [->|_]; simpl; lia.
Qed.

Lemma element_writeBatch startIndex data prev (j : Z) :
  0 <= startIndex -> 0 <= j ->
  element (Adj.writeBatch startIndex data prev) j
  = if decide (startIndex <= j < startIndex + Z.of_nat (length data))
    then data !! Z.to_nat (j - startIndex)
    else element prev j.
Proof.
  intros Hs Hj. induction data as [|comment data IH] using rev_ind.
  - simpl. destruct (decide _); [lia|done].
  - rewrite writeBatch_snoc, element_assign, IH by lia.
    rewrite length_app. cbn [length].
    destruct (decide (j = startIndex + Z.of_nat (length data))) as [->|Hne].
    + rewrite decide_True by lia.
      rewrite lookup_app_r by lia.
      by replace (Z.to_nat (startIndex + Z.of_nat (length data) - startIndex)
                  - length data)%nat with 0%nat by lia.
    + destruct (decide (startIndex <= j
                        < startIndex + Z.of_nat (length data))) as [Hin|Hout].
      * rewrite decide_True by lia.
        by rewrite lookup_app_l by lia.
      * by rewrite decide_False by lia.
Qed.

(** X9. [loadCommentsBatch] writes the rows it receives at consecutive
    positions from [startIndex] on and leaves every other position as it
    reads, growing the array when the batch reaches past its end; the other
    fields are untouched.  When the query reports an error or carries no
    data, the state is returned as it is. *)
Theorem loaded_batch_fills_its_window (db : Supabase.Client)
  (startIndex batchSize : Z) (st : Adj.State) :
  0 <= startIndex ->
  let response :=
    Supabase.range_comments db startIndex (startIndex + batchSize - 1) in
  let st' := Adj.loadCommentsBatch db startIndex batchSize st in
  match Supabase.error response, Supabase.data response with
  | None, Some data =>
      (forall j, 0 <= j ->
         element (Adj.comments st') j
         = if decide (startIndex <= j < startIndex + Z.of_nat (length data))
           then data !! Z.to_nat (j - startIndex)
           else element (Adj.comments st) j)
      /\ length (Adj.comments st')
         = (if decide (data = []) then length (Adj.comments st)
            else (length (Adj.comments st)
                  `max` (Z.to_nat startIndex + length data))%nat)
      /\ Adj.totalComments st' = Adj.totalComments st
      /\ Adj.annotations st' = Adj.annotations st
      /\ Adj.finalAnnotations st' = Adj.finalAnnotations st
      /\ Adj.currentCommentIndex st' = Adj.currentCommentIndex st
  | _, _ => st' = st
  end.
Proof.
  intros Hs response st'. unfold st', Adj.loadCommentsBatch.
  fold response.
  destruct (Supabase.error response) as [e|]; [done|].
  destruct (Supabase.data response) as [data|]; [|done].
  cbn [Adj.comments Adj.setComments Adj.totalComments Adj.annotations
       Adj.finalAnnotations Adj.currentCommentIndex].
  split; [|split; [|done]].
  - intros j Hj. by apply element_writeBatch.
  - by apply length_writeBatch.
Qed.

Lemma loaded_batch_fills_its_window_witness :
  let mk := fun i =>
    {| Comment.id := i; Comment.unique_comment_id := "u"%string;
       Comment.context_title := "t"%string; Comment.text := "x"%string;
       Comment.likes := 0; Comment.post_url := None;
       Comment.created_at := "2024-01-01"%string |} in
  let db :=
    {| Supabase.count_comments := Some 3;
       Supabase.range_comments := fun from to =>
         {| Supabase.data := Some [mk 11; mk 12]; Supabase.error := None |};
       Supabase.select_annotations :=
         {| Supabase.data := None; Supabase.error := None |};
       Supabase.select_final_annotations :=
         {| Supabase.data := None; Supabase.error := None |};
       Supabase.update_final_annotation := fun _ _ _ => Throw TypeError;
       Supabase.insert_final_annotation := fun _ _ _ => Throw TypeError |} in
  let st :=
    {| Adj.comments := []; Adj.totalComments := 3; Adj.annotations := [];
       Adj.finalAnnotations := []; Adj.currentCommentIndex := 0 |} in
  0 <= 1
  /\ (forall j, 0 <= j ->
        element (Adj.comments (Adj.loadCommentsBatch db 1 2 st)) j
        = if decide (1 <= j < 1 + Z.of_nat (length [mk 11; mk 12]))
          then [mk 11; mk 12] !! Z.to_nat (j - 1)
          else element (Adj.comments st) j)
  /\ Adj.comments (Adj.loadCommentsBatch db 1 2 st)
     = [None; Some (mk 11); Some (mk 12)].
Proof.
  intros mk db st.
  assert (0 <= 1) as Hs by lia.
  split; [exact Hs|].
  split; [|reflexivity].
  exact (proj1 (loaded_batch_fills_its_window db 1 2 st Hs)).
Defined.

(** ** Navigation over a table served in batches *)

Lemma batchStartOf_bounds (index : Z) :
  Adj.batchStartOf index <= index < Adj.batchStartOf index + 100.
Proof.
  unfold Adj.batchStartOf.
  pose proof (Z.div_mod index 100 ltac:(lia)).
  pose proof (Z.mod_pos_bound index 100 ltac:(lia)). lia.
Qed.

Lemma batchStartOf_nonneg (index : Z) :
  0 <= index -> 0 <= Adj.batchStartOf index.
Proof.
  intros Hi. unfold Adj.batchStartOf.
  pose proof (Z.div_pos index 100 Hi ltac:(lia)). lia.
Qed.

Section Served.
Variables (db : Supabase.Client) (rows : list Comment.t).
Hypothesis Hserves : serves db rows.

Lemma served_batch (startIndex : Z) (st : Adj.State) :
  0 <= startIndex ->
  Adj.loadCommentsBatch db startIndex 100 st
  = Adj.setComments
      (Adj.writeBatch startIndex
         (take 100 (drop (Z.to_nat startIndex) rows)) (Adj.comments st))
      st.
Proof.
  intros Hs. unfold Adj.loadCommentsBatch. rewrite (Hserves _ _ Hs).
  cbn [Supabase.error Supabase.data].
  by replace (Z.to_nat (startIndex + 100 - 1 - startIndex + 1))
    with 100%nat by lia.
Qed.

Lemma served_batch_element (startIndex j : Z) (st : Adj.State) :
  0 <= startIndex -> 0 <= j ->
  element (Adj.comments (Adj.loadCommentsBatch db startIndex 100 st)) j
  = if decide (startIndex <= j < startIndex + 100
               /\ j < Z.of_nat (length rows))
    then rows !! Z.to_nat j
    else element (Adj.comments st) j.
Proof.
  intros Hs Hj. rewrite served_batch by done. cbn [Adj.comments Adj.setComments].
  rewrite element_writeBatch by done.
  rewrite length_take, length_drop.
  destruct (decide (startIndex <= j < startIndex + 100
                    /\ j < Z.of_nat (length rows))) as [Hin|Hout].
  - rewrite decide_True by lia.
    rewrite lookup_take_lt by lia. rewrite lookup_drop. f_equal. lia.
  - by rewrite decide_False by lia.
Qed.

Lemma served_batch_synced (startIndex : Z) (st : Adj.State) :
  0 <= startIndex -> synced rows st ->
  synced rows (Adj.loadCommentsBatch db startIndex 100 st).
Proof.
  intros Hs (Htotal & Hlen & Hrows). split; [|split].
  - by rewrite served_batch.
  - rewrite served_batch by done. cbn [Adj.comments Adj.setComments].
    rewrite length_writeBatch by done.
    destruct (decide _) as [|Hne]; [done|].
    rewrite length_take, length_drop.
    assert (Z.to_nat startIndex < length rows)%nat; [|lia].
    destruct (decide (Z.to_nat startIndex < length rows)%nat) as [|Hge];
      [done|].
    exfalso. apply Hne. rewrite drop_ge by lia. done.
  - intros i c Hi. apply element_lookup in Hi.
    rewrite served_batch_element in Hi by lia.
    destruct (decide _) as [_|_].
    + by rewrite Nat2Z.id in Hi.
    + apply element_lookup in Hi. by apply Hrows.
Qed.

(** Showing the item at [index]: what [goToNext] and [handleJumpToComment]
    do before they move there. *)
Lemma served_visit (index : Z) (st : Adj.State) :
  synced rows st -> 0 <= index < Adj.totalComments st ->
  let st' :=
    if element (Adj.comments st) index is Some _ then st
    else Adj.loadCommentsBatch db (Adj.batchStartOf index) 100 st in
  synced rows st'
  /\ Adj.totalComments st' = Adj.totalComments st
  /\ Adj.annotations st' = Adj.annotations st
  /\ Adj.finalAnnotations st' = Adj.finalAnnotations st
  /\ element (Adj.comments st') index = rows !! Z.to_nat index
  /\ is_Some (rows !! Z.to_nat index).
Proof.
  intros Hsync Hindex. pose proof Hsync as (Htotal & Hlen & Hrows).
  assert (Hsome : is_Some (rows !! Z.to_nat index))
    by (apply lookup_lt_is_Some; lia).
  destruct (element (Adj.comments st) index) as [c|] eqn:E; cbv zeta.
  - repeat split; try done. rewrite E. symmetry. apply Hrows.
    apply element_lookup. by rewrite Z2Nat.id by lia.
  - pose proof (batchStartOf_bounds index).
    pose proof (batchStartOf_nonneg index ltac:(lia)).
    split; [by apply served_batch_synced|].
    rewrite served_batch_element by lia.
    rewrite decide_True by lia.
    rewrite served_batch by done. done.
Qed.

End Served.

(** X10. Against a table that answers range queries without error, and
    from a state whose loaded items agree with the table, [goToNext]
    below the last item moves to the next index and leaves there the row
    of the table, loading its batch of 100 when the position was empty;
    at the last item it changes nothing.  The loaded items still agree
    with the table. *)
Theorem goToNext_shows_the_next_row (db : Supabase.Client)
  (rows : list Comment.t) (st : Adj.State) :
  serves db rows -> synced rows st -> 0 <= Adj.currentCommentIndex st ->
  let st' := Adj.goToNext db st in
  synced rows st'
  /\ if decide (Adj.currentCommentIndex st < Adj.totalComments st - 1)
     then Adj.currentCommentIndex st' = Adj.currentCommentIndex st + 1
          /\ Adj.currentComment st'
             = rows !! Z.to_nat (Adj.currentCommentIndex st + 1)
          /\ is_Some (Adj.currentComment st')
     else st' = st.
Proof.
  intros Hserves Hsync Hidx st'. unfold st', Adj.goToNext.
  destruct (Z.ltb_spec (Adj.currentCommentIndex st)
              (Adj.totalComments st - 1)) as [Hlt|Hge].
  - rewrite decide_True by done. cbv zeta.
    destruct (served_visit db rows Hserves
                (Adj.currentCommentIndex st + 1) st Hsync ltac:(lia))
      as (Hsync' & Htotal' & _ & _ & Hel & Hsome).
    set (st1 := if element _ _ is Some _ then st else _) in *.
    split; [|split; [done|]].
    + destruct Hsync' as (? & ? & ?). by repeat split.
    + unfold Adj.currentComment.
      cbn [Adj.comments Adj.currentCommentIndex Adj.setCurrentCommentIndex].
      rewrite Hel. done.
  - rewrite decide_False by lia. done.
Qed.

Lemma tableClient_serves rows : serves (tableClient rows) rows.
Proof. intros from to _. reflexivity. Qed.

Lemma goToNext_shows_the_next_row_witness :
  let rows := [sampleComment 11; sampleComment 12; sampleComment 13] in
  let st := Adj.setTotalComments 3 initialState in
  (serves (tableClient rows) rows /\ synced rows st
   /\ 0 <= Adj.currentCommentIndex st)
  /\ synced rows (Adj.goToNext (tableClient rows) st)
  /\ Adj.currentComment (Adj.goToNext (tableClient rows) st)
     = Some (sampleComment 12).
Proof.
  intros rows st.
  assert (serves (tableClient rows) rows) as Hserves
    by apply tableClient_serves.
  assert (synced rows st) as Hsync.
  { split; [reflexivity|]. split; [simpl; lia|]. intros i c Hi. done. }
  assert (0 <= Adj.currentCommentIndex st) as Hidx by (simpl; lia).
  split; [exact (conj Hserves (conj Hsync Hidx))|].
  pose proof (goToNext_shows_the_next_row (tableClient rows) rows st
                Hserves Hsync Hidx) as [Hsync' Hnext].
  split; [exact Hsync'|reflexivity].
Defined.

(** X11. Against such a table, [handleJumpToComment] with a number between
    [1] and [totalComments] in the jump box moves to the index one below
    the number, leaves there the row of the table and empties the box.
    With anything else in the box ([NaN], [0], a number out of range) it
    changes nothing.  [parseInt] can be any function. *)
Theorem jump_shows_the_requested_row (parseInt : string -> option Z)
  (db : Supabase.Client) (rows : list Comment.t)
  (st : Adj.State) (form : Adj.Form) :
  serves db rows -> synced rows st ->
  let result := Adj.handleJumpToComment parseInt db st form in
  synced rows result.1
  /\ match parseInt (Adj.jumpToComment form) with
     | Some commentNumber =>
         if decide (1 <= commentNumber <= Adj.totalComments st)
         then Adj.currentCommentIndex result.1 = commentNumber - 1
              /\ Adj.currentComment result.1
                 = rows !! Z.to_nat (commentNumber - 1)
              /\ is_Some (Adj.currentComment result.1)
              /\ result.2 = Adj.setJumpToComment "" form
         else result = (st, form)
     | None => result = (st, form)
     end.
Proof.
  intros Hserves Hsync result. unfold result, Adj.handleJumpToComment.
  destruct (parseInt (Adj.jumpToComment form)) as [n|]; [|done].
  destruct (decide (1 <= n <= Adj.totalComments st)) as [Hin|Hout].
  - destruct (Z.eqb_spec n 0); [lia|].
    destruct (Z.leb_spec 1 n); [|lia].
    destruct (Z.leb_spec n (Adj.totalComments st)); [|lia].
    cbn [negb andb]. cbv zeta.
    destruct (served_visit db rows Hserves (n - 1) st Hsync ltac:(lia))
      as (Hsync' & Htotal' & _ & _ & Hel & Hsome).
    set (st1 := if element _ _ is Some _ then st else _) in *.
    cbn [fst snd]. split; [|split; [done|split; [|split; [|done]]]].
    + destruct Hsync' as (? & ? & ?). by repeat split.
    + unfold Adj.currentComment.
      cbn [Adj.comments Adj.currentCommentIndex Adj.setCurrentCommentIndex].
      by rewrite Hel.
    + unfold Adj.currentComment.
      cbn [Adj.comments Adj.currentCommentIndex Adj.setCurrentCommentIndex].
      by rewrite Hel.
  - destruct (Z.eqb_spec n 0), (Z.leb_spec 1 n),
      (Z.leb_spec n (Adj.totalComments st)); cbn [negb andb];
      (done || lia).
Qed.

Lemma jump_shows_the_requested_row_witness :
  let rows := [sampleComment 11; sampleComment 12; sampleComment 13] in
  let st := Adj.setTotalComments 3 initialState in
  let form :=
    {| Adj.finalSentiment := ""; Adj.finalDiscoursePolarization := "";
       Adj.loading := false; Adj.jumpToComment := "3" |} in
  let parseInt := fun s : string =>
    if String.eqb s "3" then Some 3 else None in
  (serves (tableClient rows) rows /\ synced rows st)
  /\ synced rows
       (Adj.handleJumpToComment parseInt (tableClient rows) st form).1
  /\ Adj.currentComment
       (Adj.handleJumpToComment parseInt (tableClient rows) st form).1
     = Some (sampleComment 13).
Proof.
  intros rows st form parseInt.
  assert (serves (tableClient rows) rows) as Hserves
    by apply tableClient_serves.
  assert (synced rows st) as Hsync.
  { split; [reflexivity|]. split; [simpl; lia|]. intros i c Hi. done. }
  split; [exact (conj Hserves Hsync)|].
  pose proof (jump_shows_the_requested_row parseInt (tableClient rows) rows
                st form Hserves Hsync) as [Hsync' Hjump].
  split; [exact Hsync'|reflexivity].
Defined.

Lemma assign_at_end {A} (l : list (option A)) (x : A) :
  assign l (Z.of_nat (length l)) x = l ++ [Some x].
Proof.
  unfold assign. destruct (Z.ltb_spec (Z.of_nat (length l)) 0); [lia|].
  cbv zeta. rewrite Nat2Z.id.
  destruct (Nat.ltb_spec (length l) (length l)); [lia|].
  by rewrite Nat.sub_diag.
Qed.

Lemma writeBatch_fresh (data : list Comment.t) :
  Adj.writeBatch 0 data [] = Some <$> data.
Proof.
  induction data as [|comment data IH] using rev_ind; [done|].
  rewrite writeBatch_snoc, IH, fmap_app. simpl.
  rewrite <- (length_fmap Some data). apply assign_at_end.
Qed.

(** X12. On a freshly mounted component, against a table that answers
    without error and reports its size, [fetchInitialData] sets
    [totalComments] to the size of the table and loads exactly its first
    100 rows (all of them when there are fewer), in order and without
    holes. *)
Theorem initial_fetch_loads_first_batch (db : Supabase.Client)
  (rows : list Comment.t) (st : Adj.State) :
  serves db rows ->
  Supabase.count_comments db = Some (Z.of_nat (length rows)) ->
  Adj.comments st = [] ->
  let st' := Adj.fetchInitialData db st in
  Adj.comments st' = Some <$> take 100 rows
  /\ Adj.totalComments st' = Z.of_nat (length rows)
  /\ synced rows st'
  /\ Adj.currentCommentIndex st' = Adj.currentCommentIndex st.
Proof.
  intros Hserves Hcount Hempty st'. unfold st', Adj.fetchInitialData.
  rewrite Hcount. cbn [default].
  rewrite (served_batch db rows Hserves) by lia.
  cbn [Adj.comments Adj.setComments Adj.setTotalComments Adj.totalComments
       Adj.currentCommentIndex].
  rewrite Hempty. change (Z.to_nat 0) with 0%nat. rewrite drop_0.
  rewrite writeBatch_fresh.
  split; [reflexivity|]. split; [reflexivity|]. split; [|reflexivity].
  unfold synced.
  cbn [Adj.comments Adj.totalComments Adj.setComments Adj.setTotalComments].
  split; [reflexivity|]. split.
  - rewrite length_fmap, length_take. lia.
  - intros i c Hi. rewrite list_lookup_fmap in Hi.
    destruct (take 100 rows !! i) as [c'|] eqn:E; [|done].
    injection Hi as ->. apply lookup_take_Some in E. by destruct E.
Qed.

Lemma initial_fetch_loads_first_batch_witness :
  let rows := [sampleComment 11; sampleComment 12; sampleComment 13] in
  (serves (tableClient rows) rows
   /\ Supabase.count_comments (tableClient rows)
      = Some (Z.of_nat (length rows))
   /\ Adj.comments initialState = [])
  /\ Adj.comments (Adj.fetchInitialData (tableClient rows) initialState)
     = Some <$> take 100 rows
  /\ Adj.totalComments (Adj.fetchInitialData (tableClient rows) initialState)
     = 3.
Proof.
  intros rows.
  assert (serves (tableClient rows) rows) as Hserves
    by apply tableClient_serves.
  assert (Supabase.count_comments (tableClient rows)
          = Some (Z.of_nat (length rows))) as Hcount by reflexivity.
  assert (Adj.comments initialState = []) as Hempty by reflexivity.
  split; [exact (conj Hserves (conj Hcount Hempty))|].
  pose proof (initial_fetch_loads_first_batch (tableClient rows) rows
                initialState Hserves Hcount Hempty) as (Hc & Ht & _).
  split; [exact Hc|exact Ht].
Defined.

(** ** The current index *)

Lemma findIndex_from_range {A} (p : option A -> bool) (l : list (option A))
  (s : Z) :
  findIndex_from p l s = -1
  \/ s <= findIndex_from p l s < s + Z.of_nat (length l).
Proof.
  revert s. induction l as [|x l IH]; intros s; simpl; [by left|].
  destruct (p x); [right; lia|].
  destruct (IH (s + 1)) as [->|?]; [by left|right; lia].
Qed.

Lemma target_range (st : Adj.State) (i : Z) :
  Adj.target st = Some i -> 0 <= i < Z.of_nat (length (Adj.comments st)).
Proof.
  unfold Adj.target, findIndex.
  destruct (_ && _); [|done].
  pose proof (findIndex_from_range (Adj.isOpenDisagreement st)
                (Adj.comments st) 0) as R1.
  pose proof (findIndex_from_range (Adj.isUnfinished st)
                (Adj.comments st) 0) as R2.
  destruct (Z.eqb_spec (findIndex_from (Adj.isOpenDisagreement st)
                          (Adj.comments st) 0) (-1)); simpl.
  - destruct (Z.eqb_spec (findIndex_from (Adj.isUnfinished st)
                            (Adj.comments st) 0) (-1)); simpl; [done|].
    intros [= <-]. lia.
  - intros [= <-]. lia.
Qed.

Lemma loadCommentsBatch_fields (db : Supabase.Client) (startIndex batchSize : Z)
  (st : Adj.State) :
  Adj.totalComments (Adj.loadCommentsBatch db startIndex batchSize st)
  = Adj.totalComments st
  /\ Adj.currentCommentIndex (Adj.loadCommentsBatch db startIndex batchSize st)
     = Adj.currentCommentIndex st
  /\ Adj.annotations (Adj.loadCommentsBatch db startIndex batchSize st)
     = Adj.annotations st
  /\ Adj.finalAnnotations (Adj.loadCommentsBatch db startIndex batchSize st)
     = Adj.finalAnnotations st.
Proof.
  unfold Adj.loadCommentsBatch.
  destruct (Supabase.error _); [done|]. by destruct (Supabase.data _).
Qed.

(** X13. Whatever the service answers, [goToNext], [goToPrevious] and
    [handleJumpToComment] keep the current index non-negative and below
    [totalComments] (or at [0] when there is no item), and leave
    [totalComments] as it is.  The navigation effect does so too as long
    as no more positions are loaded than [totalComments]. *)
Theorem navigation_keeps_index_in_range (parseInt : string -> option Z)
  (db : Supabase.Client) (st : Adj.State) (form : Adj.Form) :
  inRange st ->
  (inRange (Adj.goToNext db st)
   /\ Adj.totalComments (Adj.goToNext db st) = Adj.totalComments st)
  /\ inRange (Adj.goToPrevious st)
  /\ (inRange (Adj.handleJumpToComment parseInt db st form).1
      /\ Adj.totalComments (Adj.handleJumpToComment parseInt db st form).1
         = Adj.totalComments st)
  /\ (Z.of_nat (length (Adj.comments st)) <= Adj.totalComments st ->
      inRange (Adj.navigate st)).
Proof.
  intros [Hlo Hhi]. split; [|split; [|split]].
  - unfold Adj.goToNext.
    destruct (Z.ltb_spec (Adj.currentCommentIndex st)
                (Adj.totalComments st - 1)); [|by repeat split].
    cbv zeta. destruct (element _ _).
    + unfold inRange. simpl. repeat split; lia.
    + destruct (loadCommentsBatch_fields db
                  (Adj.batchStartOf (Adj.currentCommentIndex st + 1)) 100 st)
        as (Ht & _).
      unfold inRange. simpl. rewrite Ht. repeat split; lia.
  - unfold Adj.goToPrevious.
    destruct (Z.ltb_spec 0 (Adj.currentCommentIndex st));
      [|by repeat split].
    unfold inRange. simpl. split; [lia|]. destruct Hhi; [left|]; lia.
  - unfold Adj.handleJumpToComment.
    destruct (parseInt _) as [n|]; [|by repeat split].
    destruct (Z.eqb_spec n 0), (Z.leb_spec 1 n),
      (Z.leb_spec n (Adj.totalComments st)); cbn [negb andb fst];
      try (by repeat split).
    cbv zeta. destruct (element _ _).
    + unfold inRange. simpl. repeat split; lia.
    + destruct (loadCommentsBatch_fields db
                  (Adj.batchStartOf (n - 1)) 100 st) as (Ht & _).
      unfold inRange. simpl. rewrite Ht. repeat split; lia.
  - intros Hlen. unfold Adj.navigate.
    destruct (Adj.target st) as [i|] eqn:E; [|by split].
    apply target_range in E. unfold inRange. simpl. split; [lia|left; lia].
Qed.

Lemma navigation_keeps_index_in_range_witness :
  let st := Adj.setTotalComments 3 initialState in
  let form :=
    {| Adj.finalSentiment := ""; Adj.finalDiscoursePolarization := "";
       Adj.loading := false; Adj.jumpToComment := "3" |} in
  let parseInt := fun s : string =>
    if String.eqb s "3" then Some 3 else None in
  let db := tableClient [] in
  inRange st
  /\ inRange (Adj.goToNext db st)
  /\ inRange (Adj.goToPrevious st)
  /\ inRange (Adj.handleJumpToComment parseInt db st form).1.
Proof.
  intros st form parseInt db.
  assert (inRange st) as Hin by (split; [simpl; lia|right; reflexivity]).
  split; [exact Hin|].
  pose proof (navigation_keeps_index_in_range parseInt db st form Hin)
    as ((Hnext & _) & Hprev & (Hjump & _) & _).
  split; [exact Hnext|]. split; [exact Hprev|exact Hjump].
Defined.

(** ** [fetchAnnotations] and [fetchFinalAnnotations] *)

Lemma judgmentsOf_snoc data a c :
  judgmentsOf (data ++ [a]) c
  = judgmentsOf data c
    ++ if bool_decide (Annotation.comment_id a = c) then [a] else [].
Proof.
  unfold judgmentsOf. rewrite List.filter_app. simpl.
  by destruct (bool_decide _).
Qed.

Lemma annotationsMap_grouped data :
  NoDup (Adj.annotationsMap data).*1
  /\ forall c,
       get (Adj.annotationsMap data) c
       = if decide (judgmentsOf data c = []) then None
         else Some (judgmentsOf data c).
Proof.
  unfold Adj.annotationsMap.
  induction data as [|a data [Hnd IH]] using rev_ind.
  - split; [constructor|]. intros c. simpl. done.
  - rewrite foldl_app. cbn [foldl]. set (o := foldl Adj.collect [] data) in *.
    unfold Adj.collect. set (c0 := Annotation.comment_id a).
    set (o1 := if get o c0 is Some _ then o else set o c0 []).
    assert (Hnd1 : NoDup o1.*1).
    { unfold o1. destruct (get o c0); [done|]. by apply set_NoDup. }
    assert (Hget1 : default [] (get o1 c0) = judgmentsOf data c0).
    { unfold o1. pose proof (IH c0) as E.
      destruct (get o c0) as [l|] eqn:Eo.
      - rewrite Eo. destruct (decide _); [done|]. by injection E as ->.
      - rewrite get_set_eq. destruct (decide _) as [->|]; done. }
    assert (Hother : forall c, c0 <> c -> get o1 c = get o c).
    { intros c Hc. unfold o1. destruct (get o c0); [done|].
      by apply get_set_ne. }
    split; [by apply set_NoDup|]. intros c. rewrite judgmentsOf_snoc.
    destruct (decide (c0 = c)) as [<-|Hne].
    + rewrite get_set_eq, Hget1. rewrite bool_decide_eq_true_2 by done.
      destruct (decide _) as [E|_]; [|done].
      by destruct (judgmentsOf data c0).
    + rewrite get_set_ne, Hother, IH by done.
      rewrite bool_decide_eq_false_2 by done. by rewrite app_nil_r.
Qed.

(** X14. The object [fetchAnnotations] builds holds, under the id of each
    item with judgments, exactly the judgments of that item in the order of
    the data, and has no property for any other id. *)
Theorem fetched_judgments_are_grouped_by_item
  (data : list Annotation.t) (c : Z) :
  default [] (get (Adj.annotationsMap data) c) = judgmentsOf data c
  /\ (is_Some (get (Adj.annotationsMap data) c)
      <-> exists a, a ∈ data /\ Annotation.comment_id a = c).
Proof.
  destruct (annotationsMap_grouped data) as [_ Hget]. rewrite (Hget c).
  destruct (decide (judgmentsOf data c = [])) as [E|E].
  - split; [by rewrite E|]. split; [by intros [? ?]|].
    intros (a & Hin & Hc). exfalso.
    assert (a ∈ judgmentsOf data c); [|rewrite E in *; by apply elem_of_nil in H].
    unfold judgmentsOf. apply list_elem_of_In, filter_In.
    split; [by apply list_elem_of_In|]. by apply bool_decide_eq_true_2.
  - split; [done|]. split; [|eauto]. intros _.
    destruct (judgmentsOf data c) as [|a l] eqn:El; [done|].
    exists a.
    assert (Hin : a ∈ judgmentsOf data c) by (rewrite El; left).
    unfold judgmentsOf in Hin.
    apply list_elem_of_In, filter_In in Hin as [Hin Hc].
    apply bool_decide_eq_true in Hc. by rewrite list_elem_of_In.
Qed.

Lemma judgmentsOf_length data c :
  length (judgmentsOf data c)
  = (length (judgments data c annotator1)
     + length (judgments data c annotator2))%nat.
Proof.
  unfold judgmentsOf, judgments.
  induction data as [|a data IH]; [done|]. simpl.
  destruct (Annotation.annotator_role a) eqn:Er;
    repeat case_bool_decide; simpl; rewrite ?IH;
    try lia; try tauto; try (exfalso; intuition congruence).
Qed.

Lemma judgments_of_item data c r :
  judgments data c r
  = List.filter (fun x => bool_decide (Annotation.annotator_role x = r))
                (judgmentsOf data c).
Proof.
  unfold judgments, judgmentsOf.
  induction data as [|x data IH]; [done|]. simpl.
  destruct (decide (Annotation.comment_id x = c)) as [Hc|Hc],
    (decide (Annotation.annotator_role x = r)) as [Hr|Hr].
  - rewrite bool_decide_eq_true_2 by done.
    rewrite (bool_decide_eq_true_2 _ Hc). simpl.
    rewrite (bool_decide_eq_true_2 _ Hr). by rewrite IH.
  - rewrite bool_decide_eq_false_2 by tauto.
    rewrite (bool_decide_eq_true_2 _ Hc). simpl.
    by rewrite (bool_decide_eq_false_2 _ Hr).
  - rewrite bool_decide_eq_false_2 by tauto.
    by rewrite (bool_decide_eq_false_2 _ Hc).
  - rewrite bool_decide_eq_false_2 by tauto.
    by rewrite (bool_decide_eq_false_2 _ Hc).
Qed.

Lemma judgmentsOf_roles data c a b :
  atMostOne data -> judgmentsOf data c = [a; b] ->
  Annotation.annotator_role a <> Annotation.annotator_role b.
Proof.
  intros Hone E Hsame.
  specialize (Hone c (Annotation.annotator_role a)).
  rewrite judgments_of_item, E in Hone. simpl in Hone.
  rewrite bool_decide_eq_true_2 in Hone by done.
  rewrite bool_decide_eq_true_2 in Hone by done. simpl in Hone. lia.
Qed.

(** X15. When there is at most one judgment per (item, annotator), the
    items for which [fetchAnnotations] collects exactly two judgments, the
    ones the adjudicator's navigation considers, are exactly the items of
    the complete pairs of [calculateKappa]; and the two judgments of such
    an item come from different annotators. *)
Theorem two_judgments_iff_complete_pair (data : list Annotation.t) (c : Z) :
  atMostOne data ->
  (length (default [] (get (Adj.annotationsMap data) c)) = 2%nat
   <-> Some c ∈ itemOf <$> completePairs data)
  /\ forall a b,
       default [] (get (Adj.annotationsMap data) c) = [a; b] ->
       Annotation.annotator_role a <> Annotation.annotator_role b
       /\ Annotation.comment_id a = c /\ Annotation.comment_id b = c.
Proof.
  intros Hone.
  assert (Hmap : default [] (get (Adj.annotationsMap data) c)
                 = judgmentsOf data c).
  { destruct (annotationsMap_grouped data) as [_ Hget]. rewrite (Hget c).
    by destruct (decide _) as [->|]. }
  rewrite Hmap. split.
  - rewrite judgmentsOf_length, completeEntries_itemOf.
    pose proof (Hone c annotator1) as L1. pose proof (Hone c annotator2) as L2.
    split.
    + intros Hlen.
      destruct (completeEntries_intro data c) as [pair Hin].
      * apply (atMostOne_one data c annotator1 Hone). lia.
      * apply (atMostOne_one data c annotator2 Hone). lia.
      * apply list_elem_of_fmap. exists c. split; [done|].
        apply list_elem_of_fmap. by exists (c, pair).
    + intros (c' & [= <-] & Hin)%list_elem_of_fmap.
      apply list_elem_of_fmap in Hin as ([c' pair] & -> & Hin).
      destruct (completeEntries_spec _ _ _ Hin) as (a & b & _ & _ & La & Lb).
      simpl.
      assert (length (judgments data c' annotator1) = 1%nat)
        by (apply (atMostOne_one data c' annotator1 Hone); rewrite La; eauto).
      assert (length (judgments data c' annotator2) = 1%nat)
        by (apply (atMostOne_one data c' annotator2 Hone); rewrite Lb; eauto).
      simpl in *. lia.
  - intros a b E. split; [by apply (judgmentsOf_roles data c)|].
    assert (Hc : forall x, x ∈ judgmentsOf data c -> Annotation.comment_id x = c).
    { intros x Hx. unfold judgmentsOf in Hx.
      apply list_elem_of_In, filter_In in Hx as [_ Hx].
      by apply bool_decide_eq_true in Hx. }
    rewrite E in Hc. split; apply Hc; [left|right; left].
Qed.

Lemma two_judgments_iff_complete_pair_witness :
  let mk := fun i c r s d =>
    {| Annotation.id := i; Annotation.comment_id := c;
       Annotation.annotator_role := r; Annotation.sentiment := s;
       Annotation.discourse_polarization := d;
       Annotation.created_at := "2024-01-01"%string |} in
  let data :=
    [mk 1 7 annotator1 "positive" "partisan";
     mk 2 7 annotator2 "neutral" "partisan";
     mk 3 9 annotator1 "negative" "objective"]%string in
  atMostOne data
  /\ (length (default [] (get (Adj.annotationsMap data) 7)) = 2%nat
      <-> Some 7 ∈ itemOf <$> completePairs data).
Proof.
  intros mk data.
  assert (atMostOne data) as Hone.
  { intros c r. unfold judgments. simpl.
    repeat case_bool_decide; simpl in *; try lia;
      repeat match goal with H : _ /\ _ |- _ => destruct H end;
      congruence. }
  split; [exact Hone|].
  exact (proj1 (two_judgments_iff_complete_pair data 7 Hone)).
Defined.

Lemma decisionsOf_snoc data f c :
  decisionsOf (data ++ [f]) c
  = decisionsOf data c
    ++ if bool_decide (FinalAnnotation.comment_id f = c) then [f] else [].
Proof.
  unfold decisionsOf. rewrite List.filter_app. simpl.
  by destruct (bool_decide _).
Qed.

Lemma finalAnnotationsMap_latest data :
  NoDup (Adj.finalAnnotationsMap data).*1
  /\ forall c, get (Adj.finalAnnotationsMap data) c
               = last (decisionsOf data c).
Proof.
  unfold Adj.finalAnnotationsMap.
  induction data as [|f data [Hnd IH]] using rev_ind.
  - split; [constructor|]. done.
  - rewrite foldl_app. cbn [foldl]. split; [by apply set_NoDup|].
    intros c. rewrite decisionsOf_snoc.
    destruct (decide (FinalAnnotation.comment_id f = c)) as [<-|Hne].
    + rewrite get_set_eq, bool_decide_eq_true_2 by done.
      by rewrite last_snoc.
    + rewrite get_set_ne, IH by done.
      rewrite bool_decide_eq_false_2 by done. by rewrite app_nil_r.
Qed.

(** X16. The object [fetchFinalAnnotations] builds holds, for each item,
    the last decision the data lists for it, and nothing for an item the
    data does not mention; [finalizedCount] is then the number of distinct
    items among the decisions, however often an item is repeated. *)
Theorem fetched_decisions_keep_the_last_per_item
  (db : Supabase.Client) (st : Adj.State) (data : list FinalAnnotation.t) :
  Supabase.data (Supabase.select_final_annotations db) = Some data ->
  let st' := Adj.fetchFinalAnnotations db st in
  (forall c, get (Adj.finalAnnotations st') c = last (decisionsOf data c))
  /\ Adj.finalizedCount st'
     = length (remove_dups (FinalAnnotation.comment_id <$> data)).
Proof.
  intros Hdata st'. unfold st', Adj.fetchFinalAnnotations. rewrite Hdata.
  unfold Adj.finalizedCount. cbn [Adj.finalAnnotations Adj.setFinalAnnotations].
  destruct (finalAnnotationsMap_latest data) as [Hnd Hget].
  split; [done|].
  rewrite keys_length, <- (length_fmap fst).
  apply Permutation_length, NoDup_Permutation;
    [done|apply NoDup_remove_dups|].
  intros c. rewrite elem_of_remove_dups.
  destruct (get (Adj.finalAnnotationsMap data) c) as [f|] eqn:E.
  - split.
    + intros _. rewrite Hget in E. apply last_Some_elem_of in E.
      unfold decisionsOf in E.
      apply list_elem_of_In, filter_In in E as [Hin Hc].
      apply bool_decide_eq_true in Hc. apply list_elem_of_fmap.
      exists f. by rewrite list_elem_of_In.
    + intros _. destruct (decide (c ∈ (Adj.finalAnnotationsMap data).*1))
        as [|Hn]; [done|].
      apply get_None_keys in Hn. congruence.
  - split.
    + intros Hin. by apply get_None_keys in E.
    + intros (f & -> & Hin)%list_elem_of_fmap. exfalso. rewrite Hget in E.
      assert (Hf : f ∈ decisionsOf data (FinalAnnotation.comment_id f)).
      { unfold decisionsOf. apply list_elem_of_In, filter_In.
        split; [by apply list_elem_of_In|]. by apply bool_decide_eq_true_2. }
      destruct (decisionsOf data (FinalAnnotation.comment_id f)) as [|x l _]
        using rev_ind; [by apply elem_of_nil in Hf|].
      by rewrite last_snoc in E.
Qed.

Lemma fetched_decisions_keep_the_last_per_item_witness :
  let mk := fun i c s =>
    {| FinalAnnotation.id := i; FinalAnnotation.comment_id := c;
       FinalAnnotation.final_sentiment := s;
       FinalAnnotation.final_discourse_polarization := "objective"%string;
       FinalAnnotation.created_at := "2024-01-01"%string |} in
  let data := [mk 1 7 "positive"; mk 2 9 "neutral"; mk 3 7 "negative"]%string in
  let db :=
    {| Supabase.count_comments := None;
       Supabase.range_comments := fun _ _ =>
         {| Supabase.data := None; Supabase.error := None |};
       Supabase.select_annotations :=
         {| Supabase.data := None; Supabase.error := None |};
       Supabase.select_final_annotations :=
         {| Supabase.data := Some data; Supabase.error := None |};
       Supabase.update_final_annotation := fun _ _ _ => Throw TypeError;
       Supabase.insert_final_annotation := fun _ _ _ => Throw TypeError |} in
  Supabase.data (Supabase.select_final_annotations db) = Some data
  /\ get (Adj.finalAnnotations (Adj.fetchFinalAnnotations db initialState)) 7
     = Some (mk 3 7 "negative"%string)
  /\ Adj.finalizedCount (Adj.fetchFinalAnnotations db initialState) = 2%nat.
Proof.
  intros mk data db.
  assert (Supabase.data (Supabase.select_final_annotations db) = Some data)
    as Hdata by reflexivity.
  split; [exact Hdata|].
  pose proof (fetched_decisions_keep_the_last_per_item db initialState data
                Hdata) as [Hget Hcount].
  split; [exact (Hget 7)|exact Hcount].
Defined.

(** ** [handleSubmit] *)

Lemma get_spread {V} (o : object V) (k : Z) :
  NoDup o.*1 -> get (spread o) k = get o k.
Proof.
  intros Hnd. unfold spread.
  pose proof (entries_NoDup o Hnd) as Hnd'.
  destruct (get o k) as [v|] eqn:E.
  - apply (get_Some_elem _ _ _ Hnd'). by apply elem_of_entries.
  - destruct (get (entries o) k) as [v|] eqn:E'; [|done].
    apply (get_Some_elem _ _ _ Hnd') in E'.
    apply elem_of_entries in E'; [|done]. congruence.
Qed.

Lemma spread_NoDup {V} (o : object V) : NoDup o.*1 -> NoDup (spread o).*1.
Proof. apply entries_NoDup. Qed.

Lemma length_set {V} (o : object V) (k : Z) (v : V) :
  length (set o k v)
  = (length o + if get o k is Some _ then 0 else 1)%nat.
Proof.
  rewrite <- (length_fmap fst (set o k v)), set_keys.
  destruct (get o k); rewrite ?length_app, !length_fmap; simpl; lia.
Qed.

Lemma stored_decision_state (st : Adj.State)
  (c : Comment.t) (f : FinalAnnotation.t) :
  NoDup (Adj.finalAnnotations st).*1 ->
  let st' :=
    Adj.setFinalAnnotations
      (set (spread (Adj.finalAnnotations st)) (Comment.id c) f) st in
  get (Adj.finalAnnotations st') (Comment.id c) = Some f
  /\ stateOf st' c = FINALIZED
  /\ (forall c', Comment.id c' <> Comment.id c ->
        stateOf st' c' = stateOf st c')
  /\ NoDup (Adj.finalAnnotations st').*1
  /\ Adj.finalizedCount st'
     = (Adj.finalizedCount st
        + if get (Adj.finalAnnotations st) (Comment.id c) is Some _
          then 0 else 1)%nat.
Proof.
  intros Hnd st'. unfold st'.
  cbn [Adj.finalAnnotations Adj.setFinalAnnotations].
  split; [apply get_set_eq|]. split; [|split; [|split]].
  - unfold stateOf. cbn [Adj.finalAnnotations Adj.setFinalAnnotations].
    by rewrite get_set_eq.
  - intros c' Hne. unfold stateOf.
    cbn [Adj.finalAnnotations Adj.setFinalAnnotations Adj.annotations].
    by rewrite get_set_ne, get_spread by done.
  - by apply set_NoDup, spread_NoDup.
  - unfold Adj.finalizedCount.
    cbn [Adj.finalAnnotations Adj.setFinalAnnotations].
    rewrite !keys_length, length_set, get_spread by done.
    unfold spread. by rewrite (Permutation_length (entries_Permutation _)).
Qed.

(** X17. With an item on display, both selections made and the write
    accepted by the service, [handleSubmit] stores the decision under the
    id of the item: the item becomes [FINALIZED], so the navigation effect
    no longer selects it, the queue state of every item with another id is
    as before, [finalizedCount] grows by one for a first decision and stays
    for a revised one, and [loading] ends [false]. *)
Theorem submitted_decision_finalizes_the_item (db : Supabase.Client)
  (st : Adj.State) (form : Adj.Form) (c : Comment.t) :
  NoDup (Adj.finalAnnotations st).*1 ->
  Adj.currentComment st = Some c ->
  Adj.finalSentiment form <> ""%string ->
  Adj.finalDiscoursePolarization form <> ""%string ->
  accepted db st form c ->
  let result := Adj.handleSubmit db st form in
  get (Adj.finalAnnotations result.1) (Comment.id c)
  = storedDecision db st form c
  /\ stateOf result.1 c = FINALIZED
  /\ Adj.isOpenDisagreement result.1 (Some c) = false
  /\ Adj.isUnfinished result.1 (Some c) = false
  /\ (forall c', Comment.id c' <> Comment.id c ->
        stateOf result.1 c' = stateOf st c')
  /\ Adj.finalizedCount result.1
     = (Adj.finalizedCount st
        + if get (Adj.finalAnnotations st) (Comment.id c) is Some _
          then 0 else 1)%nat
  /\ Adj.loading result.2 = false.
Proof.
  intros Hnd Hc Hs Hd Hacc result.
  assert (Hrun : exists f,
    storedDecision db st form c = Some f
    /\ result
       = (Adj.setFinalAnnotations
            (set (spread (Adj.finalAnnotations st)) (Comment.id c) f) st,
          Adj.setLoading false form)).
  { unfold result, Adj.handleSubmit, Adj.currentFinalAnnotation,
      storedDecision. rewrite Hc.
    apply String.eqb_neq in Hs, Hd. rewrite Hs, Hd. cbn [orb].
    unfold accepted in Hacc.
    destruct (get (Adj.finalAnnotations st) (Comment.id c)) as [f|].
    - destruct Hacc as (response & -> & ->). eauto.
    - destruct Hacc as (response & row & -> & -> & ->). eauto. }
  destruct Hrun as (f & -> & ->). cbn [fst snd].
  destruct (stored_decision_state st c f Hnd)
    as (Hget & Hstate & Hother & _ & Hcount).
  split; [done|]. split; [done|].
  split; [|split; [|split; [done|split; [done|done]]]].
  - destruct (Adj.isOpenDisagreement _ (Some c)) eqn:E; [|done].
    apply isOpenDisagreement_state in E. congruence.
  - destruct (Adj.isUnfinished _ (Some c)) eqn:E; [|done].
    apply isUnfinished_state in E. destruct E; congruence.
Qed.

Lemma submitted_decision_finalizes_the_item_witness :
  let row :=
    {| FinalAnnotation.id := 1; FinalAnnotation.comment_id := 11;
       FinalAnnotation.final_sentiment := "positive"%string;
       FinalAnnotation.final_discourse_polarization := "objective"%string;
       FinalAnnotation.created_at := "2024-01-01"%string |} in
  let db :=
    {| Supabase.count_comments := Some 1;
       Supabase.range_comments := fun _ _ =>
         {| Supabase.data := None; Supabase.error := None |};
       Supabase.select_annotations :=
         {| Supabase.data := None; Supabase.error := None |};
       Supabase.select_final_annotations :=
         {| Supabase.data := None; Supabase.error := None |};
       Supabase.update_final_annotation := fun _ _ _ => Throw TypeError;
       Supabase.insert_final_annotation := fun _ _ _ =>
         Ok {| Supabase.data := Some row; Supabase.error := None |} |} in
  let st :=
    {| Adj.comments := [Some (sampleComment 11)]; Adj.totalComments := 1;
       Adj.annotations := []; Adj.finalAnnotations := [];
       Adj.currentCommentIndex := 0 |} in
  let form :=
    {| Adj.finalSentiment := "positive";
       Adj.finalDiscoursePolarization := "objective";
       Adj.loading := false; Adj.jumpToComment := "" |} in
  (NoDup (Adj.finalAnnotations st).*1
   /\ Adj.currentComment st = Some (sampleComment 11)
   /\ Adj.finalSentiment form <> ""%string
   /\ Adj.finalDiscoursePolarization form <> ""%string
   /\ accepted db st form (sampleComment 11))
  /\ stateOf (Adj.handleSubmit db st form).1 (sampleComment 11) = FINALIZED
  /\ Adj.finalizedCount (Adj.handleSubmit db st form).1 = 1%nat.
Proof.
  intros row db st form.
  assert (NoDup (Adj.finalAnnotations st).*1) as Hnd by constructor.
  assert (Adj.currentComment st = Some (sampleComment 11)) as Hc
    by reflexivity.
  assert (Adj.finalSentiment form <> ""%string) as Hs by discriminate.
  assert (Adj.finalDiscoursePolarization form <> ""%string) as Hd
    by discriminate.
  assert (accepted db st form (sampleComment 11)) as Hacc.
  { exists {| Supabase.data := Some row; Supabase.error := None |}, row.
    by repeat split. }
  split; [exact (conj Hnd (conj Hc (conj Hs (conj Hd Hacc))))|].
  pose proof (submitted_decision_finalizes_the_item db st form
                (sampleComment 11) Hnd Hc Hs Hd Hacc)
    as (_ & Hstate & _ & _ & _ & Hcount & _).
  split; [exact Hstate|exact Hcount].
Defined.

(** ** Further facts on [hasDisagreement] and on stepping *)

(** X18. [hasDisagreement] looks at the first two judgments only and does
    not depend on their order: exchanging them, or appending further
    judgments, does not change the result. *)
Theorem hasDisagreement_first_two_unordered
  (a b : Annotation.t) (rest : list Annotation.t) :
  Adj.hasDisagreement (a :: b :: rest) = Adj.hasDisagreement [b; a]
  /\ Adj.hasDisagreement (a :: b :: rest) = bool_decide (differ a b).
Proof.
  assert (Hrest : Adj.hasDisagreement (a :: b :: rest)
                  = Adj.hasDisagreement [a; b]) by reflexivity.
  rewrite Hrest, !hasDisagreement_two. split; [|done].
  apply bool_decide_ext. unfold differ.
  split; (intros [?|?]; [left|right]); congruence.
Qed.

(** X19. Stepping forward and back returns to the same index: below the
    last item [goToPrevious] undoes [goToNext], and above the first item
    [goToNext] undoes [goToPrevious], whatever the service answers to the
    batch request in between. *)
Theorem stepping_forth_and_back (db : Supabase.Client) (st : Adj.State) :
  inRange st ->
  (Adj.currentCommentIndex st < Adj.totalComments st - 1 ->
   Adj.currentCommentIndex (Adj.goToPrevious (Adj.goToNext db st))
   = Adj.currentCommentIndex st)
  /\ (0 < Adj.currentCommentIndex st ->
      Adj.currentCommentIndex (Adj.goToNext db (Adj.goToPrevious st))
      = Adj.currentCommentIndex st).
Proof.
  intros [Hlo Hhi]. split.
  - intros Hlt. unfold Adj.goToNext.
    destruct (Z.ltb_spec (Adj.currentCommentIndex st)
                (Adj.totalComments st - 1)); [|lia].
    cbv zeta. unfold Adj.goToPrevious.
    cbn [Adj.currentCommentIndex Adj.setCurrentCommentIndex].
    destruct (Z.ltb_spec 0 (Adj.currentCommentIndex st + 1)); [|lia].
    cbn [Adj.currentCommentIndex Adj.setCurrentCommentIndex]. lia.
  - intros Hpos. unfold Adj.goToPrevious.
    destruct (Z.ltb_spec 0 (Adj.currentCommentIndex st)); [|lia].
    unfold Adj.goToNext.
    cbn [Adj.currentCommentIndex Adj.setCurrentCommentIndex
         Adj.totalComments].
    destruct (Z.ltb_spec (Adj.currentCommentIndex st - 1)
                (Adj.totalComments st - 1)); [|lia].
    cbn [Adj.currentCommentIndex Adj.setCurrentCommentIndex]. lia.
Qed.

Lemma stepping_forth_and_back_witness :
  let st :=
    Adj.setCurrentCommentIndex 1 (Adj.setTotalComments 3 initialState) in
  let db := tableClient [] in
  inRange st
  /\ Adj.currentCommentIndex (Adj.goToPrevious (Adj.goToNext db st)) = 1
  /\ Adj.currentCommentIndex (Adj.goToNext db (Adj.goToPrevious st)) = 1.
Proof.
  intros st db.
  assert (inRange st) as Hin by (split; [simpl; lia|left; simpl; lia]).
  split; [exact Hin|].
  destruct (stepping_forth_and_back db st Hin) as [Hforth Hback].
  split; [apply Hforth; simpl; lia|apply Hback; simpl; lia].
Defined.

(** ** The two agreements as proportions *)






(** ** [fetchData] *)

(** X21. The three fetches that [fetchData] starts together write to
    different parts of the state, so the order in which they complete does
    not matter: any two of them commute. *)
Theorem fetches_commute (db : Supabase.Client) (st : Adj.State) :
  Adj.fetchInitialData db (Adj.fetchAnnotations db st)
  = Adj.fetchAnnotations db (Adj.fetchInitialData db st)
  /\ Adj.fetchInitialData db (Adj.fetchFinalAnnotations db st)
     = Adj.fetchFinalAnnotations db (Adj.fetchInitialData db st)
  /\ Adj.fetchAnnotations db (Adj.fetchFinalAnnotations db st)
     = Adj.fetchFinalAnnotations db (Adj.fetchAnnotations db st).
Proof.
  unfold Adj.fetchInitialData, Adj.fetchAnnotations,
    Adj.fetchFinalAnnotations, Adj.loadCommentsBatch.
  destruct (Supabase.data (Supabase.select_annotations db)),
    (Supabase.data (Supabase.select_final_annotations db)),
    (Supabase.error (Supabase.range_comments db 0 (0 + 100 - 1))),
    (Supabase.data (Supabase.range_comments db 0 (0 + 100 - 1)));
    repeat split; reflexivity.
Qed.
